(** * rt11dir: the RT-11 volume directory engine

    A shallow embedding of [rt11dir.cpp]: the RAD50 name codec, the packed
    date codec, block I/O over a flat image, the directory reader, the
    directory-segment split and the copy-to-volume operation, then the name
    patterns, the [/todate] parser, the listing, the bad block table, the
    copy out of the volume and the command line, followed by the properties
    established about them.

    Conventions.  A [uint16_t] or [uint32_t] value is a [Z] kept in range by
    an explicit wrap ([u16], [u32]) wherever the source narrows or may wrap.
    The image is a list of bytes; a directory segment is a list of 512 words.
    A C++ exception is the outcome [Throw]; an access outside a C++ array is
    the outcome [Undefined]; a loop that needs more iterations than the model
    was given is [OutOfFuel] (shown not to happen where it matters). *)

From Stdlib Require Import ZArith List Bool Ascii String Lia.
From Stdlib Require Import Init.Byte.
Import ListNotations.

Local Open Scope string_scope.
Local Open Scope list_scope.
Local Open Scope Z_scope.

(** String concatenation, kept apart from list concatenation. *)
Infix "+++" := String.append (at level 60, right associativity).

(* ------------------------------------------------------------------ *)
(** ** Machine integers *)

Definition u8 (x : Z) : Z := x mod 256.
Definition u16 (x : Z) : Z := x mod 65536.
Definition u32 (x : Z) : Z := x mod 4294967296.

(** C's [a && b] on integers: 1 when both are non-zero, else 0. *)
Definition logicalAnd (a b : Z) : Z :=
  if negb (a =? 0) && negb (b =? 0) then 1 else 0.

(* ------------------------------------------------------------------ *)
(** ** Constants *)

Definition BLOCK_SIZE : Z := 512.
Definition DIR_SEGMENT_BLOCKS : Z := 2.

Definition E_TENT : Z := 0x0100.
Definition E_MPTY : Z := 0x0200.
Definition E_PERM : Z := 0x0400.
Definition E_EOS  : Z := 0x0800.
Definition E_READ : Z := 0x4000.
Definition E_PRE  : Z := 0x8000.

Definition RAD50_TABLE : list ascii :=
  [ " "; "A"; "B"; "C"; "D"; "E"; "F"; "G"; "H"; "I";
    "J"; "K"; "L"; "M"; "N"; "O"; "P"; "Q"; "R"; "S";
    "T"; "U"; "V"; "W"; "X"; "Y"; "Z";
    "$"; "."; "%"; "0"; "1"; "2"; "3"; "4"; "5"; "6"; "7"; "8"; "9" ]%char.

(* ------------------------------------------------------------------ *)
(** ** Characters and strings *)

(** [std::toupper] in the C locale. *)
Definition toupper (c : ascii) : ascii :=
  let n := N_of_ascii c in
  if ((97 <=? n) && (n <=? 122))%N then ascii_of_N (n - 32) else c.

Fixpoint upcase (s : string) : string :=
  match s with
  | EmptyString => EmptyString
  | String c r => String (toupper c) (upcase r)
  end.

Definition strlen (s : string) : Z := Z.of_nat (String.length s).

(** [s.substr(pos, n)] for [pos <= s.size()]. *)
Definition substr (s : string) (pos n : Z) : string :=
  String.substring (Z.to_nat pos) (Z.to_nat n) s.

(** [s.substr(pos)] for [pos <= s.size()]. *)
Definition substrFrom (s : string) (pos : Z) : string :=
  String.substring (Z.to_nat pos) (String.length s - Z.to_nat pos) s.

(** [s[i]] for [i < s.size()]; callers test the size first. *)
Definition charAt (s : string) (i : Z) : ascii :=
  match String.get (Z.to_nat i) s with
  | Some c => c
  | None => " "%char
  end.

(** [s.find(c)]: [None] is [std::string::npos]. *)
Fixpoint findChar (c : ascii) (s : string) (i : Z) : option Z :=
  match s with
  | EmptyString => None
  | String d r => if Ascii.eqb d c then Some i else findChar c r (i + 1)
  end.

(** [while (s.size() < n) s.push_back(' ')]. *)
Definition padTo (n : Z) (s : string) : string :=
  s +++ string_of_list_ascii (repeat " "%char (Z.to_nat (n - strlen s))).

(* ------------------------------------------------------------------ *)
(** ** RAD50 helpers *)

Fixpoint searchTable (c : ascii) (tbl : list ascii) (i : Z) : Z :=
  match tbl with
  | [] => 0
  | t :: rest => if Ascii.eqb t c then i else searchTable c rest (i + 1)
  end.

Definition rad50Index (c : ascii) : Z :=
  searchTable (toupper c) RAD50_TABLE 0.

Definition encodeRad50 (s3 : string) : Z :=
  let c1 := if strlen s3 >? 0 then charAt s3 0 else " "%char in
  let c2 := if strlen s3 >? 1 then charAt s3 1 else " "%char in
  let c3 := if strlen s3 >? 2 then charAt s3 2 else " "%char in
  let i1 := rad50Index c1 in
  let i2 := rad50Index c2 in
  let i3 := rad50Index c3 in
  u16 (i1 * 1600 + i2 * 40 + i3).

(** The three subscripts [decodeRad50] applies to [RAD50_TABLE], in order. *)
Definition rad50Subscripts (w : Z) : Z * Z * Z :=
  let i1 := w / 1600 in
  let w' := w mod 1600 in
  (i1, w' / 40, w' mod 40).

(** [RAD50_TABLE[i]]; [None] when [i] is outside the 40-entry array. *)
Definition tableAt (i : Z) : option ascii :=
  if (0 <=? i) && (i <? 40) then nth_error RAD50_TABLE (Z.to_nat i) else None.

Definition pushNonSpace (s : string) (c : ascii) : string :=
  if Ascii.eqb c " "%char then s else s +++ String c EmptyString.

(** [None]: a subscript left the table (undefined behaviour in the source). *)
Definition decodeRad50 (w : Z) : option string :=
  let '(i1, i2, i3) := rad50Subscripts w in
  match tableAt i1, tableAt i2, tableAt i3 with
  | Some c1, Some c2, Some c3 =>
      Some (pushNonSpace (pushNonSpace (pushNonSpace EmptyString c1) c2) c3)
  | _, _, _ => None
  end.

Definition decodeFileName (name1 name2 ext : Z) : option string :=
  match decodeRad50 name1, decodeRad50 name2, decodeRad50 ext with
  | Some d1, Some d2, Some extension0 =>
      let base := d1 +++ d2 in
      let base := if strlen base >? 6 then substr base 0 6 else base in
      let extension :=
        if strlen extension0 >? 3 then substr extension0 0 3 else extension0 in
      if strlen extension =? 0 then Some base
      else Some (base +++ "." +++ extension)
  | _, _, _ => None
  end.

(** The three output words [name1], [name2], [ext]. *)
Definition encodeFileName (rtname : string) : Z * Z * Z :=
  let '(base, extension) :=
    match findChar "."%char rtname 0 with
    | None => (rtname, EmptyString)
    | Some pos => (substr rtname 0 pos, substrFrom rtname (pos + 1))
    end in
  let base := if strlen base >? 6 then substr base 0 6 else base in
  let extension :=
    if strlen extension >? 3 then substr extension 0 3 else extension in
  let base := padTo 6 base in
  let extension := padTo 3 extension in
  let b1 := substr base 0 3 in
  let b2 := substr base 3 3 in
  (encodeRad50 b1, encodeRad50 b2, encodeRad50 extension).

(* ------------------------------------------------------------------ *)
(** ** Outcomes *)

Inductive error : Type :=
| ReadBlockFailed (block : Z)
| WriteBufferMismatch
| FirstDirBlockOutOfRange
| ImageEmpty
| InvalidTotalSegments
| LinkLoopWhileSplitting
| SegmentNotInChain
| DirectoryFull
| EmptySegment
| SourceMissing
| NameMissing
| CannotOpenInput
| NoEmptyArea
| InvalidRange
| ChosenAreaTooSmall.

Inductive undefined : Type :=
| TableSubscript
| WordSubscript (i : Z).

Inductive outcome (A : Type) : Type :=
| Ok (a : A)
| Throw (e : error)
| Undefined (u : undefined)
| OutOfFuel.

Arguments Ok {A} a.
Arguments Throw {A} e.
Arguments Undefined {A} u.
Arguments OutOfFuel {A}.

Definition obind {A B : Type} (o : outcome A) (k : A -> outcome B) : outcome B :=
  match o with
  | Ok a => k a
  | Throw e => Throw e
  | Undefined u => Undefined u
  | OutOfFuel => OutOfFuel
  end.

Notation "x <-- m ;; k" := (obind m (fun x => k))
  (at level 100, m at next level, right associativity).

(* ------------------------------------------------------------------ *)
(** ** RT-11 filename normalization (for /copyto) *)

Definition normalizeRt11Name (name : string) : outcome string :=
  let pos := findChar "."%char name 0 in
  let base := match pos with None => name | Some p => substr name 0 p end in
  let ext := match pos with None => EmptyString | Some p => substrFrom name (p + 1) end in
  if strlen base =? 0 then Throw NameMissing else
  let b := upcase base in
  let e := upcase ext in
  let b := if strlen b >? 6 then substr b 0 6 else b in
  let e := if strlen e >? 3 then substr e 0 3 else e in
  if strlen e =? 0 then Ok b else Ok (b +++ "." +++ e).

(** Case-insensitive string equality. *)
Fixpoint iequals (a b : string) : bool :=
  match a, b with
  | EmptyString, EmptyString => true
  | String ca ra, String cb rb =>
      Ascii.eqb (toupper ca) (toupper cb) && iequals ra rb
  | _, _ => false
  end.

(* ------------------------------------------------------------------ *)
(** ** RT-11 date encode/decode *)

(** The fields [formatRt11Date] extracts: year, month, day. *)
Definition dateFields (dateWord : Z) : Z * Z * Z :=
  let age := Z.land (Z.shiftr dateWord 14) 0x3 in
  let month := Z.land (Z.shiftr dateWord 10) 0xF in
  let day := Z.land (Z.shiftr dateWord 5) 0x1F in
  let yl := Z.land dateWord 0x1F in
  let year := 1972 + yl + 32 * age in
  (year, month, day).

Definition monthNames : list string :=
  [ ""; "Jan"; "Feb"; "Mar"; "Apr"; "May"; "Jun";
    "Jul"; "Aug"; "Sep"; "Oct"; "Nov"; "Dec" ].

Definition digitChar (d : Z) : ascii := ascii_of_N (48 + Z.to_N d).

(** [setw(2) << setfill('0') << n] for [0 <= n < 100]. *)
Definition twoDigits (n : Z) : string :=
  String (digitChar (n / 10)) (String (digitChar (n mod 10)) EmptyString).

Definition formatRt11Date (dateWord : Z) : string :=
  if dateWord =? 0 then "        " else
  let '(year, month, day) := dateFields dateWord in
  if (month <? 1) || (month >? 12) || (day <? 1) || (day >? 31)
  then "        "
  else
    let year2 := Z.rem year 100 in
    twoDigits day +++ "-" +++ nth (Z.to_nat month) monthNames "" +++ "-"
      +++ twoDigits year2.

(** [encodeRt11DateFromSystem], on the local time's year, month and day. *)
Definition encodeRt11DateFromSystem (year month day : Z) : Z :=
  if year <? 1972 then 0 else
  let yearOffset := year - 1972 in
  let age := Z.quot yearOffset 32 in
  let age := if age >? 3 then 3 else age in
  let base := 1972 + age * 32 in
  let yearLow := year - base in
  let yearLow := if yearLow <? 0 then 0 else yearLow in
  if (month <? 1) || (month >? 12) || (day <? 1) || (day >? 31) then 0 else
  let dw := 0 in
  let dw := Z.lor dw (u16 (Z.shiftl (Z.land age 0x3) 14)) in
  let dw := Z.lor dw (u16 (Z.shiftl (Z.land month 0xF) 10)) in
  let dw := Z.lor dw (u16 (Z.shiftl (Z.land day 0x1F) 5)) in
  let dw := Z.lor dw (u16 (Z.land yearLow 0x1F)) in
  dw.

(** Encode a specific date to RT-11 format. *)
Definition encodeRt11Date (year month day : Z) : Z :=
  if (year <? 1972) || (year >? 2099) then 0 else
  if (month <? 1) || (month >? 12) || (day <? 1) || (day >? 31) then 0 else
  let yearOffset := year - 1972 in
  let age := Z.quot yearOffset 32 in
  let age := if age >? 3 then 3 else age in
  let base := 1972 + age * 32 in
  let yearLow := year - base in
  let yearLow := if yearLow <? 0 then 0 else yearLow in
  let dw := 0 in
  let dw := Z.lor dw (u16 (Z.shiftl (Z.land age 0x3) 14)) in
  let dw := Z.lor dw (u16 (Z.shiftl (Z.land month 0xF) 10)) in
  let dw := Z.lor dw (u16 (Z.shiftl (logicalAnd day 0x1F) 5)) in
  let dw := Z.lor dw (u16 (Z.land yearLow 0x1F)) in
  dw.

(* ------------------------------------------------------------------ *)
(** ** Types *)

Record Rt11Entry : Type := mkRt11Entry {
  name : string;          (* NAME.EXT (upper-case) *)
  startBlock : Z;
  lengthBlocks : Z;
  status : Z;
  dateWord : Z;
  tentative : bool;
  empty : bool;
  permanent : bool;
  eos : bool;
  segNumber : Z;          (* 1-based logical segment number *)
  wordIndex : Z           (* index in words[] of status word *)
}.

Record DirSegmentHeader : Type := mkDirSegmentHeader {
  totalSegments : Z;
  nextSegment : Z;
  highestInUse : Z;
  extraBytes : Z;
  dataStartBlock : Z
}.

(** What [readDirectory] reports on [std::cerr] before it stops early. *)
Inductive warning : Type :=
| InvalidSegmentNumber (seg : Z)
| DirectoryLoop (seg : Z)
| BeyondVolume (seg : Z).

(* ------------------------------------------------------------------ *)
(** ** Bytes, words and the image *)

Definition image : Type := list byte.

Definition byteZ (b : byte) : Z := Z.of_N (Byte.to_N b).

(** [static_cast<uint8_t>(z)]. *)
Definition Zbyte (z : Z) : byte :=
  match Byte.of_N (Z.to_N (u8 z)) with
  | Some b => b
  | None => x00
  end.

(** [buf[2*i] | (buf[2*i+1] << 8)], stored into a [uint16_t]. *)
Definition wordAt (buf : list byte) (i : nat) : Z :=
  u16 (Z.lor (byteZ (nth (2 * i) buf x00))
             (Z.shiftl (byteZ (nth (2 * i + 1) buf x00)) 8)).

(** The 256 words of one block. *)
Definition blockWords (buf : list byte) : list Z :=
  map (wordAt buf) (seq 0 256).

(** The two bytes written for one word: low byte, then high byte. *)
Definition wordBytes (w : Z) : list byte :=
  [ Zbyte (Z.land w 0x00FF); Zbyte (Z.land (Z.shiftr w 8) 0x00FF) ].

(** The bytes of a run of words. *)
Definition wordsBytes (ws : list Z) : list byte := flat_map wordBytes ws.

(** [words[i]], for a subscript the caller keeps inside the array. *)
Definition getw (words : list Z) (i : Z) : Z := nth (Z.to_nat i) words 0.

(** The list with its element number [n] replaced by [v]. *)
Fixpoint replaceNth (l : list Z) (n : nat) (v : Z) : list Z :=
  match l, n with
  | [], _ => []
  | _ :: rest, O => v :: rest
  | x :: rest, S n' => x :: replaceNth rest n' v
  end.

(** [words[i] = v], for a subscript the caller keeps inside the array. *)
Definition setw (words : list Z) (i : Z) (v : Z) : list Z :=
  replaceNth words (Z.to_nat i) v.

(** [words[i] = v] on a 512-word array, where the subscript may leave it. *)
Definition storew (words : list Z) (i : Z) (v : Z) : outcome (list Z) :=
  if (0 <=? i) && (i <? 512) then Ok (setw words i v)
  else Undefined (WordSubscript i).

(** [size / BLOCK_SIZE], narrowed to [uint32_t]. *)
Definition totalBlocksOf (img : image) : Z :=
  u32 (Z.of_nat (List.length img) / BLOCK_SIZE).

(* ------------------------------------------------------------------ *)
(** ** Basic block I/O *)

(** The read fails unless all 512 bytes of the block lie inside the image. *)
Definition readBlock (img : image) (block : Z) : outcome (list byte) :=
  if (block + 1) * BLOCK_SIZE <=? Z.of_nat (List.length img)
  then Ok (firstn 512 (skipn (Z.to_nat (block * BLOCK_SIZE)) img))
  else Throw (ReadBlockFailed block).

(** A write past the end of the image extends it (zero filled). *)
Definition writeImage (img : image) (block : Z) (buf : list byte) : image :=
  let off := Z.to_nat (block * BLOCK_SIZE) in
  let padded := img ++ repeat x00 (off - List.length img) in
  firstn off padded ++ buf ++ skipn (off + 512) padded.

(** Two consecutive blocks read and assembled into 512 words, as each
    function of the source does inline. *)
Definition readSegmentWords (img : image) (block : Z) : outcome (list Z) :=
  b0 <-- readBlock img block ;;
  b1 <-- readBlock img (u32 (block + 1)) ;;
  Ok (blockWords b0 ++ blockWords b1).

(** [firstDirBlock + (segNum - 1) * DIR_SEGMENT_BLOCKS], in [uint32_t]. *)
Definition segmentBlock (firstDirBlock segNum : Z) : Z :=
  u32 (firstDirBlock + (segNum - 1) * DIR_SEGMENT_BLOCKS).

(* ------------------------------------------------------------------ *)
(** ** Home block / first dir block *)

Definition getFirstDirectoryBlock (img : image) : outcome Z :=
  buf <-- readBlock img 1 ;;
  let words := blockWords buf in
  let wordIndex := 234 in
  let firstDirBlock := getw words wordIndex in
  if firstDirBlock =? 0 then Ok 6 else Ok firstDirBlock.

(* ------------------------------------------------------------------ *)
(** ** Directory parsing *)

Definition parseSegmentHeader (words : list Z) : DirSegmentHeader :=
  {| totalSegments := getw words 0;
     nextSegment := getw words 1;
     highestInUse := getw words 2;
     extraBytes := getw words 3;
     dataStartBlock := getw words 4 |}.

(** No loop over the entries of a segment runs more often than the segment
    has words. *)
Definition wordsPerSegment : nat := 512.

(** [7 + extraBytes / 2], in [uint16_t]. *)
Definition entryWordsOf (hdr : DirSegmentHeader) : Z :=
  u16 (7 + extraBytes hdr / 2).

(** [v[i] = true] on a [std::vector<bool>]. *)
Definition markSegment (v : list bool) (i : Z) : list bool :=
  firstn (Z.to_nat i) v ++ true :: skipn (S (Z.to_nat i)) v.

Section ReadDirectory.

Variable img : image.
Variable totalBlocks : Z.
Variable firstDirBlock : Z.
Variable totalSegs : Z.
Variable dataStart : Z.

(** The inner loop of [readDirectory]: the entries of one segment, from
    word [idx] on.  Returns the grown entry list and the running offset. *)
Fixpoint parseEntries (fuel : nat) (words : list Z)
  (entryWordsSeg currentSegNum idx globalCumulativeOffset : Z)
  (entries : list Rt11Entry) : outcome (list Rt11Entry * Z) :=
  match fuel with
  | O => OutOfFuel
  | S fuel' =>
    if negb (idx + entryWordsSeg <=? 512)
    then Ok (entries, globalCumulativeOffset) else
    let st := getw words (idx + 0) in
    if negb (Z.land st E_EOS =? 0)
    then Ok (entries, globalCumulativeOffset) else
    if st =? 0
    then Ok (entries, globalCumulativeOffset) else
    let name1 := getw words (idx + 1) in
    let name2 := getw words (idx + 2) in
    let ext := getw words (idx + 3) in
    let len := getw words (idx + 4) in
    let dateW := getw words (idx + 6) in
    match decodeFileName name1 name2 ext with
    | None => Undefined TableSubscript
    | Some nm =>
      let start := u32 (dataStart + globalCumulativeOffset) in
      let e :=
        {| name := nm;
           startBlock := u16 start;
           lengthBlocks := len;
           status := st;
           dateWord := dateW;
           tentative := negb (Z.land st E_TENT =? 0);
           empty := negb (Z.land st E_MPTY =? 0);
           permanent := negb (Z.land st E_PERM =? 0);
           eos := negb (Z.land st E_EOS =? 0);
           segNumber := currentSegNum;
           wordIndex := idx |} in
      parseEntries fuel' words entryWordsSeg currentSegNum
        (u16 (idx + entryWordsSeg))
        (u32 (globalCumulativeOffset + len))
        (entries ++ [e])
    end
  end.

(** The outer loop of [readDirectory]: follow the links from
    [currentSegNum]. *)
Fixpoint walkSegments (fuel : nat) (currentSegNum : Z)
  (visitedSegments : list bool) (globalCumulativeOffset : Z)
  (entries : list Rt11Entry) : outcome (list Rt11Entry * option warning) :=
  match fuel with
  | O => OutOfFuel
  | S fuel' =>
    if currentSegNum =? 0 then Ok (entries, None) else
    if (currentSegNum <? 1) || (currentSegNum >? totalSegs)
    then Ok (entries, Some (InvalidSegmentNumber currentSegNum)) else
    if nth (Z.to_nat currentSegNum) visitedSegments false
    then Ok (entries, Some (DirectoryLoop currentSegNum)) else
    let visitedSegments := markSegment visitedSegments currentSegNum in
    let segBlock := segmentBlock firstDirBlock currentSegNum in
    if u32 (segBlock + 1) >=? totalBlocks
    then Ok (entries, Some (BeyondVolume currentSegNum)) else
    words <-- readSegmentWords img segBlock ;;
    let hdr := parseSegmentHeader words in
    let entryWordsSeg := entryWordsOf hdr in
    r <-- parseEntries wordsPerSegment words entryWordsSeg currentSegNum 5
            globalCumulativeOffset entries ;;
    walkSegments fuel' (nextSegment hdr) visitedSegments (snd r) (fst r)
  end.

End ReadDirectory.

Definition readDirectory (img : image) (totalBlocks : Z)
  : outcome (list Rt11Entry * option warning) :=
  firstDirBlock <-- getFirstDirectoryBlock img ;;
  if firstDirBlock >=? totalBlocks then Throw FirstDirBlockOutOfRange else
  segWords <-- readSegmentWords img firstDirBlock ;;
  let firstHeader := parseSegmentHeader segWords in
  let ts := totalSegments firstHeader in
  let ts := if (ts =? 0) || (ts >? 31) then 1 else ts in
  walkSegments img totalBlocks firstDirBlock ts (dataStartBlock firstHeader)
    (Z.to_nat ts + 2) 1 (repeat false (Z.to_nat (ts + 1))) 0 [].

(* ------------------------------------------------------------------ *)
(** ** The image under mutation *)

(** The image file together with the block numbers written so far, oldest
    first. *)
Record disk : Type := mkDisk {
  bytes : image;
  writes : list Z
}.

Definition M (A : Type) : Type := disk -> outcome A * disk.

Definition retM {A : Type} (a : A) : M A := fun d => (Ok a, d).

Definition throwM {A : Type} (e : error) : M A := fun d => (Throw e, d).

Definition bindM {A B : Type} (m : M A) (k : A -> M B) : M B :=
  fun d =>
    match m d with
    | (Ok a, d') => k a d'
    | (Throw e, d') => (Throw e, d')
    | (Undefined u, d') => (Undefined u, d')
    | (OutOfFuel, d') => (OutOfFuel, d')
    end.

(** A computation that only reads the image. *)
Definition readM {A : Type} (f : image -> outcome A) : M A :=
  fun d => (f (bytes d), d).

Notation "x <- m ;; k" := (bindM m (fun x => k))
  (at level 100, m at next level, right associativity).

Definition writeBlock (block : Z) (buf : list byte) : M unit :=
  fun d =>
    if negb (Z.of_nat (List.length buf) =? BLOCK_SIZE)
    then (Throw WriteBufferMismatch, d)
    else (Ok tt, {| bytes := writeImage (bytes d) block buf;
                    writes := writes d ++ [block] |}).

(** The two write loops that pack [words[0..255]] and [words[256..511]]
    into the block buffers. *)
Definition lowBlock (words : list Z) : list byte := wordsBytes (firstn 256 words).
Definition highBlock (words : list Z) : list byte := wordsBytes (skipn 256 words).

(* ------------------------------------------------------------------ *)
(** ** Directory segment split *)

(** Step 2: mark the segments linked from segment 1. *)
Fixpoint markChain (fuel : nat) (img : image) (firstDirBlock totalSegs : Z)
  (currentSeg : Z) (used : list bool) : outcome (list bool) :=
  match fuel with
  | O => OutOfFuel
  | S fuel' =>
    if negb (negb (currentSeg =? 0) && (currentSeg >=? 1)
             && (currentSeg <=? totalSegs))
    then Ok used else
    if nth (Z.to_nat currentSeg) used false
    then Throw LinkLoopWhileSplitting else
    let used := markSegment used currentSeg in
    let segBlock := segmentBlock firstDirBlock currentSeg in
    w <-- readSegmentWords img segBlock ;;
    let nextSeg := getw w 1 in
    markChain fuel' img firstDirBlock totalSegs nextSeg used
  end.

(** Step 3: the first [s] in [s .. s + n - 1] with [used[s]] false, else 0. *)
Fixpoint firstUnused (used : list bool) (s : Z) (n : nat) : Z :=
  match n with
  | O => 0
  | S n' =>
    if negb (nth (Z.to_nat s) used false) then s
    else firstUnused used (s + 1) n'
  end.

(** Step 5: the word indices of the entries of a segment, EOS excluded. *)
Fixpoint collectEntryIdx (fuel : nat) (words : list Z) (entryWords idx : Z)
  (entryIdx : list Z) : outcome (list Z) :=
  match fuel with
  | O => OutOfFuel
  | S fuel' =>
    if negb (idx + entryWords <=? 512) then Ok entryIdx else
    let st := getw words (idx + 0) in
    if negb (Z.land st E_EOS =? 0) then Ok entryIdx else
    if st =? 0 then Ok entryIdx else
    collectEntryIdx fuel' words entryWords (u16 (idx + entryWords))
      (entryIdx ++ [idx])
  end.

(** Step 6, first loop: the positions [i, i+1, ...] of the listed entries
    whose status has [E_PERM] or [E_TENT]. *)
Fixpoint movablePositionsFrom (words : list Z) (i : Z) (entryIdx : list Z)
  : list Z :=
  match entryIdx with
  | [] => []
  | x :: rest =>
    let st := getw words (x + 0) in
    if negb (Z.land st (Z.lor E_PERM E_TENT) =? 0)
    then i :: movablePositionsFrom words (i + 1) rest
    else movablePositionsFrom words (i + 1) rest
  end.

(** Step 6: the split position among [n] entries. *)
Definition chooseMidPos (movablePositions : list Z) (n : Z) : Z :=
  let midPos :=
    match movablePositions with
    | _ :: _ =>
        nth (Z.to_nat (Z.of_nat (List.length movablePositions) / 2))
            movablePositions 0
    | [] => n / 2
    end in
  if midPos >=? n - 1 then n / 2 else midPos.

(** [for (w = 0; w < entryWords; ++w) newWords[dest + w] = words[src + w]]. *)
Fixpoint copyEntryWords (n : nat) (words : list Z) (src dest w : Z)
  (newWords : list Z) : list Z :=
  match n with
  | O => newWords
  | S n' =>
    copyEntryWords n' words src dest (w + 1)
      (setw newWords (dest + w) (getw words (src + w)))
  end.

(** Step 8, the loop over the entries from the split position on. *)
Fixpoint moveEntries (words : list Z) (entryWords : Z) (srcs : list Z)
  (entriesMoved : Z) (newWords : list Z) : list Z * Z :=
  match srcs with
  | [] => (newWords, entriesMoved)
  | srcIdxEntry :: rest =>
    let destIdxEntry := u16 (5 + entriesMoved * entryWords) in
    if destIdxEntry + entryWords >? 512 then (newWords, entriesMoved) else
    moveEntries words entryWords rest (entriesMoved + 1)
      (copyEntryWords (Z.to_nat entryWords) words srcIdxEntry destIdxEntry 0
         newWords)
  end.

Definition splitDirectorySegment (segToSplit : Z) : M unit :=
  (* 1) Read segment 1 header *)
  firstDirBlock <- readM getFirstDirectoryBlock ;;
  seg1Words <- readM (fun img => readSegmentWords img firstDirBlock) ;;
  let seg1Hdr := parseSegmentHeader seg1Words in
  let totalSegs := totalSegments seg1Hdr in
  if (totalSegs =? 0) || (totalSegs >? 31) then throwM InvalidTotalSegments else
  (* 2) Build set of segments that are currently linked/in use *)
  used <- readM (fun img =>
            markChain (Z.to_nat totalSegs + 2) img firstDirBlock totalSegs 1
              (repeat false (Z.to_nat (totalSegs + 1)))) ;;
  if (segToSplit <? 1) || (segToSplit >? totalSegs)
     || negb (nth (Z.to_nat segToSplit) used false)
  then throwM SegmentNotInChain else
  (* 3) Find an unused segment number we can use as the new segment *)
  let newSegNum := firstUnused used 1 (Z.to_nat totalSegs) in
  if newSegNum =? 0 then throwM DirectoryFull else
  (* 4) Read the segment we are splitting *)
  let segBlock := segmentBlock firstDirBlock segToSplit in
  words <- readM (fun img => readSegmentWords img segBlock) ;;
  let hdr := parseSegmentHeader words in
  let entryWords := entryWordsOf hdr in
  (* 5) Collect indices of all directory entries in this segment *)
  entryIdx <- readM (fun _ => collectEntryIdx wordsPerSegment words entryWords 5 []) ;;
  match entryIdx with
  | [] => throwM EmptySegment
  | _ :: _ =>
    (* 6) Choose the split point *)
    let n := Z.of_nat (List.length entryIdx) in
    let midPos := chooseMidPos (movablePositionsFrom words 0 entryIdx) n in
    let middleIdx := nth (Z.to_nat midPos) entryIdx 0 in
    let originalStatus := getw words (middleIdx + 0) in
    let originalLink := getw words 1 in
    (* 7) Build the old segment with EOS at middle and link -> newSegNum *)
    let oldSegWords := setw (setw words (middleIdx + 0) E_EOS) 1 newSegNum in
    _ <- writeBlock segBlock (lowBlock oldSegWords) ;;
    _ <- writeBlock (u32 (segBlock + 1)) (highBlock oldSegWords) ;;
    (* 8) Build the new segment in memory *)
    let newWords := repeat 0 512 in
    let newWords := setw newWords 0 (getw words 0) in
    let newWords := setw newWords 1 originalLink in
    let newWords := setw newWords 2 (getw words 2) in
    let newWords := setw newWords 3 (getw words 3) in
    let newWords := setw newWords 4 (getw words 4) in
    let words := setw words (middleIdx + 0) originalStatus in
    let '(newWords, entriesMoved) :=
      moveEntries words entryWords (skipn (Z.to_nat midPos) entryIdx) 0
        newWords in
    let newEosIdx := u16 (5 + entriesMoved * entryWords) in
    let newWords :=
      if newEosIdx <? 512 then setw newWords (newEosIdx + 0) E_EOS
      else newWords in
    (* 9) Write the new segment to its physical location *)
    let newSegBlock := segmentBlock firstDirBlock newSegNum in
    _ <- readM (fun img => readBlock img newSegBlock) ;;
    _ <- readM (fun img => readBlock img (u32 (newSegBlock + 1))) ;;
    _ <- writeBlock newSegBlock (lowBlock newWords) ;;
    _ <- writeBlock (u32 (newSegBlock + 1)) (highBlock newWords) ;;
    (* 10) Update the highest segment in use in segment 1 header (word 2) *)
    let oldHighest := highestInUse seg1Hdr in
    let newHighest := Z.max oldHighest newSegNum in
    if negb (newHighest =? oldHighest) then
      let seg1Words := setw seg1Words 2 newHighest in
      _ <- writeBlock firstDirBlock (lowBlock seg1Words) ;;
      writeBlock (u32 (firstDirBlock + 1)) (highBlock seg1Words)
    else retM tt
  end.

(* ------------------------------------------------------------------ *)
(** ** Copy TO RT-11 *)

(** The host file handed to [copySingleToRt11]: whether the path exists, its
    file name, and its bytes ([None] when it cannot be opened). *)
Record HostFile : Type := mkHostFile {
  srcExists : bool;
  baseName : string;
  contents : option (list byte)
}.

(** What the operation prints on success. *)
Inductive CopyReport : Type :=
| Skipped (rtname : string)
| Copied (rtname : string).

(** The size of the file in blocks, rounded up, and at least 1. *)
Definition blocksNeededFor (data : list byte) : Z :=
  let blocksNeeded :=
    u32 ((Z.of_nat (List.length data) + BLOCK_SIZE - 1) / BLOCK_SIZE) in
  if blocksNeeded =? 0 then 1 else blocksNeeded.

(** The allocation scan: the first entry that is empty, neither permanent
    nor tentative, and long enough. *)
Fixpoint findEmptyEntry (entries : list Rt11Entry) (blocksNeeded : Z)
  : option Rt11Entry :=
  match entries with
  | [] => None
  | e :: rest =>
    if empty e && negb (permanent e) && negb (tentative e)
       && (lengthBlocks e >=? blocksNeeded)
    then Some e
    else findEmptyEntry rest blocksNeeded
  end.

(** The [/noreplace] scan. *)
Definition alreadyOnVolume (entries : list Rt11Entry) (rtname : string) : bool :=
  existsb (fun e => permanent e && iequals (name e) rtname) entries.

(** "Write file data first": blocks [start + i], [i] counting up, each the
    next 512 bytes of [data], zero padded. *)
Fixpoint writeFileData (n : nat) (data : list byte) (start i offset : Z)
  : M unit :=
  match n with
  | O => retM tt
  | S n' =>
    let remaining := Z.of_nat (List.length data) - offset in
    let toCopy := if remaining >? BLOCK_SIZE then BLOCK_SIZE else remaining in
    let block :=
      if toCopy >? 0
      then firstn (Z.to_nat toCopy) (skipn (Z.to_nat offset) data)
             ++ repeat x00 (Z.to_nat (BLOCK_SIZE - toCopy))
      else repeat x00 512 in
    let offset := if toCopy >? 0 then u32 (offset + toCopy) else offset in
    _ <- writeBlock (u32 (start + i)) block ;;
    writeFileData n' data start (i + 1) offset
  end.

(** The scan for the current EOS position: the pair [(eosIdx, scanIdx)] when
    the loop is left. *)
Fixpoint scanForEos (fuel : nat) (words : list Z) (entryWordsSeg scanIdx : Z)
  : outcome (Z * Z) :=
  match fuel with
  | O => OutOfFuel
  | S fuel' =>
    if negb (scanIdx + entryWordsSeg <=? 512) then Ok (0, scanIdx) else
    let st := getw words (scanIdx + 0) in
    if negb (Z.land st E_EOS =? 0) then Ok (scanIdx, scanIdx) else
    if st =? 0 then Ok (scanIdx, scanIdx) else
    scanForEos fuel' words entryWordsSeg (u16 (scanIdx + entryWordsSeg))
  end.

(** [for (i = eosIdx - 1; i >= insertIdx; --i) words[i + ew] = words[i]],
    [n] iterations starting at [i]. *)
Fixpoint shiftEntriesUp (n : nat) (words : list Z) (entryWordsSeg i : Z)
  : outcome (list Z) :=
  match n with
  | O => Ok words
  | S n' =>
    words <-- storew words (i + entryWordsSeg) (getw words i) ;;
    shiftEntriesUp n' words entryWordsSeg (i - 1)
  end.

(** [for (w = 0; w < entryWordsSeg; ++w) words[newEosIdx + w] = 0]. *)
Fixpoint clearEntryWords (n : nat) (words : list Z) (newEosIdx w : Z)
  : outcome (list Z) :=
  match n with
  | O => Ok words
  | S n' =>
    words <-- storew words (newEosIdx + w) 0 ;;
    clearEntryWords n' words newEosIdx (w + 1)
  end.

(** "Now proceed with the actual directory update": the entry at [idx]
    becomes the new file; a remainder becomes a new empty entry after it. *)
Definition updateDirectoryWords (words : list Z)
  (entryWordsSeg idx eosIdx remaining : Z)
  (name1 name2 ext len dateW : Z) : outcome (list Z) :=
  let st := E_PERM in
  let jobCh := 0 in
  words <-- storew words (idx + 0) st ;;
  words <-- storew words (idx + 1) name1 ;;
  words <-- storew words (idx + 2) name2 ;;
  words <-- storew words (idx + 3) ext ;;
  words <-- storew words (idx + 4) len ;;
  words <-- storew words (idx + 5) jobCh ;;
  words <-- storew words (idx + 6) dateW ;;
  if remaining >? 0 then
    let insertIdx := u16 (idx + entryWordsSeg) in
    words <--
      (if insertIdx <? eosIdx
       then shiftEntriesUp (Z.to_nat (eosIdx - insertIdx)) words
              entryWordsSeg (eosIdx - 1)
       else Ok words) ;;
    words <-- storew words (insertIdx + 0) E_MPTY ;;
    words <-- storew words (insertIdx + 1) 0 ;;
    words <-- storew words (insertIdx + 2) 0 ;;
    words <-- storew words (insertIdx + 3) 0 ;;
    words <-- storew words (insertIdx + 4) remaining ;;
    words <-- storew words (insertIdx + 5) 0 ;;
    words <-- storew words (insertIdx + 6) 0 ;;
    let newEosIdx := u16 (insertIdx + entryWordsSeg) in
    words <-- clearEntryWords (Z.to_nat entryWordsSeg) words newEosIdx 0 ;;
    storew words newEosIdx E_EOS
  else Ok words.

Section CopyTo.

Variable src : HostFile.
Variable noReplace : bool.
Variable optionalDateWord : Z.
(** The local date [encodeRt11DateFromSystem] would read: year, month, day. *)
Variable today : Z * Z * Z.

(** [fuel] bounds the re-invocations that follow a segment split. *)
Fixpoint copySingleToRt11 (fuel : nat) : M CopyReport :=
  match fuel with
  | O => fun d => (OutOfFuel, d)
  | S fuel' =>
    if negb (srcExists src) then throwM SourceMissing else
    rtname <- readM (fun _ => normalizeRt11Name (baseName src)) ;;
    size <- readM (fun img => Ok (Z.of_nat (List.length img))) ;;
    if size <=? 0 then throwM ImageEmpty else
    let totalBlocks := u32 (size / BLOCK_SIZE) in
    listing <- readM (fun img => readDirectory img totalBlocks) ;;
    let entries := fst listing in
    if noReplace && alreadyOnVolume entries rtname then retM (Skipped rtname)
    else
    match contents src with
    | None => throwM CannotOpenInput
    | Some data =>
      let blocksNeeded := blocksNeededFor data in
      match findEmptyEntry entries blocksNeeded with
      | None => throwM NoEmptyArea
      | Some emptyEntry =>
        let start := startBlock emptyEntry in
        let endBlock := u32 (start + blocksNeeded - 1) in
        if (start =? 0) || (endBlock >=? totalBlocks)
        then throwM InvalidRange else
        (* Write file data first *)
        _ <- writeFileData (Z.to_nat blocksNeeded) data start 0 0 ;;
        firstDirBlock <- readM getFirstDirectoryBlock ;;
        let segBlock := segmentBlock firstDirBlock (segNumber emptyEntry) in
        words <- readM (fun img => readSegmentWords img segBlock) ;;
        let hdr := parseSegmentHeader words in
        let entryWordsSeg := entryWordsOf hdr in
        let idx := wordIndex emptyEntry in
        let originalLen := getw words (idx + 4) in
        if originalLen <? blocksNeeded then throwM ChosenAreaTooSmall else
        let remaining := u16 (originalLen - blocksNeeded) in
        (* Find current EOS position *)
        scan <- readM (fun _ => scanForEos wordsPerSegment words entryWordsSeg 5) ;;
        let eosIdx := if fst scan =? 0 then snd scan else fst scan in
        (* Check if there's room for: [new empty entry] + [EOS] *)
        if (remaining >? 0)
           && (u16 (u16 (idx + entryWordsSeg) + entryWordsSeg + entryWordsSeg)
               >? 512)
        then
          _ <- splitDirectorySegment (segNumber emptyEntry) ;;
          copySingleToRt11 fuel'
        else
        (* Now proceed with the actual directory update *)
        let '(name1, name2, ext) := encodeFileName rtname in
        let len := u16 blocksNeeded in
        let dateW :=
          if negb (optionalDateWord =? 0) then optionalDateWord
          else let '(y, m, d) := today in encodeRt11DateFromSystem y m d in
        words <- readM (fun _ =>
                   updateDirectoryWords words entryWordsSeg idx eosIdx
                     remaining name1 name2 ext len dateW) ;;
        _ <- writeBlock segBlock (lowBlock words) ;;
        _ <- writeBlock (u32 (segBlock + 1)) (highBlock words) ;;
        retM (Copied rtname)
      end
    end
  end.

End CopyTo.

(* ------------------------------------------------------------------ *)
(** ** Vocabulary of the statements *)

(** The integers [a, a+1, ..., a+n-1]. *)
Definition rangeZ (a : Z) (n : nat) : list Z :=
  map (fun k => a + Z.of_nat k) (seq 0 n).

(** Remove the spaces of a string. *)
Fixpoint dropSpaces (s : string) : string :=
  match s with
  | EmptyString => EmptyString
  | String c r =>
    if Ascii.eqb c " "%char then dropSpaces r else String c (dropSpaces r)
  end.

(** The string of three characters. *)
Definition str3 (c1 c2 c3 : ascii) : string :=
  String c1 (String c2 (String c3 EmptyString)).

(** Equality test on (year, month, day). *)
Definition sameDate (x y : Z * Z * Z) : bool :=
  let '(a, b, c) := x in
  let '(a', b', c') := y in
  (a =? a') && (b =? b') && (c =? c').

(** The number of segments not yet visited. *)
Definition unvisited (v : list bool) : nat := List.length (filter negb v).

(** The total length, in blocks, of a run of entries. *)
Fixpoint sumLengths (l : list Rt11Entry) : Z :=
  match l with
  | [] => 0
  | e :: rest => lengthBlocks e + sumLengths rest
  end.

(** The data start block recorded in the header of the first segment. *)
Definition firstDataStartBlock (img : image) : Z :=
  match getFirstDirectoryBlock img with
  | Ok firstDirBlock =>
    match readSegmentWords img firstDirBlock with
    | Ok segWords => dataStartBlock (parseSegmentHeader segWords)
    | _ => 0
    end
  | _ => 0
  end.

(** Every entry of [l] starts, modulo 2^16, where the entries before it
    end, counting from [dsb]; all lengths are 16-bit. *)
Definition startsFrom (dsb : Z) (l : list Rt11Entry) : Prop :=
  forall i e, nth_error l i = Some e ->
    startBlock e = u16 (dsb + sumLengths (firstn i l))
    /\ 0 <= lengthBlocks e < 65536.

(** The test of step 6 on the status word at [x]. *)
Definition isFileEntry (words : list Z) (x : Z) : bool :=
  negb (Z.land (getw words (x + 0)) (Z.lor E_PERM E_TENT) =? 0).

(** The candidate of step 6, before the last-entry adjustment. *)
Definition splitCandidate (movablePositions : list Z) (n : Z) : Z :=
  match movablePositions with
  | _ :: _ =>
      nth (Z.to_nat (Z.of_nat (List.length movablePositions) / 2))
          movablePositions 0
  | [] => n / 2
  end.

(** The test of the allocation scan. *)
Definition fitsRequest (blocksNeeded : Z) (e : Rt11Entry) : bool :=
  empty e && negb (permanent e) && negb (tentative e)
  && (lengthBlocks e >=? blocksNeeded).

(** The entry positions of the segment stored at [block], as the split and
    the reader decode them. *)
Definition segmentEntryIdx (img : image) (block : Z) : outcome (list Z) :=
  words <-- readSegmentWords img block ;;
  collectEntryIdx wordsPerSegment words
    (entryWordsOf (parseSegmentHeader words)) 5 [].

(** The next-segment link of the segment stored at [block]. *)
Definition segmentLink (img : image) (block : Z) : outcome Z :=
  words <-- readSegmentWords img block ;;
  Ok (nextSegment (parseSegmentHeader words)).

(** The highest segment in use recorded in the segment stored at [block]. *)
Definition segmentHighest (img : image) (block : Z) : outcome Z :=
  words <-- readSegmentWords img block ;;
  Ok (highestInUse (parseSegmentHeader words)).

(** The blocks written for a successful split of [seg] into [newSegNum],
    with [firstDirBlock] the first directory block and [oldHighest] the
    highest segment in use recorded in segment 1. *)
Definition splitWrites (firstDirBlock seg newSegNum oldHighest : Z) : list Z :=
  [ segmentBlock firstDirBlock seg;
    u32 (segmentBlock firstDirBlock seg + 1);
    segmentBlock firstDirBlock newSegNum;
    u32 (segmentBlock firstDirBlock newSegNum + 1) ]
  ++ (if oldHighest <? newSegNum
      then [firstDirBlock; u32 (firstDirBlock + 1)]
      else []).

(** The data blocks of a file of [n] blocks placed at [start]. *)
Definition dataBlocks (start : Z) (n : nat) : list Z :=
  map (fun k => u32 (start + k)) (rangeZ 0 n).

(** The failures of the checks [splitDirectorySegment] makes before it
    builds anything: invalid segment count, link loop, segment not in the
    chain, directory full, empty segment. *)
Definition isSplitPrecondition (e : error) : bool :=
  match e with
  | InvalidTotalSegments | LinkLoopWhileSplitting | SegmentNotInChain
  | DirectoryFull | EmptySegment => true
  | _ => false
  end.

(** The shape of the write log of a split that succeeded: the two blocks of
    the old segment, the two blocks of the new segment, then the two blocks
    of segment 1 exactly when the new segment number exceeds the highest
    segment in use recorded there. *)
Definition oldThenNewThenFirst (seg : Z) (d d' : disk) : Prop :=
  exists firstDirBlock seg1Words used,
    getFirstDirectoryBlock (bytes d) = Ok firstDirBlock
    /\ readSegmentWords (bytes d) firstDirBlock = Ok seg1Words
    /\ markChain (Z.to_nat (totalSegments (parseSegmentHeader seg1Words)) + 2)
         (bytes d) firstDirBlock
         (totalSegments (parseSegmentHeader seg1Words)) 1
         (repeat false
            (Z.to_nat (totalSegments (parseSegmentHeader seg1Words) + 1)))
       = Ok used
    /\ writes d'
       = writes d
         ++ splitWrites firstDirBlock seg
              (firstUnused used 1
                 (Z.to_nat (totalSegments (parseSegmentHeader seg1Words))))
              (highestInUse (parseSegmentHeader seg1Words)).

(** One attempt of [copySingleToRt11] on the disk [d], up to the point
    where it has read the directory segment of the entry it chose: the
    file's bytes [data], the entry [e] chosen in the directory of [d], the
    disk [d2] once the data blocks are written, the first directory block
    read from [d2], and the words of the segment of [e] read from [d2]. *)
Definition attemptAt (src : HostFile) (d : disk) (data : list byte)
  (e : Rt11Entry) (d2 : disk) (firstDirBlock : Z) (words : list Z) : Prop :=
  exists entries w,
    contents src = Some data
    /\ readDirectory (bytes d) (totalBlocksOf (bytes d)) = Ok (entries, w)
    /\ findEmptyEntry entries (blocksNeededFor data) = Some e
    /\ writeFileData (Z.to_nat (blocksNeededFor data)) data (startBlock e)
         0 0 d = (Ok tt, d2)
    /\ getFirstDirectoryBlock (bytes d2) = Ok firstDirBlock
    /\ readSegmentWords (bytes d2) (segmentBlock firstDirBlock (segNumber e))
       = Ok words.

(** The test "is there room for the new empty entry and the EOS" of
    [copySingleToRt11], true when the segment has to be split. *)
Definition needsSplit (words : list Z) (e : Rt11Entry) (blocksNeeded : Z)
  : bool :=
  (u16 (getw words (wordIndex e + 4) - blocksNeeded) >? 0)
  && (u16 (u16 (wordIndex e + entryWordsOf (parseSegmentHeader words))
           + entryWordsOf (parseSegmentHeader words)
           + entryWordsOf (parseSegmentHeader words)) >? 512).

(** The disks on which [copySingleToRt11] starts over: [retried src d d1]
    when, from [d], zero or more attempts in a row each wrote the data,
    found no room in the segment of the entry chosen, and split that
    segment, the last split leaving [d1]. *)
Inductive retried (src : HostFile) : disk -> disk -> Prop :=
| retried_none (d : disk) : retried src d d
| retried_split (d : disk) (data : list byte) (e : Rt11Entry) (d2 : disk)
    (firstDirBlock : Z) (words : list Z) (d3 d1 : disk) :
    attemptAt src d data e d2 firstDirBlock words ->
    needsSplit words e (blocksNeededFor data) = true ->
    splitDirectorySegment (segNumber e) d2 = (Ok tt, d3) ->
    retried src d3 d1 ->
    retried src d d1.

(** The shape of the write log of a copy of [src] that succeeded from the
    disk [d]: up to the disk [d1] of its last attempt, the earlier attempts
    (each followed by a segment split); then, for the entry [e] chosen in
    the directory of [d1], the data blocks of the file at [startBlock e],
    in order; then the two blocks of the directory segment of [e], and
    nothing after them. *)
Definition dataBeforeDirectory (src : HostFile) (d d' : disk) : Prop :=
  exists d1 data e d2 firstDirBlock words,
    retried src d d1
    /\ (exists earlier, writes d1 = writes d ++ earlier)
    /\ attemptAt src d1 data e d2 firstDirBlock words
    /\ needsSplit words e (blocksNeededFor data) = false
    /\ writes d'
       = writes d1
         ++ dataBlocks (startBlock e) (Z.to_nat (blocksNeededFor data))
         ++ [ segmentBlock firstDirBlock (segNumber e);
              u32 (segmentBlock firstDirBlock (segNumber e) + 1) ].

(** What a listing shows of an entry: name, status, length, start block. *)
Definition summary (e : Rt11Entry) : string * Z * Z * Z :=
  (name e, status e, lengthBlocks e, startBlock e).

(** The listing of a whole image. *)
Definition listingOf (img : image) : outcome (list (string * Z * Z * Z)) :=
  r <-- readDirectory img (totalBlocksOf img) ;;
  Ok (map summary (fst r)).

(* ------------------------------------------------------------------ *)
(** ** Sample volumes and host files *)

(** [n] blocks of zero bytes. *)
Definition blankBlocks (n : nat) : image := repeat x00 (512 * n).

(** The 1024 bytes of a segment given its leading words. *)
Definition segmentBytes (words : list Z) : image :=
  wordsBytes (words ++ repeat 0 (512 - List.length words)).

(** Blocks 0-5 blank (so the first directory block defaults to 6), then the
    directory segments from block 6 on, then blank data blocks. *)
Definition volume (segments : list (list Z)) (dataBlocks : nat) : image :=
  blankBlocks 6 ++ flat_map segmentBytes segments ++ blankBlocks dataBlocks.

(** A 7-word directory entry. *)
Definition entry7 (st name1 name2 ext len dateW : Z) : list Z :=
  [st; name1; name2; ext; len; 0; dateW].

(** An image on which nothing has been written yet. *)
Definition freshDisk (img : image) : disk := {| bytes := img; writes := [] |}.

(** The result of splitting segment [seg] of a fresh image. *)
Definition afterSplit (img : image) (seg : Z) : outcome unit * disk :=
  splitDirectorySegment seg (freshDisk img).

(** The result of copying [src] to a fresh image, dated 15 January 1999,
    without [/noreplace]. *)
Definition afterCopy (img : image) (src : HostFile) : outcome CopyReport * disk :=
  copySingleToRt11 src false 0 (1999, 1, 15) 4 (freshDisk img).

(** A one-byte host file [F]. *)
Definition tinyFile : HostFile :=
  {| srcExists := true; baseName := "f"; contents := Some [x41] |}.

(** A host file [G] of 1025 bytes: three blocks. *)
Definition threeBlockFile : HostFile :=
  {| srcExists := true; baseName := "g"; contents := Some (repeat x42 1025) |}.

(** A host file [H] of 2000 bytes: four blocks. *)
Definition fourBlockFile : HostFile :=
  {| srcExists := true; baseName := "h"; contents := Some (repeat x43 2000) |}.

(** One segment: a 3-block empty area followed by the 2-block file [A]. *)
Definition gapThenFile : image :=
  volume [ [1; 0; 1; 0; 8]
             ++ entry7 E_MPTY 0 0 0 3 0
             ++ entry7 E_PERM (encodeRad50 "A") 0 0 2 0
             ++ [E_EOS] ] 5.

(** The two entries [readDirectory] returns on [gapThenFile]. *)
Definition gapEntry : Rt11Entry :=
  {| name := ""; startBlock := 8; lengthBlocks := 3; status := E_MPTY;
     dateWord := 0; tentative := false; empty := true; permanent := false;
     eos := false; segNumber := 1; wordIndex := 5 |}.

Definition fileEntryA : Rt11Entry :=
  {| name := "A"; startBlock := 11; lengthBlocks := 2; status := E_PERM;
     dateWord := 0; tentative := false; empty := false; permanent := true;
     eos := false; segNumber := 1; wordIndex := 12 |}.

(** One segment: the 2-block file [A] followed by a 3-block empty area. *)
Definition fileThenGap : image :=
  volume [ [1; 0; 1; 0; 8]
             ++ entry7 E_PERM (encodeRad50 "A") 0 0 2 0
             ++ entry7 E_MPTY 0 0 0 3 0
             ++ [E_EOS] ] 5.

(** A one-segment volume whose only entry has the name word 0xFFFF. *)
Definition oddNameVolume : image :=
  volume [ [1; 0; 1; 0; 8] ++ entry7 E_PERM 0xFFFF 0 0 1 0 ++ [E_EOS] ] 1.

(** Two segments linked in a circle: 1 -> 2 -> 1. *)
Definition circularVolume : image :=
  volume [ [2; 2; 2; 0; 10] ++ entry7 E_PERM (encodeRad50 "A") 0 0 2 0 ++ [E_EOS];
           [2; 1; 2; 0; 10] ++ entry7 E_MPTY 0 0 0 3 0 ++ [E_EOS] ] 5.

(** Three entries whose lengths add up past 2^16. *)
Definition wideVolume : image :=
  volume [ [1; 0; 1; 0; 8]
             ++ entry7 E_MPTY 0 0 0 40000 0
             ++ entry7 E_MPTY 0 0 0 40000 0
             ++ entry7 E_PERM (encodeRad50 "A") 0 0 1 0
             ++ [E_EOS] ] 1.

(** Segment words: files [A], [B] and a 5-block empty area; two segments
    available, [highest] recorded as the highest segment in use. *)
Definition twoFilesGapWords (highest : Z) : list Z :=
  [2; 0; highest; 0; 10]
    ++ entry7 E_PERM (encodeRad50 "A") 0 0 1 0
    ++ entry7 E_PERM (encodeRad50 "B") 0 0 1 0
    ++ entry7 E_MPTY 0 0 0 5 0
    ++ [E_EOS].

(** That segment, an unused second segment, and seven data blocks. *)
Definition twoFilesGap (highest : Z) : image :=
  volume [ twoFilesGapWords highest; [] ] 7.

(** Segment words: file [A] followed by two empty areas. *)
Definition fileGapGapWords : list Z :=
  [2; 0; 2; 0; 10]
    ++ entry7 E_PERM (encodeRad50 "A") 0 0 2 0
    ++ entry7 E_MPTY 0 0 0 3 0
    ++ entry7 E_MPTY 0 0 0 4 0
    ++ [E_EOS].

(** That segment, an unused second segment, and nine data blocks. *)
Definition fileGapGap : image := volume [ fileGapGapWords; [] ] 9.

(** Segment words: nine empty areas, then file [A]. *)
Definition lastOnlyWords : list Z :=
  [2; 0; 2; 0; 10]
    ++ flat_map (fun _ => entry7 E_MPTY 0 0 0 1 0) (seq 0 9)
    ++ entry7 E_PERM (encodeRad50 "A") 0 0 1 0
    ++ [E_EOS].

(** The word indices of its ten entries. *)
Definition tenEntryIdx : list Z := map (fun k => 5 + 7 * k) (rangeZ 0 10).

(** One segment of wide entries (326 extra bytes each, 170 words): a single
    3-block empty area, with no room for a second entry and the marker;
    [total] segments exist and [highest] is recorded as in use. *)
Definition crowdedVolume (total highest : Z) : image :=
  volume [ [total; 0; highest; 326; 10]
             ++ entry7 E_MPTY 0 0 0 3 0 ++ repeat 0 163 ++ [E_EOS];
           [] ] 3.

(* ================================================================== *)

(* ------------------------------------------------------------------ *)
(** ** Vocabulary for names *)

(** Every character of [s] passes the test [p]. *)
Fixpoint allChars (p : ascii -> bool) (s : string) : bool :=
  match s with
  | EmptyString => true
  | String c r => p c && allChars p r
  end.

(** [c] is not the character [x]. *)
Definition isNot (x : ascii) (c : ascii) : bool := negb (Ascii.eqb c x).

(** A character that RAD50 can hold once upper-cased, the space apart. *)
Definition rad50Char (c : ascii) : bool :=
  existsb (Ascii.eqb (toupper c)) RAD50_TABLE && isNot " " c.

(** A character of the base part of a name: as above, and not the dot. *)
Definition baseChar (c : ascii) : bool := rad50Char c && isNot "." c.

(** [base.ext], or [base] alone when there is no extension. *)
Definition joinName (base ext : string) : string :=
  if strlen ext =? 0 then base else base +++ "." +++ ext.


(* ------------------------------------------------------------------ *)
(** ** The [/todate] date string *)

(** [std::isspace] in the C locale. *)
Definition isspace (c : ascii) : bool :=
  let n := N_of_ascii c in
  ((n =? 32) || ((9 <=? n) && (n <=? 13)))%N.

Definition isdigit (c : ascii) : bool :=
  let n := N_of_ascii c in
  ((48 <=? n) && (n <=? 57))%N.

Definition digitValue (c : ascii) : Z := Z.of_N (N_of_ascii c) - 48.

Fixpoint skipSpaces (s : string) : string :=
  match s with
  | EmptyString => s
  | String c r => if isspace c then skipSpaces r else s
  end.

(** The value of the run of decimal digits at the head of [s], continuing
    the value [acc] read so far; [None] while no digit has been read. *)
Fixpoint readDigits (s : string) (acc : option Z) : option Z :=
  match s with
  | EmptyString => acc
  | String c r =>
    if isdigit c
    then readDigits r
           (Some (10 * match acc with Some a => a | None => 0 end
                  + digitValue c))
    else acc
  end.

(** [std::stoi(s)]: leading white space, an optional sign, decimal digits.
    [None] is either of its exceptions: [std::invalid_argument] (no digit)
    and [std::out_of_range] (not an [int]). *)
Definition stoi (s : string) : option Z :=
  let s := skipSpaces s in
  let '(negative, s) :=
    match s with
    | EmptyString => (false, s)
    | String c r =>
      if Ascii.eqb c "-" then (true, r)
      else if Ascii.eqb c "+" then (false, r)
      else (false, s)
    end in
  match readDigits s None with
  | None => None
  | Some v =>
    let v := if negative then - v else v in
    if (v <? -2147483648) || (v >? 2147483647) then None else Some v
  end.

(** The [monthNames] table of [parseDateString]. *)
Definition monthNamesUpper : list string :=
  [ "JAN"; "FEB"; "MAR"; "APR"; "MAY"; "JUN";
    "JUL"; "AUG"; "SEP"; "OCT"; "NOV"; "DEC" ].

(** The search loop of [parseDateString]: [i + 1] for the first name equal
    to [monthStr], counting from [i]; 0 when there is none. *)
Fixpoint monthNumber (monthStr : string) (names : list string) (i : Z) : Z :=
  match names with
  | [] => 0
  | nm :: rest =>
    if String.eqb monthStr nm then i + 1
    else monthNumber monthStr rest (i + 1)
  end.

(** Parse a date string in the format dd-MMM-yy.  [None] is the result
    [false]; otherwise the day, the month and the year stored through the
    reference parameters. *)
Definition parseDateString (dateStr : string) : option (Z * Z * Z) :=
  if negb (strlen dateStr =? 9) then None else
  if negb (Ascii.eqb (charAt dateStr 2) "-")
     || negb (Ascii.eqb (charAt dateStr 6) "-") then None else
  match stoi (substr dateStr 0 2) with
  | None => None
  | Some day =>
    if (day <? 1) || (day >? 31) then None else
    let monthStr := upcase (substr dateStr 3 3) in
    let month := monthNumber monthStr monthNamesUpper 0 in
    if month =? 0 then None else
    match stoi (substr dateStr 7 2) with
    | None => None
    | Some year2 =>
      let year := if year2 >=? 72 then 1900 + year2 else 2000 + year2 in
      if (year <? 1972) || (year >? 2099) then None
      else Some (day, month, year)
    end
  end.


(* ------------------------------------------------------------------ *)
(** ** Main *)

Module Main.

(** The local variables the argument loop of [main] sets. *)
Record Options : Type := mkOptions {
  brief : bool;
  showEmpty : bool;
  doCopyFrom : bool;
  doCopyTo : bool;
  noReplace : bool;
  copyFromPattern : string;
  copyToFromPattern : string;
  toPath : string;
  optionalDateWord : Z
}.

Definition initial : Options :=
  {| brief := false; showEmpty := false; doCopyFrom := false;
     doCopyTo := false; noReplace := false; copyFromPattern := "";
     copyToFromPattern := ""; toPath := ""; optionalDateWord := 0 |}.

(** How [main] ends: with the help text, with one of its own errors, or by
    calling one of the three operations. *)
Inductive Ending : Type :=
| HelpShown
| InvalidDateFormat (toDateStr : string)
| FailedToEncodeDate (toDateStr : string)
| BothCopyDirections
| SubstrOutOfRange
| FromRequired
| RunCopyFrom (imagePath copyFromPattern toPath : string) (noReplace : bool)
| RunCopyTo (imagePath copyToFromPattern : string) (noReplace : bool)
    (optionalDateWord : Z)
| RunShowDirectory (imagePath : string) (brief showEmpty : bool).

(** The value [main] returns where it ends by itself; after one of the
    three operations it is 0 when the operation returns and 1 when it
    throws, which is [None] here. *)
Definition exitCode (e : Ending) : option Z :=
  match e with
  | HelpShown => Some 0
  | InvalidDateFormat _ | FailedToEncodeDate _ | BothCopyDirections
  | SubstrOutOfRange | FromRequired => Some 1
  | RunCopyFrom _ _ _ _ | RunCopyTo _ _ _ _ | RunShowDirectory _ _ _ => None
  end.

Definition isHelp (arg : string) : bool :=
  String.eqb arg "/help" || String.eqb arg "/h" || String.eqb arg "/?".

(** [arg.rfind(prefix, 0) == 0]. *)
Definition startsWith (arg prefix : string) : bool := String.prefix prefix arg.

(** [arg.substr(pos)]; [None] when it throws [std::out_of_range]. *)
Definition substrChecked (arg : string) (pos : Z) : option string :=
  if pos >? strlen arg then None else Some (substrFrom arg pos).

(** The argument loop, from [argv[2]] on. *)
Fixpoint parseArgs (args : list string) (o : Options) : Ending + Options :=
  match args with
  | [] => inr o
  | arg :: rest =>
    if isHelp arg then inl HelpShown
    else if String.eqb arg "/brief" || String.eqb arg "/b" then
      parseArgs rest
        {| brief := true; showEmpty := showEmpty o;
           doCopyFrom := doCopyFrom o; doCopyTo := doCopyTo o;
           noReplace := noReplace o; copyFromPattern := copyFromPattern o;
           copyToFromPattern := copyToFromPattern o; toPath := toPath o;
           optionalDateWord := optionalDateWord o |}
    else if String.eqb arg "/empty" || String.eqb arg "/e" then
      parseArgs rest
        {| brief := brief o; showEmpty := true;
           doCopyFrom := doCopyFrom o; doCopyTo := doCopyTo o;
           noReplace := noReplace o; copyFromPattern := copyFromPattern o;
           copyToFromPattern := copyToFromPattern o; toPath := toPath o;
           optionalDateWord := optionalDateWord o |}
    else if String.eqb arg "/copyfrom" then
      parseArgs rest
        {| brief := brief o; showEmpty := showEmpty o;
           doCopyFrom := true; doCopyTo := doCopyTo o;
           noReplace := noReplace o; copyFromPattern := copyFromPattern o;
           copyToFromPattern := copyToFromPattern o; toPath := toPath o;
           optionalDateWord := optionalDateWord o |}
    else if startsWith arg "/copyfrom:" then
      match substrChecked arg 11 with
      | None => inl SubstrOutOfRange
      | Some pattern =>
        parseArgs rest
          {| brief := brief o; showEmpty := showEmpty o;
             doCopyFrom := true; doCopyTo := doCopyTo o;
             noReplace := noReplace o; copyFromPattern := pattern;
             copyToFromPattern := copyToFromPattern o; toPath := toPath o;
             optionalDateWord := optionalDateWord o |}
      end
    else if String.eqb arg "/copyto" then
      parseArgs rest
        {| brief := brief o; showEmpty := showEmpty o;
           doCopyFrom := doCopyFrom o; doCopyTo := true;
           noReplace := noReplace o; copyFromPattern := copyFromPattern o;
           copyToFromPattern := copyToFromPattern o; toPath := toPath o;
           optionalDateWord := optionalDateWord o |}
    else if startsWith arg "/from:" then
      match substrChecked arg 6 with
      | None => inl SubstrOutOfRange
      | Some pattern =>
        parseArgs rest
          {| brief := brief o; showEmpty := showEmpty o;
             doCopyFrom := doCopyFrom o; doCopyTo := doCopyTo o;
             noReplace := noReplace o; copyFromPattern := copyFromPattern o;
             copyToFromPattern := pattern; toPath := toPath o;
             optionalDateWord := optionalDateWord o |}
      end
    else if String.eqb arg "/to" then
      parseArgs rest
        {| brief := brief o; showEmpty := showEmpty o;
           doCopyFrom := doCopyFrom o; doCopyTo := doCopyTo o;
           noReplace := noReplace o; copyFromPattern := copyFromPattern o;
           copyToFromPattern := copyToFromPattern o; toPath := "";
           optionalDateWord := optionalDateWord o |}
    else if startsWith arg "/to:" then
      match substrChecked arg 4 with
      | None => inl SubstrOutOfRange
      | Some path =>
        parseArgs rest
          {| brief := brief o; showEmpty := showEmpty o;
             doCopyFrom := doCopyFrom o; doCopyTo := doCopyTo o;
             noReplace := noReplace o; copyFromPattern := copyFromPattern o;
             copyToFromPattern := copyToFromPattern o; toPath := path;
             optionalDateWord := optionalDateWord o |}
      end
    else if String.eqb arg "/noreplace" then
      parseArgs rest
        {| brief := brief o; showEmpty := showEmpty o;
           doCopyFrom := doCopyFrom o; doCopyTo := doCopyTo o;
           noReplace := true; copyFromPattern := copyFromPattern o;
           copyToFromPattern := copyToFromPattern o; toPath := toPath o;
           optionalDateWord := optionalDateWord o |}
    else if startsWith arg "/todate:" then
      match substrChecked arg 8 with
      | None => inl SubstrOutOfRange
      | Some toDateStr =>
        match parseDateString toDateStr with
        | None => inl (InvalidDateFormat toDateStr)
        | Some (day, month, year) =>
          let dateWord := encodeRt11Date year month day in
          if dateWord =? 0 then inl (FailedToEncodeDate toDateStr)
          else
            parseArgs rest
              {| brief := brief o; showEmpty := showEmpty o;
                 doCopyFrom := doCopyFrom o; doCopyTo := doCopyTo o;
                 noReplace := noReplace o;
                 copyFromPattern := copyFromPattern o;
                 copyToFromPattern := copyToFromPattern o; toPath := toPath o;
                 optionalDateWord := dateWord |}
        end
      end
    else parseArgs rest o
  end.

(** [main], on [argv[1]], [argv[2]], ... *)
Definition main (argv : list string) : Ending :=
  match argv with
  | [] => HelpShown
  | arg1 :: rest =>
    if isHelp arg1 then HelpShown else
    let imagePath := arg1 in
    match parseArgs rest initial with
    | inl e => e
    | inr o =>
      if doCopyFrom o && doCopyTo o then BothCopyDirections
      else if doCopyFrom o then
        RunCopyFrom imagePath (copyFromPattern o) (toPath o) (noReplace o)
      else if doCopyTo o then
        if strlen (copyToFromPattern o) =? 0 then FromRequired
        else RunCopyTo imagePath (copyToFromPattern o) (noReplace o)
               (optionalDateWord o)
      else RunShowDirectory imagePath (brief o) (showEmpty o)
    end
  end.

End Main.


(* ------------------------------------------------------------------ *)
(** ** RT-11 pattern matching (for /copyfrom) *)

Definition normalizePattern (pattern : string) : string := upcase pattern.

Definition hasWildcard (s : string) : bool :=
  match findChar "*" s 0 with
  | Some _ => true
  | None =>
    match findChar "?" s 0 with
    | Some _ => true
    | None => false
    end
  end.

(** The loop of [matchComponent] for a pattern without [*]: [n] iterations
    from index [i], over strings of equal size. *)
Fixpoint matchChars (n : nat) (value pattern : string) (i : Z) : bool :=
  match n with
  | O => true
  | S n' =>
    if Ascii.eqb (charAt pattern i) "?" then matchChars n' value pattern (i + 1)
    else if negb (Ascii.eqb (charAt pattern i) (charAt value i)) then false
    else matchChars n' value pattern (i + 1)
  end.

Definition matchComponent (value pattern : string) : bool :=
  if String.eqb pattern "*" || (strlen pattern =? 0) then true else
  match findChar "*" pattern 0 with
  | None =>
    if negb (strlen value =? strlen pattern) then false
    else matchChars (String.length pattern) value pattern 0
  | Some starPos =>
    let prefix := substr pattern 0 starPos in
    let suffix := substrFrom pattern (starPos + 1) in
    if strlen value <? strlen prefix + strlen suffix then false else
    if negb (String.eqb (substr value 0 (strlen prefix)) prefix) then false else
    if negb (strlen suffix =? 0)
       && negb (String.eqb
                  (substr value (strlen value - strlen suffix) (strlen suffix))
                  suffix)
    then false
    else true
  end.

Definition matchRt11Pattern (rtName pattern : string) : bool :=
  let '(valueName, valueExt) :=
    match findChar "." rtName 0 with
    | None => (rtName, EmptyString)
    | Some vpos => (substr rtName 0 vpos, substrFrom rtName (vpos + 1))
    end in
  let '(patName, patExt) :=
    match findChar "." pattern 0 with
    | None => (pattern, EmptyString)
    | Some ppos => (substr pattern 0 ppos, substrFrom pattern (ppos + 1))
    end in
  matchComponent valueName patName && matchComponent valueExt patExt.

(** One character of a pattern without [*] against one character of a
    value. *)
Definition charMatches (p v : ascii) : bool :=
  Ascii.eqb p "?" || Ascii.eqb p v.

(** Two strings of the same length whose characters correspond under [f]. *)
Fixpoint pointwise (f : ascii -> ascii -> bool) (a b : string) : bool :=
  match a, b with
  | EmptyString, EmptyString => true
  | String x a', String y b' => f x y && pointwise f a' b'
  | _, _ => false
  end.


(* ------------------------------------------------------------------ *)
(** ** Copy FROM RT-11 *)

(** The exceptions of the operations that write host files, next to those
    of the image. *)
Inductive thrown : Type :=
| ImageError (e : error)
| NonPermanentFile (name : string)
| InvalidEntryRange (name : string)
| CannotCreateOutput (outPath : string)
| FailedWriting (outPath : string)
| NoFilesMatched (patternRaw : string).

Inductive result (A : Type) : Type :=
| Return (a : A)
| Raise (t : thrown)
| Undef (u : undefined)
| NoFuel.

Arguments Return {A} a.
Arguments Raise {A} t.
Arguments Undef {A} u.
Arguments NoFuel {A}.

Definition ofOutcome {A : Type} (o : outcome A) : result A :=
  match o with
  | Ok a => Return a
  | Throw e => Raise (ImageError e)
  | Undefined u => Undef u
  | OutOfFuel => NoFuel
  end.

(** The host file system as the copy sees it: whether a path exists,
    whether a file can be created there, and whether the write of block
    number [i] to it succeeds. *)
Record HostOut : Type := mkHostOut {
  outExists : string -> bool;
  outCreatable : string -> bool;
  outAccepts : string -> Z -> bool
}.

(** What [copySingleFromRt11] leaves behind when it returns. *)
Inductive FromReport : Type :=
| SkippedExisting (outPath : string)
| CopiedOut (outPath : string) (data : list byte).

(** [s.find_last_of("\\/")], scanning from index [i]; [last] is the best
    position so far. *)
Fixpoint findLastSlash (s : string) (i : Z) (last : option Z) : option Z :=
  match s with
  | EmptyString => last
  | String c r =>
    findLastSlash r (i + 1)
      (if Ascii.eqb c "\" || Ascii.eqb c "/" then Some i else last)
  end.

(** The destination directory of [copyFromRt11]; [None] is
    [std::filesystem::current_path()]. *)
Definition destinationDir (toPathRaw : string) : option string :=
  if strlen toPathRaw =? 0 then None else
  let p := toPathRaw in
  let p :=
    if hasWildcard p then
      match findLastSlash p 0 None with
      | Some pos => substr p 0 pos
      | None => p
      end
    else p in
  if strlen p =? 0 then None else Some p.

Section CopyFrom.

Variable host : HostOut.
(** [destDir / name] of [std::filesystem], [None] being the current
    directory. *)
Variable joinPath : option string -> string -> string.

(** The block loop of [copySingleFromRt11]: [n] iterations from [i], the
    bytes written so far being [out]. *)
Fixpoint readFileBlocks (n : nat) (img : image) (e : Rt11Entry)
  (outPath : string) (i : Z) (out : list byte) : result (list byte) :=
  match n with
  | O => Return out
  | S n' =>
    match readBlock img (u32 (startBlock e + i)) with
    | Ok block =>
      if negb (outAccepts host outPath i) then Raise (FailedWriting outPath)
      else readFileBlocks n' img e outPath (u16 (i + 1)) (out ++ block)
    | Throw err => Raise (ImageError err)
    | Undefined u => Undef u
    | OutOfFuel => NoFuel
    end
  end.

Definition copySingleFromRt11 (img : image) (totalBlocks : Z) (e : Rt11Entry)
  (outPath : string) (noReplace : bool) : result FromReport :=
  if negb (permanent e) then Raise (NonPermanentFile (name e)) else
  let endBlock := u32 (startBlock e + lengthBlocks e - 1) in
  if (startBlock e =? 0) || (endBlock >=? totalBlocks)
  then Raise (InvalidEntryRange (name e)) else
  if noReplace && outExists host outPath
  then Return (SkippedExisting outPath) else
  if negb (outCreatable host outPath)
  then Raise (CannotCreateOutput outPath) else
  match readFileBlocks (Z.to_nat (lengthBlocks e)) img e outPath 0 [] with
  | Return data => Return (CopiedOut outPath data)
  | Raise t => Raise t
  | Undef u => Undef u
  | NoFuel => NoFuel
  end.

(** The loop over the matches: the reports of the files done, and how the
    loop ended. *)
Fixpoint copyMatches (img : image) (totalBlocks : Z)
  (destDir : option string) (noReplace : bool)
  (matches : list Rt11Entry) (done : list FromReport)
  : list FromReport * result unit :=
  match matches with
  | [] => (done, Return tt)
  | e :: rest =>
    let outPath := joinPath destDir (name e) in
    match copySingleFromRt11 img totalBlocks e outPath noReplace with
    | Return r =>
      copyMatches img totalBlocks destDir noReplace rest (done ++ [r])
    | Raise t => (done, Raise t)
    | Undef u => (done, Undef u)
    | NoFuel => (done, NoFuel)
    end
  end.

(** The selection loop of [copyFromRt11]. *)
Definition selectMatches (entries : list Rt11Entry) (pattern : string)
  : list Rt11Entry :=
  filter (fun e => permanent e && matchRt11Pattern (name e) pattern) entries.

(** The pattern [copyFromRt11] selects with. *)
Definition effectivePattern (patternRaw : string) : string :=
  if strlen patternRaw =? 0 then "*.*" else normalizePattern patternRaw.

Definition copyFromRt11 (img : image) (patternRaw toPathRaw : string)
  (noReplace : bool) : list FromReport * result unit :=
  let size := Z.of_nat (List.length img) in
  if size <=? 0 then ([], Raise (ImageError ImageEmpty)) else
  let totalBlocks := u32 (size / BLOCK_SIZE) in
  match readDirectory img totalBlocks with
  | Throw err => ([], Raise (ImageError err))
  | Undefined u => ([], Undef u)
  | OutOfFuel => ([], NoFuel)
  | Ok listing =>
    let entries := fst listing in
    let pattern := effectivePattern patternRaw in
    let destDir := destinationDir toPathRaw in
    let matches := selectMatches entries pattern in
    match matches with
    | [] => ([], Raise (NoFilesMatched patternRaw))
    | _ :: _ => copyMatches img totalBlocks destDir noReplace matches []
    end
  end.

End CopyFrom.

(** The host path a report is about. *)
Definition reportPath (r : FromReport) : string :=
  match r with
  | SkippedExisting outPath => outPath
  | CopiedOut outPath _ => outPath
  end.

(** Block [i] of a file as [copySingleToRt11] writes it: 512 bytes of the
    file from byte [512 * i] on, zero filled at the end of the file. *)
Definition fileBlock (data : list byte) (i : Z) : list byte :=
  let chunk := firstn 512 (skipn (Z.to_nat (512 * i)) data) in
  chunk ++ repeat x00 (512 - List.length chunk).

(** A file zero filled to a length of [n] blocks. *)
Definition paddedTo (n : Z) (data : list byte) : list byte :=
  data ++ repeat x00 (Z.to_nat (512 * n) - List.length data).

(** A host that accepts everything. *)
Definition willingHost : HostOut :=
  {| outExists := fun _ => false;
     outCreatable := fun _ => true;
     outAccepts := fun _ _ => true |}.


(** What a successful copy of [src] from the disk [d] leaves on the
    volume [d']: with [d1] the disk of the last attempt, [e] the entry
    chosen in the directory of [d1] and [firstDirBlock] the first directory
    block read once the data was written, the blocks from [startBlock e] on
    hold the blocks of the file, provided the file is smaller than 4 GiB
    and the directory segment of [e], written last, lies below them. *)
Definition dataOnVolume (src : HostFile) (d d' : disk) : Prop :=
  exists d1 data e d2 firstDirBlock words,
    retried src d d1
    /\ attemptAt src d1 data e d2 firstDirBlock words
    /\ needsSplit words e (blocksNeededFor data) = false
    /\ 0 < startBlock e < 65536
    /\ (Z.of_nat (List.length data) < 4294967296 ->
        segmentBlock firstDirBlock (segNumber e) + 1 < startBlock e ->
        forall j, 0 <= j < blocksNeededFor data ->
          readBlock (bytes d') (startBlock e + j) = Ok (fileBlock data j)).

(** The entry of a one-block file [F] at block 10. *)
Definition fileEntryF : Rt11Entry :=
  {| name := "F"; startBlock := 10; lengthBlocks := 1; status := E_PERM;
     dateWord := 0; tentative := false; empty := false; permanent := true;
     eos := false; segNumber := 1; wordIndex := 12 |}.


(** What holds of every entry [readDirectory] returns. *)
Definition wellFormedEntry (e : Rt11Entry) : Prop :=
  eos e = false
  /\ status e <> 0
  /\ tentative e = negb (Z.land (status e) E_TENT =? 0)
  /\ empty e = negb (Z.land (status e) E_MPTY =? 0)
  /\ permanent e = negb (Z.land (status e) E_PERM =? 0)
  /\ 1 <= segNumber e <= 31
  /\ 5 <= wordIndex e /\ wordIndex e + 7 <= 512
  /\ 0 <= status e < 65536
  /\ 0 <= lengthBlocks e < 65536
  /\ 0 <= startBlock e < 65536
  /\ 0 <= dateWord e < 65536
  /\ strlen (name e) <= 10.


(* ------------------------------------------------------------------ *)
(** ** Directory listing *)

(** The decimal digits of [n], for [0 <= n < 10^fuel]. *)
Fixpoint decimalDigits (fuel : nat) (n : Z) (acc : string) : string :=
  match fuel with
  | O => acc
  | S fuel' =>
    let acc := String (digitChar (n mod 10)) acc in
    if n <? 10 then acc else decimalDigits fuel' (n / 10) acc
  end.

(** [std::cout << n] for an unsigned integer of at most 32 bits. *)
Definition decimal (n : Z) : string := decimalDigits 10 n "".

(** [std::left << std::setw(w) << s]. *)
Definition leftField (w : Z) (s : string) : string := padTo w s.

(** The line printed for an entry that is listed. *)
Definition entryLine (brief : bool) (e : Rt11Entry) : string :=
  if brief then
    if empty e then "<EMPTY>" else name e
  else if empty e then
    leftField 12 "<EMPTY>" +++ " len=" +++ leftField 6 (decimal (lengthBlocks e))
      +++ " start=" +++ leftField 6 (decimal (startBlock e))
  else
    leftField 12 (name e) +++ " len=" +++ leftField 6 (decimal (lengthBlocks e))
      +++ " start=" +++ leftField 6 (decimal (startBlock e))
      +++ " " +++ formatRt11Date (dateWord e).

(** The loop of [showDirectory]: the lines printed so far and the three
    counters [totalUsed], [totalFree], [fileCount]. *)
Fixpoint listEntries (brief showEmpty : bool) (entries : list Rt11Entry)
  (lines : list string) (totalUsed totalFree fileCount : Z)
  : list string * (Z * Z * Z) :=
  match entries with
  | [] => (lines, (totalUsed, totalFree, fileCount))
  | e :: rest =>
    let totalUsed :=
      if permanent e then u32 (totalUsed + lengthBlocks e) else totalUsed in
    let fileCount := if permanent e then u32 (fileCount + 1) else fileCount in
    let totalFree :=
      if empty e then u32 (totalFree + lengthBlocks e) else totalFree in
    if empty e && negb showEmpty then
      listEntries brief showEmpty rest lines totalUsed totalFree fileCount
    else if negb (permanent e) && negb (empty e) then
      listEntries brief showEmpty rest lines totalUsed totalFree fileCount
    else
      listEntries brief showEmpty rest (lines ++ [entryLine brief e])
        totalUsed totalFree fileCount
  end.

(** The lines [showDirectory] prints on [std::cout]. *)
Definition showDirectory (imagePath : string) (img : image)
  (brief showEmpty : bool) : outcome (list string) :=
  let size := Z.of_nat (List.length img) in
  if size <=? 0 then Throw ImageEmpty else
  let totalBlocks := u32 (size / BLOCK_SIZE) in
  listing <-- readDirectory img totalBlocks ;;
  let entries := fst listing in
  let '(lines, (totalUsed, totalFree, fileCount)) :=
    listEntries brief showEmpty entries
      [ "Directory of " +++ imagePath; "" ] 0 0 0 in
  Ok (lines ++ [ "";
                 "Files: " +++ decimal fileCount;
                 "Total used blocks: " +++ decimal totalUsed;
                 "Total free blocks: " +++ decimal totalFree ]).

(** The entries the listing shows. *)
Definition listed (showEmpty : bool) (e : Rt11Entry) : bool :=
  (permanent e || empty e) && (showEmpty || negb (empty e)).

(** The sum of the lengths of the entries that pass [p]. *)
Definition blocksOf (p : Rt11Entry -> bool) (entries : list Rt11Entry) : Z :=
  sumLengths (filter p entries).

(* ------------------------------------------------------------------ *)
(** ** The bad block table of the home block *)

(** The loop of [checkBadBlockTable] over the pairs of words from word [i]
    on, [n] pairs at most: the entry number, block number and count of each
    line it prints. *)
Fixpoint badBlockEntries (n : nat) (words : list Z) (i : Z)
  : list (Z * Z * Z) :=
  match n with
  | O => []
  | S n' =>
    let blockNum := getw words i in
    let count := getw words (i + 1) in
    if (blockNum =? 0) && (count =? 0) then [] else
    if negb (blockNum =? 0) || negb (count =? 0)
    then ((i - 16) / 2, blockNum, count) :: badBlockEntries n' words (i + 2)
    else badBlockEntries n' words (i + 2)
  end.

(** The pairs the loop visits: [i = 16, 18, ..., 80]. *)
Definition badBlockPairs : nat := 33.

(** What [checkBadBlockTable] prints. *)
Record BadBlockReport : Type := mkBadBlockReport {
  badEntries : list (Z * Z * Z);
  noBadBlocks : bool;
  firstDirectoryWord : Z;
  packClusterSize : Z;
  systemVersion : Z
}.

Definition checkBadBlockTable (img : image) : outcome BadBlockReport :=
  buf <-- readBlock img 1 ;;
  let words := blockWords buf in
  let entries := badBlockEntries badBlockPairs words 16 in
  Ok {| badEntries := entries;
        noBadBlocks := match entries with [] => true | _ :: _ => false end;
        firstDirectoryWord := getw words 234;
        packClusterSize := getw words 233;
        systemVersion := getw words 235 |}.

(** A two-block image whose home block lists one bad block: block 100,
    count 2. *)
Definition badBlockSample : image :=
  blankBlocks 1 ++ wordsBytes (repeat 0 16 ++ [100; 2] ++ repeat 0 238).

Definition badBlockSampleReport : BadBlockReport :=
  {| badEntries := [(0, 100, 2)]; noBadBlocks := false;
     firstDirectoryWord := 0; packClusterSize := 0; systemVersion := 0 |}.


(* ------------------------------------------------------------------ *)
(** ** Windows wildcard matching and expansion (for /copyto) *)

(** The test of the first branch of the loop of [matchFsName]. *)
Definition fsCharMatches (pc nc : ascii) : bool :=
  Ascii.eqb pc "?" || Ascii.eqb (toupper pc) (toupper nc).

(** The first loop of [matchFsName]; [star] is [None] for [npos].  The
    result is [None] when the loop returns [false], and the final [p] when
    it runs to the end of [name]. *)
Fixpoint matchFsLoop (fuel : nat) (name pattern : string)
  (n p : Z) (star : option Z) (mtch : Z) : outcome (option Z) :=
  match fuel with
  | O => OutOfFuel
  | S fuel' =>
    if negb (n <? strlen name) then Ok (Some p) else
    if (p <? strlen pattern)
       && fsCharMatches (charAt pattern p) (charAt name n)
    then matchFsLoop fuel' name pattern (n + 1) (p + 1) star mtch
    else if (p <? strlen pattern) && Ascii.eqb (charAt pattern p) "*"
    then matchFsLoop fuel' name pattern n (p + 1) (Some p) n
    else
      match star with
      | Some s => matchFsLoop fuel' name pattern (mtch + 1) (s + 1) star (mtch + 1)
      | None => Ok None
      end
  end.

(** The second loop: skip the [*] that are left, [k] at most. *)
Fixpoint skipStars (k : nat) (pattern : string) (p : Z) : Z :=
  match k with
  | O => p
  | S k' =>
    if (p <? strlen pattern) && Ascii.eqb (charAt pattern p) "*"
    then skipStars k' pattern (p + 1)
    else p
  end.

(** Iterations that always suffice for the first loop. *)
Definition matchFsFuel (name pattern : string) : nat :=
  S ((String.length name * (String.length pattern + 2)
      + (String.length pattern + 1)) * (String.length name + 1)
     + String.length name).

Definition matchFsName (name pattern : string) : outcome bool :=
  r <-- matchFsLoop (matchFsFuel name pattern) name pattern 0 0 None 0 ;;
  match r with
  | None => Ok false
  | Some p =>
    Ok (skipStars (String.length pattern) pattern p =? strlen pattern)
  end.

Definition hasFsWildcard (s : string) : bool :=
  match findChar "*" s 0 with
  | Some _ => true
  | None =>
    match findChar "?" s 0 with
    | Some _ => true
    | None => false
    end
  end.

(** Wildcard matching as it is understood: [?] stands for one character,
    [*] for any run of characters, any other character for itself, upper
    and lower case alike. *)
Fixpoint globMatches (pattern name : list ascii) : bool :=
  match pattern with
  | [] => match name with [] => true | _ :: _ => false end
  | pc :: ps =>
    if Ascii.eqb pc "*" then
      (fix star (nm : list ascii) : bool :=
         globMatches ps nm
         || match nm with
            | [] => false
            | _ :: rest => star rest
            end) name
    else
      match name with
      | [] => false
      | nc :: ns => fsCharMatches pc nc && globMatches ps ns
      end
  end.

(** The position of the last [*] seen, -1 when there is none. *)
Definition starPos (star : option Z) : Z :=
  match star with
  | Some s => s
  | None => -1
  end.

(** The measure of the first loop of [matchFsName]. *)
Definition loopMeasure (N P A B C : Z) : Z := (A * (P + 2) + B) * (N + 1) + C.

(** The characters of a string. *)
Definition chars (s : string) : list ascii := list_ascii_of_string s.

(** From [a] in the pattern and [b] in the name, [L] characters of the
    pattern are no [*] and match the characters of the name. *)
Definition literalRun (P N : list ascii) (a b L : nat) : Prop :=
  forall k, (k < L)%nat ->
    Ascii.eqb (nth (a + k) P " "%char) "*" = false
    /\ fsCharMatches (nth (a + k) P " "%char) (nth (b + k) N " "%char) = true.

(** What the first loop of [matchFsName] maintains, for the answer [T]. *)
Definition loopInvariant (P N : list ascii) (T : bool)
  (n p : nat) (star : option nat) (mtch : nat) : Prop :=
  (n <= List.length N)%nat /\ (p <= List.length P)%nat
  /\ match star with
     | None => T = globMatches (skipn p P) (skipn n N)
     | Some s =>
       (s < p)%nat /\ nth s P " "%char = "*"%char /\ (mtch <= n)%nat
       /\ T = globMatches (skipn s P) (skipn mtch N)
       /\ (p - S s = n - mtch)%nat
       /\ literalRun P N (S s) mtch (p - S s)
     end.

(* ------------------------------------------------------------------ *)
(** ** Vocabulary for the segments of a split *)

(** The word indices of [k] entries of [ew] words each, the first at
    [idx]. *)
Definition slotsFrom (idx ew : Z) (k : nat) : list Z :=
  map (fun i => idx + Z.of_nat i * ew) (seq 0 k).

(** Step 8 of [splitDirectorySegment]: the words of the new segment, from
    the words of the segment that is split, the positions of its entries
    and the split position. *)
Definition newSegmentWords (words entryIdx : list Z) (midPos : Z) : list Z :=
  let entryWords := entryWordsOf (parseSegmentHeader words) in
  let middleIdx := nth (Z.to_nat midPos) entryIdx 0 in
  let originalStatus := getw words (middleIdx + 0) in
  let originalLink := getw words 1 in
  let newWords := repeat 0 512 in
  let newWords := setw newWords 0 (getw words 0) in
  let newWords := setw newWords 1 originalLink in
  let newWords := setw newWords 2 (getw words 2) in
  let newWords := setw newWords 3 (getw words 3) in
  let newWords := setw newWords 4 (getw words 4) in
  let words := setw words (middleIdx + 0) originalStatus in
  let '(newWords, entriesMoved) :=
    moveEntries words entryWords (skipn (Z.to_nat midPos) entryIdx) 0
      newWords in
  let newEosIdx := u16 (5 + entriesMoved * entryWords) in
  if newEosIdx <? 512 then setw newWords (newEosIdx + 0) E_EOS
  else newWords.

(** What a split that succeeded did, for the segment [seg] of the disk [d]
    and the disk [d'] it left: with [words] the words of the segment and
    [entryIdx] the positions of its [n] entries, the candidate is the
    Permanent or Tentative entry in the middle of those ([n / 2] when there
    is none), the split position is the candidate, or [n / 2] when the
    candidate is the last entry, and the new segment, read from [d'], holds
    exactly the entries from the split position on, at least one. *)
Definition newSegmentFromSplitPoint (seg : Z) (d d' : disk) : Prop :=
  exists firstDirBlock seg1Words used words entryIdx newWords,
    getFirstDirectoryBlock (bytes d) = Ok firstDirBlock
    /\ readSegmentWords (bytes d) firstDirBlock = Ok seg1Words
    /\ markChain (Z.to_nat (totalSegments (parseSegmentHeader seg1Words)) + 2)
         (bytes d) firstDirBlock
         (totalSegments (parseSegmentHeader seg1Words)) 1
         (repeat false
            (Z.to_nat (totalSegments (parseSegmentHeader seg1Words) + 1)))
       = Ok used
    /\ readSegmentWords (bytes d) (segmentBlock firstDirBlock seg) = Ok words
    /\ collectEntryIdx wordsPerSegment words
         (entryWordsOf (parseSegmentHeader words)) 5 [] = Ok entryIdx
    /\ let entryWords := entryWordsOf (parseSegmentHeader words) in
       let n := Z.of_nat (List.length entryIdx) in
       let movable := movablePositionsFrom words 0 entryIdx in
       let candidate := splitCandidate movable n in
       let midPos := chooseMidPos movable n in
       let newSegBlock :=
         segmentBlock firstDirBlock
           (firstUnused used 1
              (Z.to_nat (totalSegments (parseSegmentHeader seg1Words)))) in
       (movable <> [] ->
          In candidate movable
          /\ isFileEntry words (nth (Z.to_nat candidate) entryIdx 0) = true)
       /\ (movable = [] -> candidate = n / 2)
       /\ midPos = (if candidate >=? n - 1 then n / 2 else candidate)
       /\ 0 <= midPos < n
       /\ 1 <= n - midPos
       /\ readSegmentWords (bytes d') newSegBlock = Ok newWords
       /\ segmentEntryIdx (bytes d') newSegBlock
          = Ok (slotsFrom 5 entryWords (Z.to_nat (n - midPos)))
       /\ (forall k w, 0 <= k < n - midPos -> 0 <= w < entryWords ->
             getw newWords (5 + k * entryWords + w)
             = getw words (nth (Z.to_nat (midPos + k)) entryIdx 0 + w)).

(** * Properties *)

(* ------------------------------------------------------------------ *)
(** ** Generic list facts *)

Lemma In_rangeZ (a : Z) (n : nat) (x : Z) :
  a <= x < a + Z.of_nat n -> In x (rangeZ a n).
Proof.
  intros H. unfold rangeZ. apply in_map_iff.
  exists (Z.to_nat (x - a)). split; [lia|].
  apply in_seq. lia.
Qed.

(* ------------------------------------------------------------------ *)
(** ** Machine-integer facts *)

Lemma u16_u32 (x : Z) : u16 (u32 x) = u16 x.
Proof.
  unfold u16, u32. apply Z.mod_mod_divide.
  exists 65536. reflexivity.
Qed.

Lemma u32_add_u32_r (a b : Z) : u32 (a + u32 b) = u32 (a + b).
Proof. unfold u32. apply Zplus_mod_idemp_r. Qed.

Lemma u32_add_u32_l (a b : Z) : u32 (u32 a + b) = u32 (a + b).
Proof. unfold u32. apply Zplus_mod_idemp_l. Qed.

Lemma u16_add_u16_l (a b : Z) : u16 (u16 a + b) = u16 (a + b).
Proof. unfold u16. apply Zplus_mod_idemp_l. Qed.

Lemma u16_small (x : Z) : 0 <= x < 65536 -> u16 x = x.
Proof. intros H. unfold u16. apply Z.mod_small. exact H. Qed.

Lemma u16_range (x : Z) : 0 <= u16 x < 65536.
Proof. unfold u16. apply Z.mod_pos_bound. lia. Qed.

(* ------------------------------------------------------------------ *)
(** ** The RAD50 codec *)

Lemma rad50Subscripts_range (w : Z) :
  0 <= w < 65536 ->
  let '(i1, i2, i3) := rad50Subscripts w in
  0 <= i1 <= 40 /\ (i1 < 40 <-> w < 64000) /\
  0 <= i2 < 40 /\ 0 <= i3 < 40 /\ i3 = w mod 40.
Proof.
  intros Hw. unfold rad50Subscripts.
  assert (E : (w mod 1600) mod 40 = w mod 40).
  { replace 1600 with (40 * 40) by reflexivity.
    rewrite Z.rem_mul_r by lia.
    rewrite Z.mul_comm, Z.mod_add by lia.
    apply Z.mod_mod. lia. }
  rewrite E. clear E.
  repeat split; Z.div_mod_to_equations; lia.
Qed.

(** Each character of the table is found at its own position. *)
Lemma rad50Index_table_check :
  forallb (fun c =>
    (0 <=? rad50Index c) && (rad50Index c <? 40)
    && match tableAt (rad50Index c) with
       | Some c' => Ascii.eqb c' c
       | None => false
       end) RAD50_TABLE = true.
Proof. vm_compute. reflexivity. Qed.

Lemma rad50Index_table (c : ascii) :
  In c RAD50_TABLE ->
  0 <= rad50Index c < 40 /\ tableAt (rad50Index c) = Some c.
Proof.
  intros Hin. pose proof rad50Index_table_check as T.
  rewrite forallb_forall in T. specialize (T c Hin).
  apply andb_prop in T as [T Ht]. apply andb_prop in T as [Hlo Hhi].
  apply Z.leb_le in Hlo. apply Z.ltb_lt in Hhi.
  destruct (tableAt (rad50Index c)) as [c'|]; [|discriminate].
  apply Ascii.eqb_eq in Ht. subst c'. split; [lia|reflexivity].
Qed.

(** Three subscripts packed into a word come back as they were. *)
Lemma rad50Subscripts_pack (i1 i2 i3 : Z) :
  0 <= i1 < 40 -> 0 <= i2 < 40 -> 0 <= i3 < 40 ->
  rad50Subscripts (u16 (i1 * 1600 + i2 * 40 + i3)) = (i1, i2, i3).
Proof.
  intros H1 H2 H3. rewrite u16_small by lia. unfold rad50Subscripts.
  assert (E1 : (i1 * 1600 + i2 * 40 + i3) / 1600 = i1)
    by (Z.div_mod_to_equations; lia).
  assert (E2 : (i1 * 1600 + i2 * 40 + i3) mod 1600 = i2 * 40 + i3)
    by (Z.div_mod_to_equations; lia).
  rewrite E1, E2.
  assert (E3 : (i2 * 40 + i3) / 40 = i2) by (Z.div_mod_to_equations; lia).
  assert (E4 : (i2 * 40 + i3) mod 40 = i3) by (Z.div_mod_to_equations; lia).
  rewrite E3, E4. reflexivity.
Qed.

Lemma pushNonSpace_dropSpaces (c1 c2 c3 : ascii) :
  pushNonSpace (pushNonSpace (pushNonSpace EmptyString c1) c2) c3
  = dropSpaces (str3 c1 c2 c3).
Proof.
  unfold pushNonSpace, str3. cbn [dropSpaces].
  destruct (Ascii.eqb c1 " "), (Ascii.eqb c2 " "), (Ascii.eqb c3 " ");
    reflexivity.
Qed.

(** C9 (as amended).  For three characters of the RAD50 alphabet, decoding
    the encoded word gives the string with its spaces removed; hence the
    string itself when none of the three is a space. *)
Theorem decodeRad50_encodeRad50 (c1 c2 c3 : ascii) :
  In c1 RAD50_TABLE -> In c2 RAD50_TABLE -> In c3 RAD50_TABLE ->
  decodeRad50 (encodeRad50 (str3 c1 c2 c3))
    = Some (dropSpaces (str3 c1 c2 c3))
  /\ (c1 <> " "%char -> c2 <> " "%char -> c3 <> " "%char ->
      decodeRad50 (encodeRad50 (str3 c1 c2 c3)) = Some (str3 c1 c2 c3)).
Proof.
  intros H1 H2 H3.
  destruct (rad50Index_table c1 H1) as [R1 T1].
  destruct (rad50Index_table c2 H2) as [R2 T2].
  destruct (rad50Index_table c3 H3) as [R3 T3].
  assert (E : decodeRad50 (encodeRad50 (str3 c1 c2 c3))
              = Some (dropSpaces (str3 c1 c2 c3))).
  { change (encodeRad50 (str3 c1 c2 c3))
      with (u16 (rad50Index c1 * 1600 + rad50Index c2 * 40 + rad50Index c3)).
    unfold decodeRad50. rewrite (rad50Subscripts_pack _ _ _ R1 R2 R3).
    rewrite T1, T2, T3, pushNonSpace_dropSpaces. reflexivity. }
  split; [exact E|].
  intros N1 N2 N3. rewrite E. unfold str3. cbn [dropSpaces].
  apply Ascii.eqb_neq in N1, N2, N3. rewrite N1, N2, N3. reflexivity.
Qed.

Lemma decodeRad50_encodeRad50_witness :
  decodeRad50 (encodeRad50 (str3 "A" "B" "9")) = Some "AB9".
Proof.
  apply (decodeRad50_encodeRad50 "A" "B" "9");
    try (vm_compute; tauto); discriminate.
Defined.

(** C9, as stated, fails on a string with a space that is not trailing:
    the decoder drops it. *)
Lemma decodeRad50_encodeRad50_counterexample :
  In "A"%char RAD50_TABLE /\ In " "%char RAD50_TABLE /\ In "B"%char RAD50_TABLE
  /\ decodeRad50 (encodeRad50 "A B") = Some "AB"
  /\ decodeRad50 (encodeRad50 "A B") <> Some "A B".
Proof.
  repeat split; try (vm_compute; tauto). vm_compute. discriminate.
Qed.

(** C10.  The first subscript reaches 40 on the words from 64000 up, one
    past the last element of the 40-entry table; such a word read from a
    directory entry takes [readDirectory] there. *)
Theorem decodeRad50_subscript_overrun :
  List.length RAD50_TABLE = 40%nat
  /\ rad50Subscripts 64000 = (40, 0, 0)
  /\ rad50Subscripts 65535 = (40, 38, 15)
  /\ tableAt 40 = None
  /\ decodeRad50 64000 = None
  /\ readDirectory oddNameVolume (totalBlocksOf oddNameVolume)
       = Undefined TableSubscript.
Proof. vm_compute. repeat split; reflexivity. Qed.

(* ------------------------------------------------------------------ *)
(** ** The date codec *)

Lemma encodeRt11Date_fields_table :
  forallb (fun y => forallb (fun m => forallb (fun d =>
    sameDate (dateFields (encodeRt11Date y m d)) (y, m, 1))
    (rangeZ 1 31)) (rangeZ 1 12)) (rangeZ 1972 128) = true.
Proof. vm_compute. reflexivity. Qed.

(** On every valid date the year and the month survive the round trip and
    the day comes back as 1. *)
Lemma encodeRt11Date_fields (y m d : Z) :
  1972 <= y <= 2099 -> 1 <= m <= 12 -> 1 <= d <= 31 ->
  dateFields (encodeRt11Date y m d) = (y, m, 1).
Proof.
  intros Hy Hm Hd.
  pose proof encodeRt11Date_fields_table as T.
  rewrite forallb_forall in T.
  specialize (T y (In_rangeZ 1972 128 y ltac:(lia))).
  rewrite forallb_forall in T.
  specialize (T m (In_rangeZ 1 12 m ltac:(lia))).
  rewrite forallb_forall in T.
  specialize (T d (In_rangeZ 1 31 d ltac:(lia))).
  destruct (dateFields (encodeRt11Date y m d)) as [[a b] c].
  simpl in T. apply andb_prop in T as [T Tc]. apply andb_prop in T as [Ta Tb].
  apply Z.eqb_eq in Ta, Tb, Tc. congruence.
Qed.

(** C7.  The day does not survive [encodeRt11Date]: 15 January 1999 decodes
    as 1 January 1999, while the system-date encoder keeps the day.  Year
    2100 and day 0 are refused. *)
Theorem encodeRt11Date_loses_day :
  dateFields (encodeRt11Date 1999 1 15) = (1999, 1, 1)
  /\ formatRt11Date (encodeRt11Date 1999 1 15) = "01-Jan-99"
  /\ dateFields (encodeRt11DateFromSystem 1999 1 15) = (1999, 1, 15)
  /\ formatRt11Date (encodeRt11DateFromSystem 1999 1 15) = "15-Jan-99"
  /\ encodeRt11Date 2100 1 1 = 0
  /\ encodeRt11Date 1999 1 0 = 0.
Proof. vm_compute. repeat split; reflexivity. Qed.

(* ------------------------------------------------------------------ *)
(** ** Words read from the image are 16-bit *)

Lemma wordAt_range (buf : list byte) (i : nat) : 0 <= wordAt buf i < 65536.
Proof. unfold wordAt. apply u16_range. Qed.

Lemma nth_all_range (l : list Z) (n : nat) :
  (forall x, In x l -> 0 <= x < 65536) -> 0 <= nth n l 0 < 65536.
Proof.
  intros H. destruct (nth_in_or_default n l 0) as [Hin|Hd].
  - apply H. exact Hin.
  - rewrite Hd. lia.
Qed.

Lemma getw_blockWords_range (b0 b1 : list byte) (i : Z) :
  0 <= getw (blockWords b0 ++ blockWords b1) i < 65536.
Proof.
  unfold getw. apply nth_all_range. intros x Hin.
  apply in_app_or in Hin. unfold blockWords in Hin.
  destruct Hin as [Hin|Hin]; apply in_map_iff in Hin;
    destruct Hin as [k [<- _]]; apply wordAt_range.
Qed.

Lemma readSegmentWords_range (img : image) (block : Z) (words : list Z) :
  readSegmentWords img block = Ok words ->
  forall i, 0 <= getw words i < 65536.
Proof.
  unfold readSegmentWords, obind. intros H i.
  destruct (readBlock img block) as [b0| | |]; try discriminate.
  destruct (readBlock img (u32 (block + 1))) as [b1| | |]; try discriminate.
  assert (E : words = blockWords b0 ++ blockWords b1) by congruence.
  rewrite E. apply getw_blockWords_range.
Qed.



Lemma entryWordsOf_range (words : list Z) :
  (forall i, 0 <= getw words i < 65536) ->
  7 <= entryWordsOf (parseSegmentHeader words) < 65536.
Proof.
  intros R. unfold entryWordsOf, parseSegmentHeader, u16.
  cbn [extraBytes]. specialize (R 3).
  Z.div_mod_to_equations. lia.
Qed.

(* ------------------------------------------------------------------ *)
(** ** The directory reader always returns *)


Lemma unvisited_markSegment (v : list bool) (i : nat) :
  (i < List.length v)%nat -> nth i v false = false ->
  S (unvisited (firstn i v ++ true :: skipn (S i) v)) = unvisited v.
Proof.
  revert i. induction v as [|b v IH]; intros i Hi Hn; simpl in Hi.
  - lia.
  - destruct i as [|i].
    + simpl in Hn. subst b. reflexivity.
    + simpl in Hn. specialize (IH i ltac:(lia) Hn).
      rewrite firstn_cons, skipn_cons. unfold unvisited in *.
      rewrite <- app_comm_cons. cbn [filter].
      destruct b; cbn [negb List.length]; lia.
Qed.

Lemma markSegment_length (v : list bool) (i : Z) :
  (Z.to_nat i < List.length v)%nat ->
  List.length (markSegment v i) = List.length v.
Proof.
  intros H. unfold markSegment.
  rewrite length_app, firstn_length_le by lia. cbn [List.length].
  rewrite length_skipn. lia.
Qed.

Lemma unvisited_repeat (n : nat) : unvisited (repeat false n) = n.
Proof.
  unfold unvisited. induction n as [|n IH]; simpl; [reflexivity|].
  rewrite IH. reflexivity.
Qed.



(** The circular chain is read once round and reported. *)
Example readDirectory_circularVolume :
  obind (readDirectory circularVolume (totalBlocksOf circularVolume))
        (fun r => Ok (map summary (fst r), snd r))
  = Ok ([("A", 1024, 2, 10); ("", 512, 3, 12)], Some (DirectoryLoop 1)).
Proof. vm_compute. reflexivity. Qed.



(* ------------------------------------------------------------------ *)
(** ** Start blocks *)

Lemma sumLengths_app (l1 l2 : list Rt11Entry) :
  sumLengths (l1 ++ l2) = sumLengths l1 + sumLengths l2.
Proof. induction l1 as [|e l1 IH]; simpl; lia. Qed.

Lemma startsFrom_nil (dsb : Z) : startsFrom dsb [].
Proof. intros [|i] e H; discriminate. Qed.

Lemma startsFrom_snoc (dsb : Z) (l : list Rt11Entry) (e : Rt11Entry) :
  startsFrom dsb l ->
  startBlock e = u16 (dsb + sumLengths l) ->
  0 <= lengthBlocks e < 65536 ->
  startsFrom dsb (l ++ [e]).
Proof.
  intros Hl He Hlen i x Hx.
  destruct (Nat.lt_ge_cases i (List.length l)) as [Hi|Hi].
  - rewrite nth_error_app1 in Hx by exact Hi.
    rewrite firstn_app.
    replace (i - List.length l)%nat with 0%nat by lia.
    cbn [firstn]. rewrite app_nil_r. apply Hl. exact Hx.
  - rewrite nth_error_app2 in Hx by exact Hi.
    destruct (i - List.length l)%nat as [|k] eqn:Hk.
    + cbn in Hx. injection Hx as <-.
      rewrite firstn_app, Hk. cbn [firstn]. rewrite app_nil_r.
      rewrite firstn_all2 by lia. split; assumption.
    + cbn in Hx. destruct k; discriminate.
Qed.

Lemma sumLengths_nonneg (dsb : Z) (l : list Rt11Entry) :
  startsFrom dsb l -> 0 <= sumLengths l.
Proof.
  induction l as [|e l IH] using rev_ind; intros H; [simpl; lia|].
  rewrite sumLengths_app. simpl.
  assert (Hl : startsFrom dsb l).
  { intros i x Hx. 
    assert (Hi : (i < List.length l)%nat) by (apply nth_error_Some; congruence).
    specialize (H i x). rewrite nth_error_app1 in H by exact Hi.
    rewrite firstn_app in H.
    replace (i - List.length l)%nat with 0%nat in H by lia.
    cbn [firstn] in H. rewrite app_nil_r in H. apply H. exact Hx. }
  specialize (IH Hl).
  specialize (H (List.length l) e).
  rewrite nth_error_app2, Nat.sub_diag in H by lia.
  specialize (H eq_refl). lia.
Qed.

Lemma parseEntries_starts (dsb : Z) (words : list Z) (ew seg : Z) :
  (forall i, 0 <= getw words i < 65536) ->
  forall fuel idx off acc acc' off',
    parseEntries dsb fuel words ew seg idx off acc = Ok (acc', off') ->
    off = u32 (sumLengths acc) -> startsFrom dsb acc ->
    off' = u32 (sumLengths acc') /\ startsFrom dsb acc'.
Proof.
  intros R. induction fuel as [|fuel IH];
    intros idx off acc acc' off' H Hoff Hacc; [discriminate|].
  simpl in H.
  destruct (idx + ew <=? 512); simpl in H;
    [|injection H as <- <-; split; assumption].
  destruct (Z.land (getw words (idx + 0)) E_EOS =? 0); simpl in H;
    [|injection H as <- <-; split; assumption].
  destruct (getw words (idx + 0) =? 0);
    [injection H as <- <-; split; assumption|].
  destruct (decodeFileName _ _ _) as [nm|]; [|discriminate].
  apply IH in H; [exact H| |].
  - rewrite sumLengths_app. cbn [sumLengths lengthBlocks].
    rewrite Hoff, Z.add_0_r. apply u32_add_u32_l.
  - apply startsFrom_snoc; [exact Hacc| |apply R].
    cbn [startBlock]. rewrite Hoff, u32_add_u32_r. apply u16_u32.
Qed.

Lemma walkSegments_starts (img : image) (tb fdb ts dsb : Z) :
  forall fuel cur visited off acc entries w,
    walkSegments img tb fdb ts dsb fuel cur visited off acc = Ok (entries, w) ->
    off = u32 (sumLengths acc) -> startsFrom dsb acc ->
    startsFrom dsb entries.
Proof.
  induction fuel as [|fuel IH];
    intros cur visited off acc entries w H Hoff Hacc; [discriminate|].
  revert H. cbn [walkSegments].
  destruct (cur =? 0); [intros H; injection H as <- <-; exact Hacc|].
  destruct ((cur <? 1) || (cur >? ts));
    [intros H; injection H as <- <-; exact Hacc|].
  destruct (nth (Z.to_nat cur) visited false);
    [intros H; injection H as <- <-; exact Hacc|].
  destruct (u32 (segmentBlock fdb cur + 1) >=? tb);
    [intros H; injection H as <- <-; exact Hacc|].
  unfold obind.
  destruct (readSegmentWords img (segmentBlock fdb cur)) as [words| | |] eqn:Hread;
    try (intros H; discriminate H).
  destruct (parseEntries dsb wordsPerSegment words _ cur 5 off acc) as [[acc' off']| | |]
    eqn:Hparse; try (intros H; discriminate H).
  cbn [fst snd]. intros H.
  pose proof (parseEntries_starts dsb words _ cur
                (readSegmentWords_range _ _ _ Hread)
                _ _ _ _ _ _ Hparse Hoff Hacc) as [Hoff' Hacc'].
  exact (IH _ _ _ _ _ _ H Hoff' Hacc').
Qed.

Lemma firstn_S_nth_error {A : Type} (l : list A) (i : nat) (x : A) :
  nth_error l i = Some x -> firstn (S i) l = firstn i l ++ [x].
Proof.
  revert i. induction l as [|a l IH]; intros [|i] H; try discriminate.
  - injection H as ->. reflexivity.
  - cbn [nth_error] in H. rewrite firstn_cons, (IH i H). reflexivity.
Qed.

Lemma sumLengths_firstn_nonneg (dsb : Z) (l : list Rt11Entry) (i : nat) :
  startsFrom dsb l -> 0 <= sumLengths (firstn i l).
Proof.
  intros H. induction i as [|i IH]; [simpl; lia|].
  destruct (nth_error l i) as [e|] eqn:He.
  - rewrite (firstn_S_nth_error l i e He), sumLengths_app.
    cbn [sumLengths]. destruct (H i e He) as [_ Hlen]. lia.
  - apply nth_error_None in He.
    rewrite firstn_all2 in * by lia. exact IH.
Qed.

Lemma readDirectory_startsFrom (img : image) (tb : Z)
  (entries : list Rt11Entry) (w : option warning) :
  readDirectory img tb = Ok (entries, w) ->
  startsFrom (firstDataStartBlock img) entries
  /\ 0 <= firstDataStartBlock img < 65536.
Proof.
  unfold readDirectory, firstDataStartBlock, obind.
  destruct (getFirstDirectoryBlock img) as [fdb| | |];
    try (intros H; discriminate H).
  destruct (fdb >=? tb); [intros H; discriminate H|].
  destruct (readSegmentWords img fdb) as [words| | |] eqn:Hread;
    try (intros H; discriminate H).
  intros H. split.
  - apply walkSegments_starts in H; [exact H|reflexivity|apply startsFrom_nil].
  - apply (readSegmentWords_range _ _ _ Hread 4).
Qed.

(** C2 (as amended).  Every entry [readDirectory] returns starts at the
    first segment's data start block plus the lengths of all entries before
    it in the returned chain order, reduced modulo 2^16 (the field is 16
    bits wide); that is the plain sum whenever the sum fits 16 bits, and
    each entry starts where its predecessor ends. *)
Theorem readDirectory_startBlock (img : image) (totalBlocks : Z)
  (entries : list Rt11Entry) (w : option warning) :
  readDirectory img totalBlocks = Ok (entries, w) ->
  forall i e, nth_error entries i = Some e ->
    let total := firstDataStartBlock img + sumLengths (firstn i entries) in
    startBlock e = u16 total
    /\ (total < 65536 -> startBlock e = total)
    /\ (forall e', nth_error entries (S i) = Some e' ->
          startBlock e' = u16 (startBlock e + lengthBlocks e)).
Proof.
  intros H i e He.
  destruct (readDirectory_startsFrom _ _ _ _ H) as [Hs Hd].
  destruct (Hs i e He) as [Hstart Hlen].
  pose proof (sumLengths_firstn_nonneg _ _ i Hs) as Hnn.
  cbv zeta. repeat split.
  - exact Hstart.
  - intros Hfit. rewrite Hstart. apply u16_small. lia.
  - intros e' He'. destruct (Hs (S i) e' He') as [Hstart' _].
    rewrite Hstart', (firstn_S_nth_error _ _ _ He), sumLengths_app.
    cbn [sumLengths]. rewrite Hstart, u16_add_u16_l. f_equal. lia.
Qed.

Lemma readDirectory_startBlock_witness :
  readDirectory gapThenFile (totalBlocksOf gapThenFile)
    = Ok ([gapEntry; fileEntryA], None)
  /\ nth_error [gapEntry; fileEntryA] 1 = Some fileEntryA
  /\ startBlock fileEntryA
     = u16 (firstDataStartBlock gapThenFile
            + sumLengths (firstn 1 [gapEntry; fileEntryA])).
Proof.
  assert (H : readDirectory gapThenFile (totalBlocksOf gapThenFile)
              = Ok ([gapEntry; fileEntryA], None)) by (vm_compute; reflexivity).
  split; [exact H|]. split; [reflexivity|].
  exact (proj1 (readDirectory_startBlock _ _ _ _ H 1%nat fileEntryA eq_refl)).
Defined.

(** C2, as stated, fails once the lengths add up past 65535: the third
    entry of [wideVolume] follows 8 + 40000 + 40000 = 80008 blocks and is
    given start block 80008 - 65536 = 14472. *)
Lemma readDirectory_startBlock_counterexample :
  exists entries w e,
    readDirectory wideVolume (totalBlocksOf wideVolume) = Ok (entries, w)
    /\ nth_error entries 2 = Some e
    /\ firstDataStartBlock wideVolume + sumLengths (firstn 2 entries) = 80008
    /\ startBlock e = 14472.
Proof.
  eexists. eexists. eexists.
  split; [vm_compute; reflexivity|].
  split; [vm_compute; reflexivity|].
  split; vm_compute; reflexivity.
Qed.

(* ------------------------------------------------------------------ *)
(** ** The split point *)

Lemma movablePositionsFrom_bounds (words : list Z) (entryIdx : list Z) :
  forall i p, In p (movablePositionsFrom words i entryIdx) ->
    i <= p < i + Z.of_nat (List.length entryIdx)
    /\ isFileEntry words (nth (Z.to_nat (p - i)) entryIdx 0) = true.
Proof.
  induction entryIdx as [|x rest IH]; intros i p Hin; [destruct Hin|].
  cbn [movablePositionsFrom] in Hin. cbn [List.length].
  fold (isFileEntry words x) in Hin.
  destruct (isFileEntry words x) eqn:Hx.
  - destruct Hin as [<-|Hin].
    + rewrite Z.sub_diag. cbn [Z.to_nat nth]. split; [lia|exact Hx].
    + destruct (IH _ _ Hin) as [Hb Hs]. split; [lia|].
      replace (Z.to_nat (p - i)) with (S (Z.to_nat (p - (i + 1)))) by lia.
      exact Hs.
  - destruct (IH _ _ Hin) as [Hb Hs]. split; [lia|].
    replace (Z.to_nat (p - i)) with (S (Z.to_nat (p - (i + 1)))) by lia.
    exact Hs.
Qed.

Lemma movablePositionsFrom_head (words : list Z) (entryIdx : list Z) :
  forall i p rest, movablePositionsFrom words i entryIdx = p :: rest ->
    forall q, In q rest -> p < q.
Proof.
  induction entryIdx as [|x tl IH]; intros i p rest H q Hq; [discriminate|].
  cbn [movablePositionsFrom] in H.
  destruct (negb _).
  - injection H as <- <-.
    apply movablePositionsFrom_bounds in Hq. lia.
  - exact (IH _ _ _ H q Hq).
Qed.

Lemma chooseMidPos_candidate (movable : list Z) (n : Z) :
  chooseMidPos movable n
  = (if splitCandidate movable n >=? n - 1 then n / 2
     else splitCandidate movable n).
Proof. unfold chooseMidPos, splitCandidate. destruct movable; reflexivity. Qed.

Lemma splitCandidate_In (movable : list Z) (n : Z) :
  movable <> [] -> In (splitCandidate movable n) movable.
Proof.
  intros Hm. destruct movable as [|p rest]; [contradiction|].
  unfold splitCandidate. apply nth_In.
  assert (Hz : 0 <= Z.of_nat (List.length (p :: rest)) / 2
               < Z.of_nat (List.length (p :: rest))).
  { cbn [List.length]. Z.div_mod_to_equations. lia. }
  lia.
Qed.

Lemma splitCandidate_zero (words entryIdx : list Z) :
  let n := Z.of_nat (List.length entryIdx) in
  let movable := movablePositionsFrom words 0 entryIdx in
  1 <= n ->
  (splitCandidate movable n = 0 <-> n = 1 \/ movable = [0]).
Proof.
  intros n movable Hn.
  assert (Hb : forall p, In p movable -> 0 <= p < n).
  { intros p Hp. apply movablePositionsFrom_bounds in Hp. fold n in Hp. lia. }
  pose proof (movablePositionsFrom_head words entryIdx 0) as Hlt.
  fold movable in Hlt. clearbody movable n.
  destruct movable as [|p [|q rest]].
  - unfold splitCandidate. split.
    + intros H. left. Z.div_mod_to_equations. lia.
    + intros [H|H]; [rewrite H; reflexivity|discriminate].
  - cbn. split; [intros ->; right; reflexivity|].
    intros [H|H]; [|congruence].
    specialize (Hb p ltac:(left; reflexivity)). lia.
  - specialize (Hlt p (q :: rest) eq_refl).
    split.
    + intros H. exfalso. unfold splitCandidate in H.
      remember (Z.to_nat (Z.of_nat (List.length (p :: q :: rest)) / 2)) as k
        eqn:Ek.
      assert (Hk : (1 <= k < List.length (p :: q :: rest))%nat).
      { assert (Hz : 1 <= Z.of_nat (List.length (p :: q :: rest)) / 2
                     < Z.of_nat (List.length (p :: q :: rest))).
        { cbn [List.length]. Z.div_mod_to_equations. lia. }
        lia. }
      destruct k as [|k]; [lia|].
      change (nth (S k) (p :: q :: rest) 0) with (nth k (q :: rest) 0) in H.
      assert (Hin : In (nth k (q :: rest) 0) (q :: rest)).
      { apply nth_In. cbn [List.length] in *. lia. }
      apply Hlt in Hin.
      specialize (Hb p ltac:(left; reflexivity)). lia.
    + intros [H|H]; [|discriminate]. exfalso.
      pose proof (Hb q ltac:(right; left; reflexivity)) as Hq.
      pose proof (Hb p ltac:(left; reflexivity)) as Hp.
      specialize (Hlt q ltac:(left; reflexivity)). lia.
Qed.

(** The split position as a number.  With [n >= 1] entries of which
    [movable] are the positions of the Permanent or Tentative ones: the
    candidate is the element of index [m / 2] of [movable] (a Permanent or
    Tentative entry), or [n / 2] when there is none; a candidate at the last
    entry is replaced by [n / 2]; the position is that of an entry; it is
    the first entry exactly when there is one entry only or the first entry
    is the only Permanent or Tentative one. *)
Lemma chooseMidPos_position (words : list Z) (entryIdx : list Z) :
  entryIdx <> [] ->
  let n := Z.of_nat (List.length entryIdx) in
  let movable := movablePositionsFrom words 0 entryIdx in
  let candidate := splitCandidate movable n in
  let midPos := chooseMidPos movable n in
  (movable <> [] ->
     In candidate movable
     /\ isFileEntry words (nth (Z.to_nat candidate) entryIdx 0) = true)
  /\ (movable = [] -> candidate = n / 2)
  /\ 0 <= candidate < n
  /\ midPos = (if candidate >=? n - 1 then n / 2 else candidate)
  /\ 0 <= midPos < n
  /\ 1 <= n - midPos
  /\ (1 <= midPos <-> 2 <= n /\ movable <> [0]).
Proof.
  intros Hne n movable candidate midPos.
  assert (Hn : 1 <= n).
  { subst n. destruct entryIdx; [contradiction|cbn [List.length]; lia]. }
  pose proof (splitCandidate_zero words entryIdx Hn) as Hzero.
  fold n movable candidate in Hzero.
  pose proof (chooseMidPos_candidate movable n) as Hmid.
  fold candidate midPos in Hmid.
  assert (Hcand : movable <> [] ->
            In candidate movable
            /\ isFileEntry words (nth (Z.to_nat candidate) entryIdx 0) = true
            /\ 0 <= candidate < n).
  { intros Hm. pose proof (splitCandidate_In movable n Hm) as Hin.
    fold candidate in Hin. split; [exact Hin|].
    apply movablePositionsFrom_bounds in Hin.
    rewrite Z.sub_0_r in Hin. fold n in Hin. destruct Hin as [Hb Hs].
    split; [exact Hs|lia]. }
  assert (Hnil : movable = [] -> candidate = n / 2).
  { intros E. subst candidate. rewrite E. reflexivity. }
  assert (Hrange : 0 <= candidate < n).
  { destruct movable as [|p rest] eqn:Emov.
    - rewrite Hnil by reflexivity. Z.div_mod_to_equations. lia.
    - apply Hcand. discriminate. }
  clearbody midPos candidate movable n.
  split; [intros Hm; split; apply (Hcand Hm)|].
  split; [exact Hnil|]. split; [exact Hrange|]. split; [exact Hmid|].
  subst midPos.
  destruct (candidate >=? n - 1) eqn:E.
  - rewrite Z.geb_leb in E. apply Z.leb_le in E.
    assert (Hhalf : 0 <= n / 2 < n /\ (1 <= n / 2 <-> 2 <= n))
      by (Z.div_mod_to_equations; lia).
    split; [tauto|]. split; [lia|]. split.
    + intros H1. split; [tauto|]. intros Hm.
      assert (candidate = 0) by tauto. lia.
    + intros [H2 _]. tauto.
  - rewrite Z.geb_leb in E. apply Z.leb_gt in E.
    split; [lia|]. split; [lia|]. split.
    + intros H1. split; [lia|]. intros Hm.
      assert (candidate = 0) by tauto. lia.
    + intros [H2 Hm].
      assert (candidate <> 0) by (intros Hc; apply Hzero in Hc; destruct Hc; [lia|contradiction]).
      lia.
Qed.

(** C8, as stated, fails twice.  With ten entries of which only the last is
    a file, the split point is reset to the midpoint 5, not moved one to the
    left (8); and with a file followed by two empty areas the split point is
    the first entry, so the old segment keeps no entry at all. *)
Lemma chooseMidPos_split_point_counterexample :
  (collectEntryIdx wordsPerSegment lastOnlyWords 7 5 [] = Ok tenEntryIdx
   /\ movablePositionsFrom lastOnlyWords 0 tenEntryIdx = [9]
   /\ chooseMidPos [9] 10 = 5
   /\ 5 <> 9 - 1)
  /\ (chooseMidPos (movablePositionsFrom fileGapGapWords 0 [5; 12; 19]) 3 = 0
      /\ fst (afterSplit fileGapGap 1) = Ok tt
      /\ segmentEntryIdx (bytes (snd (afterSplit fileGapGap 1))) 6 = Ok []
      /\ segmentEntryIdx (bytes (snd (afterSplit fileGapGap 1))) 8
         = Ok [5; 12; 19]).
Proof.
  split.
  - repeat apply conj; try (vm_compute; reflexivity). lia.
  - repeat apply conj; vm_compute; reflexivity.
Qed.

(** C3.  Splitting segment 1 when the new segment number exceeds the
    recorded highest segment in use: the old and the new segment are
    written, then segment 1 is written again from the copy read before the
    split, with only word 2 changed.  Segment 1 is left with its original
    link and all of its entries; the new segment is not linked.  With the
    highest segment in use already 2, the same split leaves [A] in the old
    segment, linked to the new segment holding [B] and the empty area. *)
Theorem splitDirectorySegment_rewrites_first_segment :
  (fst (afterSplit (twoFilesGap 1) 1) = Ok tt
   /\ writes (snd (afterSplit (twoFilesGap 1) 1)) = [6; 7; 8; 9; 6; 7]
   /\ readSegmentWords (bytes (snd (afterSplit (twoFilesGap 1) 1))) 6
      = obind (readSegmentWords (twoFilesGap 1) 6) (fun w => Ok (setw w 2 2))
   /\ segmentEntryIdx (bytes (snd (afterSplit (twoFilesGap 1) 1))) 6
      = Ok [5; 12; 19]
   /\ segmentLink (bytes (snd (afterSplit (twoFilesGap 1) 1))) 6 = Ok 0
   /\ segmentHighest (bytes (snd (afterSplit (twoFilesGap 1) 1))) 6 = Ok 2
   /\ segmentEntryIdx (bytes (snd (afterSplit (twoFilesGap 1) 1))) 8
      = Ok [5; 12])
  /\ (fst (afterSplit (twoFilesGap 2) 1) = Ok tt
      /\ writes (snd (afterSplit (twoFilesGap 2) 1)) = [6; 7; 8; 9]
      /\ segmentEntryIdx (bytes (snd (afterSplit (twoFilesGap 2) 1))) 6
         = Ok [5]
      /\ segmentLink (bytes (snd (afterSplit (twoFilesGap 2) 1))) 6 = Ok 2
      /\ segmentEntryIdx (bytes (snd (afterSplit (twoFilesGap 2) 1))) 8
         = Ok [5; 12]
      /\ segmentLink (bytes (snd (afterSplit (twoFilesGap 2) 1))) 8 = Ok 0
      /\ listingOf (bytes (snd (afterSplit (twoFilesGap 2) 1)))
         = listingOf (twoFilesGap 2)).
Proof. repeat apply conj; vm_compute; reflexivity. Qed.

(* ------------------------------------------------------------------ *)
(** ** Allocation *)

(** The scan is first-fit: it returns the first entry that passes the test,
    and nothing exactly when no entry passes. *)
Lemma findEmptyEntry_first_fit (entries : list Rt11Entry) (blocksNeeded : Z) :
  match findEmptyEntry entries blocksNeeded with
  | Some e =>
      exists before after,
        entries = before ++ e :: after
        /\ fitsRequest blocksNeeded e = true
        /\ forall x, In x before -> fitsRequest blocksNeeded x = false
  | None => forall x, In x entries -> fitsRequest blocksNeeded x = false
  end.
Proof.
  induction entries as [|e rest IH]; cbn [findEmptyEntry].
  - intros x [].
  - fold (fitsRequest blocksNeeded e).
    destruct (fitsRequest blocksNeeded e) eqn:He.
    + exists [], rest. repeat apply conj; [reflexivity|exact He|intros x []].
    + destruct (findEmptyEntry rest blocksNeeded) as [f|].
      * destruct IH as (before & after & -> & Hf & Hb).
        exists (e :: before), after. repeat apply conj; [reflexivity|exact Hf|].
        intros x [<-|Hx]; [exact He|exact (Hb x Hx)].
      * intros x [<-|Hx]; [exact He|exact (IH x Hx)].
Qed.

(** C1.  A remainder entry placed after a chosen area that is not the last
    entry of its segment: the entries behind it are moved up one slot, and
    then the end-of-segment marker is stored at the first of the moved
    slots.  File [A] is gone from the listing.  With an exact fit, or with
    the chosen area last in its segment, every other entry is kept. *)
Theorem copySingleToRt11_remainder_drops_entries :
  (listingOf gapThenFile = Ok [("", E_MPTY, 3, 8); ("A", E_PERM, 2, 11)]
   /\ fst (afterCopy gapThenFile tinyFile) = Ok (Copied "F")
   /\ listingOf (bytes (snd (afterCopy gapThenFile tinyFile)))
      = Ok [("F", E_PERM, 1, 8); ("", E_MPTY, 2, 9)])
  /\ (fst (afterCopy gapThenFile threeBlockFile) = Ok (Copied "G")
      /\ listingOf (bytes (snd (afterCopy gapThenFile threeBlockFile)))
         = Ok [("G", E_PERM, 3, 8); ("A", E_PERM, 2, 11)])
  /\ (listingOf fileThenGap = Ok [("A", E_PERM, 2, 8); ("", E_MPTY, 3, 10)]
      /\ fst (afterCopy fileThenGap tinyFile) = Ok (Copied "F")
      /\ listingOf (bytes (snd (afterCopy fileThenGap tinyFile)))
         = Ok [("A", E_PERM, 2, 8); ("F", E_PERM, 1, 10); ("", E_MPTY, 2, 11)])
  /\ fst (afterCopy gapThenFile fourBlockFile) = Throw NoEmptyArea.
Proof. repeat apply conj; vm_compute; reflexivity. Qed.

(* ------------------------------------------------------------------ *)
(** ** The order of block writes *)

(** The scrutinee that blocks the reduction of [t]. *)
Ltac stuckOn t :=
  match t with
  | match ?x with _ => _ end => stuckOn x
  | match ?x with _ => _ end => x
  | ?f _ => stuckOn f
  end.

(** One step through a computation [c = r -> P]: case analysis on the
    scrutinee that blocks [c]. *)
Ltac runStep :=
  lazymatch goal with
  | |- ?c = _ -> _ =>
    let y := stuckOn c in
    destruct y eqn:?; cbv beta iota
  end.

(** A computation that has stopped with a result other than the expected
    one. *)
Ltac runStop :=
  lazymatch goal with
  | |- (?o, _) = (?o', _) -> _ =>
    let H := fresh in intros H; discriminate H
  end.

Lemma max_neq_iff (a b : Z) : negb (Z.max a b =? a) = (a <? b).
Proof.
  destruct (Z.ltb_spec a b) as [H|H].
  - rewrite Z.max_r by lia. apply negb_true_iff, Z.eqb_neq. lia.
  - rewrite Z.max_l by lia. rewrite Z.eqb_refl. reflexivity.
Qed.

(** A successful split writes the old segment, then the new segment, then
    segment 1 when the highest segment in use rises, and nothing else. *)
Lemma splitDirectorySegment_writes (seg : Z) (d d' : disk) :
  splitDirectorySegment seg d = (Ok tt, d') ->
  exists firstDirBlock seg1Words used,
    getFirstDirectoryBlock (bytes d) = Ok firstDirBlock
    /\ readSegmentWords (bytes d) firstDirBlock = Ok seg1Words
    /\ markChain (Z.to_nat (totalSegments (parseSegmentHeader seg1Words)) + 2)
         (bytes d) firstDirBlock
         (totalSegments (parseSegmentHeader seg1Words)) 1
         (repeat false
            (Z.to_nat (totalSegments (parseSegmentHeader seg1Words) + 1)))
       = Ok used
    /\ writes d'
       = writes d
         ++ splitWrites firstDirBlock seg
              (firstUnused used 1
                 (Z.to_nat (totalSegments (parseSegmentHeader seg1Words))))
              (highestInUse (parseSegmentHeader seg1Words)).
Proof.
  unfold splitDirectorySegment.
  cbv beta iota zeta delta [bindM readM throwM retM writeBlock].
  repeat (first [runStop | runStep]).
  all: intros H; injection H as <-; cbn [writes].
  all: match goal with
       | Hf : getFirstDirectoryBlock _ = Ok ?f,
         Hs : readSegmentWords _ ?f = Ok ?s,
         Hm : markChain _ _ _ _ _ _ = Ok ?u |- _ =>
         exists f, s, u;
         split; [reflexivity|]; split; [exact Hs|]; split; [exact Hm|]
       end.
  all: unfold splitWrites; rewrite <- !app_assoc; cbn [app];
    cbv beta iota delta [parseSegmentHeader totalSegments highestInUse] in *;
    rewrite <- max_neq_iff;
    match goal with
    | E : negb (Z.max _ _ =? _) = _ |- _ => rewrite E
    end; reflexivity.
Qed.

Lemma readBlock_throws (img : image) (block : Z) (e : error) :
  readBlock img block = Throw e -> isSplitPrecondition e = false.
Proof.
  unfold readBlock. destruct (_ <=? _); [discriminate|].
  intros H. injection H as <-. reflexivity.
Qed.

(** A split that fails one of its precondition checks has written nothing. *)
Lemma splitDirectorySegment_precondition (seg : Z) (d d' : disk) (e : error) :
  splitDirectorySegment seg d = (Throw e, d') ->
  isSplitPrecondition e = true ->
  d' = d.
Proof.
  unfold splitDirectorySegment.
  cbv beta iota zeta delta [bindM readM throwM retM writeBlock].
  repeat (first [runStop | runStep]).
  all: intros H; injection H as <- <-; try reflexivity.
  all: intros Hp; exfalso;
    try (cbn in Hp; discriminate Hp);
    match goal with
    | E : readBlock _ _ = Throw _ |- _ =>
      rewrite (readBlock_throws _ _ _ E) in Hp; discriminate Hp
    end.
Qed.

(** Whatever its outcome, a split only appends to the write log. *)
Lemma splitDirectorySegment_extends (seg : Z) (d d' : disk) (r : outcome unit) :
  splitDirectorySegment seg d = (r, d') ->
  exists l, writes d' = writes d ++ l.
Proof.
  unfold splitDirectorySegment.
  cbv beta iota zeta delta [bindM readM throwM retM writeBlock].
  repeat runStep.
  all: intros H; injection H as <- <-; cbn [writes];
    rewrite <- ?app_assoc; eexists; try reflexivity;
    symmetry; apply app_nil_r.
Qed.

Lemma rangeZ_S (a : Z) (n : nat) :
  rangeZ a (S n) = a :: rangeZ (a + 1) n.
Proof.
  unfold rangeZ. cbn [seq map]. rewrite Z.add_0_r. f_equal.
  rewrite <- seq_shift, map_map. apply map_ext. intros k. lia.
Qed.

(** The data loop writes blocks [start + i], [start + i + 1], ... in that
    order, or stops at a failed write having written some of them. *)
Lemma writeFileData_writes (data : list byte) (start : Z) :
  forall n i offset d d' r,
    writeFileData n data start i offset d = (r, d') ->
    (exists l, writes d' = writes d ++ l)
    /\ (r = Ok tt ->
        writes d' = writes d ++ map (fun k => u32 (start + k)) (rangeZ i n)).
Proof.
  induction n as [|n IH]; intros i offset d d' r.
  - cbn. intros H. injection H as <- <-. rewrite app_nil_r.
    split; [exists []; symmetry; apply app_nil_r|reflexivity].
  - cbn [writeFileData].
    cbv beta iota zeta delta [bindM writeBlock].
    repeat runStep.
    + intros H. injection H as <- <-.
      split; [exists []; symmetry; apply app_nil_r|discriminate].
    + intros H. apply IH in H. cbn [writes] in H.
      destruct H as [[l Hl] Hok]. split.
      * exists ([u32 (start + i)] ++ l). rewrite Hl, app_assoc. reflexivity.
      * intros Hr. rewrite (Hok Hr), rangeZ_S, <- app_assoc. reflexivity.
Qed.

Lemma blocksNeededFor_pos (data : list byte) : 1 <= blocksNeededFor data.
Proof.
  unfold blocksNeededFor, u32.
  destruct (_ =? 0) eqn:E; [lia|].
  apply Z.eqb_neq in E.
  pose proof (Z.mod_pos_bound
                ((Z.of_nat (List.length data) + BLOCK_SIZE - 1) / BLOCK_SIZE)
                4294967296 ltac:(lia)).
  lia.
Qed.

(* ------------------------------------------------------------------ *)
(** ** Which failures can come from where *)

Lemma readSegmentWords_throws (img : image) (block : Z) (e : error) :
  readSegmentWords img block = Throw e -> isSplitPrecondition e = false.
Proof.
  unfold readSegmentWords, obind.
  destruct (readBlock img block) eqn:E0; try discriminate.
  - destruct (readBlock img (u32 (block + 1))) eqn:E1; try discriminate.
    intros H. injection H as <-. exact (readBlock_throws _ _ _ E1).
  - intros H. injection H as <-. exact (readBlock_throws _ _ _ E0).
Qed.

Lemma getFirstDirectoryBlock_throws (img : image) (e : error) :
  getFirstDirectoryBlock img = Throw e -> isSplitPrecondition e = false.
Proof.
  unfold getFirstDirectoryBlock, obind.
  destruct (readBlock img 1) eqn:E0; try discriminate.
  - destruct (_ =? 0); discriminate.
  - intros H. injection H as <-. exact (readBlock_throws _ _ _ E0).
Qed.

Lemma parseEntries_throws (dsb : Z) (words : list Z) (ew seg : Z) :
  forall fuel idx off acc e,
    parseEntries dsb fuel words ew seg idx off acc <> Throw e.
Proof.
  induction fuel as [|fuel IH]; intros idx off acc e; [discriminate|].
  simpl.
  destruct (idx + ew <=? 512); simpl; [|discriminate].
  destruct (Z.land (getw words (idx + 0)) E_EOS =? 0); simpl; [|discriminate].
  destruct (getw words (idx + 0) =? 0); [discriminate|].
  destruct (decodeFileName _ _ _); [apply IH|discriminate].
Qed.

Lemma walkSegments_throws (img : image) (tb fdb ts dsb : Z) :
  forall fuel cur visited off acc e,
    walkSegments img tb fdb ts dsb fuel cur visited off acc = Throw e ->
    isSplitPrecondition e = false.
Proof.
  induction fuel as [|fuel IH]; intros cur visited off acc e; [discriminate|].
  cbn [walkSegments].
  destruct (cur =? 0); [discriminate|].
  destruct ((cur <? 1) || (cur >? ts)); [discriminate|].
  destruct (nth (Z.to_nat cur) visited false); [discriminate|].
  destruct (u32 (segmentBlock fdb cur + 1) >=? tb); [discriminate|].
  unfold obind.
  destruct (readSegmentWords img (segmentBlock fdb cur)) as [words|e0| |] eqn:Hread;
    try (intros H; discriminate H).
  - destruct (parseEntries dsb wordsPerSegment words _ cur 5 off acc)
      as [r|e1| |] eqn:Hparse; try (intros H; discriminate H).
    + apply IH.
    + destruct (parseEntries_throws _ _ _ _ _ _ _ _ _ Hparse).
  - intros H. injection H as <-. exact (readSegmentWords_throws _ _ _ Hread).
Qed.

Lemma readDirectory_throws (img : image) (tb : Z) (e : error) :
  readDirectory img tb = Throw e -> isSplitPrecondition e = false.
Proof.
  unfold readDirectory, obind.
  destruct (getFirstDirectoryBlock img) as [fdb|e0| |] eqn:Hfdb;
    try (intros H; discriminate H).
  - destruct (fdb >=? tb); [intros H; injection H as <-; reflexivity|].
    destruct (readSegmentWords img fdb) as [words|e1| |] eqn:Hread;
      try (intros H; discriminate H).
    + apply walkSegments_throws.
    + intros H. injection H as <-. exact (readSegmentWords_throws _ _ _ Hread).
  - intros H. injection H as <-. exact (getFirstDirectoryBlock_throws _ _ Hfdb).
Qed.

Lemma normalizeRt11Name_throws (nm : string) (e : error) :
  normalizeRt11Name nm = Throw e -> isSplitPrecondition e = false.
Proof.
  unfold normalizeRt11Name.
  destruct (strlen _ =? 0); [intros H; injection H as <-; reflexivity|].
  destruct (strlen _ =? 0); discriminate.
Qed.

Lemma scanForEos_throws (words : list Z) (ew : Z) :
  forall fuel idx e, scanForEos fuel words ew idx <> Throw e.
Proof.
  induction fuel as [|fuel IH]; intros idx e; [discriminate|].
  simpl.
  destruct (idx + ew <=? 512); simpl; [|discriminate].
  destruct (Z.land (getw words (idx + 0)) E_EOS =? 0); simpl; [|discriminate].
  destruct (getw words (idx + 0) =? 0); [discriminate|apply IH].
Qed.

Lemma storew_throws (words : list Z) (i v : Z) (e : error) :
  storew words i v <> Throw e.
Proof. unfold storew. destruct (_ && _); discriminate. Qed.

Lemma obind_throws {A B : Type} (m : outcome A) (k : A -> outcome B) :
  (forall e, m <> Throw e) -> (forall a e, k a <> Throw e) ->
  forall e, obind m k <> Throw e.
Proof.
  intros Hm Hk e. destruct m as [a|e0| |]; cbn; try discriminate.
  - apply Hk.
  - destruct (Hm e0 eq_refl).
Qed.

Lemma shiftEntriesUp_throws (ew : Z) :
  forall n words i e, shiftEntriesUp n words ew i <> Throw e.
Proof.
  induction n as [|n IH]; intros words i e; [discriminate|].
  cbn [shiftEntriesUp]. apply obind_throws.
  - intros e0. apply storew_throws.
  - intros a e0. apply IH.
Qed.

Lemma clearEntryWords_throws (newEosIdx : Z) :
  forall n words w e, clearEntryWords n words newEosIdx w <> Throw e.
Proof.
  induction n as [|n IH]; intros words w e; [discriminate|].
  cbn [clearEntryWords]. apply obind_throws.
  - intros e0. apply storew_throws.
  - intros a e0. apply IH.
Qed.

Lemma updateDirectoryWords_throws
  (words : list Z) (ew idx eosIdx remaining n1 n2 ext len dateW : Z) (e : error) :
  updateDirectoryWords words ew idx eosIdx remaining n1 n2 ext len dateW
  <> Throw e.
Proof.
  unfold updateDirectoryWords.
  repeat (apply obind_throws; [intros; apply storew_throws|intros]).
  destruct (remaining >? 0); [|discriminate].
  apply obind_throws.
  - intros ?. destruct (_ <? _); [apply shiftEntriesUp_throws|discriminate].
  - intros ? ?.
    repeat (apply obind_throws; [intros; apply storew_throws|intros]).
    apply obind_throws; [intros; apply clearEntryWords_throws|intros].
    apply storew_throws.
Qed.

Lemma writeFileData_throws (data : list byte) (start : Z) :
  forall n i offset d d' e,
    writeFileData n data start i offset d = (Throw e, d') ->
    isSplitPrecondition e = false.
Proof.
  induction n as [|n IH]; intros i offset d d' e.
  - cbn. discriminate.
  - cbn [writeFileData].
    cbv beta iota zeta delta [bindM writeBlock].
    repeat runStep.
    + intros H. injection H as <- <-. reflexivity.
    + apply IH.
Qed.

(* ------------------------------------------------------------------ *)
(** ** The copy operation *)

(** The last attempt of a copy is determined by the disk the copy started
    from: the disk reached by the retries, the entry chosen there and what
    was read for it. *)
Lemma attemptAt_unique (src : HostFile) (d : disk)
  (data data' : list byte) (e e' : Rt11Entry) (d2 d2' : disk)
  (fdb fdb' : Z) (words words' : list Z) :
  attemptAt src d data e d2 fdb words ->
  attemptAt src d data' e' d2' fdb' words' ->
  data = data' /\ e = e' /\ d2 = d2' /\ fdb = fdb' /\ words = words'.
Proof.
  intros (entries & w & Hc & Hr & Hf & Hw & Hg & Hs)
         (entries' & w' & Hc' & Hr' & Hf' & Hw' & Hg' & Hs').
  assert (data = data') by congruence. subst data'.
  assert (entries = entries') by congruence. subst entries'.
  assert (e = e') by congruence. subst e'.
  assert (d2 = d2') by congruence. subst d2'.
  assert (fdb = fdb') by congruence. subst fdb'.
  assert (words = words') by congruence. subst words'.
  repeat split.
Qed.

Lemma lastAttempt_unique (src : HostFile) :
  forall d d1, retried src d d1 ->
  forall data e d2 fdb words,
    attemptAt src d1 data e d2 fdb words ->
    needsSplit words e (blocksNeededFor data) = false ->
  forall d1', retried src d d1' ->
  forall data' e' d2' fdb' words',
    attemptAt src d1' data' e' d2' fdb' words' ->
    needsSplit words' e' (blocksNeededFor data') = false ->
    d1 = d1' /\ data = data' /\ e = e' /\ fdb = fdb'.
Proof.
  induction 1 as [d|d dataS eS d2S fdbS wordsS d3 d1 Ha Hn Hs Hre IH];
    intros data e d2 fdb words A N d1' Hre' data' e' d2' fdb' words' A' N'.
  - destruct Hre' as [d|d dataS eS d2S fdbS wordsS d3 d1' Ha Hn Hs Hre'].
    + destruct (attemptAt_unique _ _ _ _ _ _ _ _ _ _ _ _ A A')
        as (-> & -> & _ & -> & _). repeat split.
    + destruct (attemptAt_unique _ _ _ _ _ _ _ _ _ _ _ _ A Ha)
        as (-> & -> & _ & _ & ->). congruence.
  - destruct Hre' as [d|d dataT eT d2T fdbT wordsT d3' d1' Ha' Hn' Hs' Hre'].
    + destruct (attemptAt_unique _ _ _ _ _ _ _ _ _ _ _ _ A' Ha)
        as (-> & -> & _ & _ & ->). congruence.
    + destruct (attemptAt_unique _ _ _ _ _ _ _ _ _ _ _ _ Ha Ha')
        as (-> & -> & -> & _ & _).
      assert (d3 = d3') by congruence. subst d3'.
      exact (IH _ _ _ _ _ A N _ Hre' _ _ _ _ _ A' N').
Qed.

(** The attempt a run of the copy of [src] went through, gathered from the
    steps taken. *)
Ltac attemptFacts src :=
  repeat match goal with u : unit |- _ => destruct u end;
  match goal with
  | Hc : contents src = Some ?data,
    Hr : readDirectory (bytes ?d0) _ = Ok ?p,
    Hf : findEmptyEntry (fst ?p) _ = Some ?e,
    Hw : writeFileData _ _ _ _ _ ?d0 = (Ok tt, ?d2),
    Hg : getFirstDirectoryBlock (bytes ?d2) = Ok ?fdb,
    Hs : readSegmentWords (bytes ?d2) _ = Ok ?ws,
    Hn : (_ >? 0) && (_ >? 512) = ?b |- _ =>
    destruct p as [entries w]; cbn [fst] in *;
    assert (attemptAt src d0 data e d2 fdb ws)
      by (exists entries, w; repeat apply conj; assumption);
    change (needsSplit ws e (blocksNeededFor data) = b) in Hn
  end.

Section CopyToFacts.

Variable src : HostFile.
Variable noReplace : bool.
Variable optionalDateWord : Z.
Variable today : Z * Z * Z.

(** What the write log gained between two states, from what is known of the
    steps in between. *)
Ltac logFacts :=
  repeat match goal with
  | H : writeFileData _ _ _ _ _ _ = _ |- _ =>
    apply writeFileData_writes in H; destruct H as [[? H] _]
  | H : splitDirectorySegment _ _ = _ |- _ =>
    apply splitDirectorySegment_extends in H; destruct H as [? H]
  end.

Ltac logRewrite :=
  cbn [writes];
  repeat match goal with
  | H : writes _ = _ |- _ => rewrite H; clear H
  end;
  rewrite <- ?app_assoc.

Lemma copySingleToRt11_extends :
  forall fuel d d' r,
    copySingleToRt11 src noReplace optionalDateWord today fuel d = (r, d') ->
    exists l, writes d' = writes d ++ l.
Proof.
  induction fuel as [|fuel IH]; intros d d' r.
  - cbn. intros H. injection H as <- <-. exists []. symmetry. apply app_nil_r.
  - cbn [copySingleToRt11].
    cbv beta iota zeta delta [bindM readM throwM retM writeBlock].
    repeat runStep.
    all: try (intros H; apply IH in H; destruct H as [? H]).
    all: try (intros H; injection H as <- <-).
    all: logFacts; logRewrite.
    all: first [ eexists; reflexivity | exists []; symmetry; apply app_nil_r ].
Qed.

Lemma copySingleToRt11_writes :
  forall fuel d d' rtname,
    copySingleToRt11 src noReplace optionalDateWord today fuel d
    = (Ok (Copied rtname), d') ->
    dataBeforeDirectory src d d'.
Proof.
  induction fuel as [|fuel IH]; intros d d' rtname.
  - cbn. discriminate.
  - cbn [copySingleToRt11].
    cbv beta iota zeta delta [bindM readM throwM retM writeBlock].
    repeat (first [runStop | runStep]).
    + (* after a split: the retry *)
      intros H. apply IH in H.
      destruct H as (dA & data' & e' & dB & fdb' & words' & Hre
                     & [earlier He] & H).
      exists dA, data', e', dB, fdb', words'.
      split; [|split; [|exact H]].
      * attemptFacts src. eapply retried_split; eassumption.
      * logFacts. rewrite He. logRewrite. eexists. reflexivity.
    + (* the directory update *)
      intros H. injection H as _ <-.
      attemptFacts src.
      match goal with
      | Ha : attemptAt src d ?data ?e ?d2 ?fdb ?ws,
        Hn : needsSplit ?ws ?e _ = false |- _ =>
        exists d, data, e, d2, fdb, ws;
        split; [apply retried_none|];
        split; [exists []; symmetry; apply app_nil_r|];
        split; [exact Ha|]; split; [exact Hn|];
        destruct Ha as (? & ? & _ & _ & _ & Hw & _);
        apply writeFileData_writes in Hw; destruct Hw as [_ Hw];
        cbn [writes]; rewrite (Hw eq_refl), <- !app_assoc; reflexivity
      end.
Qed.

(** Allocation failure: no block is written, the disk is as it was. *)
Lemma copySingleToRt11_no_space (fuel : nat) (d : disk) (rtname : string)
  (entries : list Rt11Entry) (w : option warning) (data : list byte) :
  srcExists src = true ->
  normalizeRt11Name (baseName src) = Ok rtname ->
  bytes d <> [] ->
  readDirectory (bytes d) (totalBlocksOf (bytes d)) = Ok (entries, w) ->
  noReplace && alreadyOnVolume entries rtname = false ->
  contents src = Some data ->
  findEmptyEntry entries (blocksNeededFor data) = None ->
  copySingleToRt11 src noReplace optionalDateWord today (S fuel) d
  = (Throw NoEmptyArea, d).
Proof.
  intros Hsrc Hname Hsize Hread Hrep Hdata Hfind.
  cbn [copySingleToRt11].
  cbv beta iota zeta delta [bindM readM throwM retM].
  rewrite Hsrc. cbn [negb]. rewrite Hname.
  assert (Hlen : (Z.of_nat (List.length (bytes d)) <=? 0) = false).
  { apply Z.leb_gt. destruct (bytes d); [contradiction|cbn [List.length]; lia]. }
  rewrite Hlen. unfold totalBlocksOf in Hread. rewrite Hread.
  cbn [fst]. rewrite Hrep, Hdata, Hfind. reflexivity.
Qed.

(** A copy that fails with a split precondition has by then written the
    data blocks of the file into the area chosen in the directory it
    started from. *)
Lemma copySingleToRt11_split_failure :
  forall fuel d d' e,
    copySingleToRt11 src noReplace optionalDateWord today fuel d
    = (Throw e, d') ->
    isSplitPrecondition e = true ->
    exists data entries w chosen rest,
      contents src = Some data
      /\ readDirectory (bytes d) (totalBlocksOf (bytes d)) = Ok (entries, w)
      /\ findEmptyEntry entries (blocksNeededFor data) = Some chosen
      /\ (1 <= Z.to_nat (blocksNeededFor data))%nat
      /\ writes d'
         = writes d
           ++ dataBlocks (startBlock chosen) (Z.to_nat (blocksNeededFor data))
           ++ rest.
Proof.
  intros [|fuel] d d' e.
  - cbn. discriminate.
  - cbn [copySingleToRt11].
    cbv beta iota zeta delta [bindM readM throwM retM writeBlock].
    repeat (first [runStop | runStep]).
    all: try (intros H Hp; apply copySingleToRt11_extends in H;
              destruct H as [? H]).
    all: try (intros H; injection H as <- <-; intros Hp).
    all: try (cbn in Hp; discriminate Hp).
    all: try match goal with
         | E : normalizeRt11Name _ = Throw _ |- _ =>
           rewrite (normalizeRt11Name_throws _ _ E) in Hp; discriminate Hp
         | E : readDirectory _ _ = Throw _ |- _ =>
           rewrite (readDirectory_throws _ _ _ E) in Hp; discriminate Hp
         | E : getFirstDirectoryBlock _ = Throw _ |- _ =>
           rewrite (getFirstDirectoryBlock_throws _ _ E) in Hp; discriminate Hp
         | E : readSegmentWords _ _ = Throw _ |- _ =>
           rewrite (readSegmentWords_throws _ _ _ E) in Hp; discriminate Hp
         | E : writeFileData _ _ _ _ _ _ = (Throw _, _) |- _ =>
           rewrite (writeFileData_throws _ _ _ _ _ _ _ _ E) in Hp; discriminate Hp
         | E : scanForEos _ _ _ _ = Throw _ |- _ =>
           destruct (scanForEos_throws _ _ _ _ _ E)
         | E : updateDirectoryWords _ _ _ _ _ _ _ _ _ _ = Throw _ |- _ =>
           destruct (updateDirectoryWords_throws _ _ _ _ _ _ _ _ _ _ _ E)
         end.
    all: repeat match goal with u : unit |- _ => destruct u end.
    all: match goal with
         | Hc : contents src = Some ?data,
           Hr : readDirectory (bytes ?d0) _ = Ok ?p,
           Hf : findEmptyEntry (fst ?p) _ = Some ?c,
           Hw : writeFileData _ _ _ _ _ ?d0 = (Ok tt, ?d2) |- _ =>
           destruct p as [entries w];
           exists data, entries, w, c;
           apply writeFileData_writes in Hw; destruct Hw as [_ Hw];
           specialize (Hw eq_refl); unfold dataBlocks;
           logFacts; logRewrite; eexists;
           split; [reflexivity|]; split; [exact Hr|]; split; [exact Hf|];
           split; [pose proof (blocksNeededFor_pos data); lia|];
           first [reflexivity | rewrite app_nil_r; reflexivity]
         end.
Qed.

End CopyToFacts.

(** The shape fixes the log: two logs of that shape for the same file and
    the same starting disk are equal. *)
Lemma dataBeforeDirectory_log_unique (src : HostFile) (d d' d'' : disk) :
  dataBeforeDirectory src d d' -> dataBeforeDirectory src d d'' ->
  writes d' = writes d''.
Proof.
  intros (d1 & data & e & d2 & fdb & words & Hre & _ & A & N & L)
         (d1' & data' & e' & d2' & fdb' & words' & Hre' & _ & A' & N' & L').
  destruct (lastAttempt_unique src d d1 Hre data e d2 fdb words A N
              d1' Hre' data' e' d2' fdb' words' A' N')
    as (-> & -> & -> & ->).
  rewrite L, L'. reflexivity.
Qed.

(** On the sample volume the log of the copy is [10; 6; 7]; the same
    blocks with the directory segment first do not have the shape. *)
Example dataBeforeDirectory_refuses_directory_first :
  forall d', writes d' = [6; 7; 10] ->
    ~ dataBeforeDirectory tinyFile (freshDisk fileThenGap) d'.
Proof.
  intros d' L H.
  assert (R : dataBeforeDirectory tinyFile (freshDisk fileThenGap)
                (snd (afterCopy fileThenGap tinyFile))).
  { apply (copySingleToRt11_writes tinyFile false 0 (1999, 1, 15) 4%nat _ _ "F").
    vm_compute. reflexivity. }
  pose proof (dataBeforeDirectory_log_unique _ _ _ _ H R) as E.
  rewrite L in E. vm_compute in E. discriminate E.
Qed.

(** C5.  A split that succeeds writes the old segment's two blocks, then
    the new segment's two blocks, then segment 1's two blocks only when the
    highest segment in use rises.  A copy that succeeds ends with all data
    blocks of the file, in order, followed by the two blocks of the
    directory segment that records the new entry. *)
Theorem writes_commit_order :
  (forall seg d d',
     splitDirectorySegment seg d = (Ok tt, d') -> oldThenNewThenFirst seg d d')
  /\ (forall src noReplace optionalDateWord today fuel d d' rtname,
        copySingleToRt11 src noReplace optionalDateWord today fuel d
        = (Ok (Copied rtname), d') ->
        dataBeforeDirectory src d d').
Proof.
  split.
  - exact splitDirectorySegment_writes.
  - exact copySingleToRt11_writes.
Qed.

Lemma writes_commit_order_witness :
  oldThenNewThenFirst 1 (freshDisk (twoFilesGap 1))
    (snd (afterSplit (twoFilesGap 1) 1))
  /\ dataBeforeDirectory tinyFile (freshDisk fileThenGap)
       (snd (afterCopy fileThenGap tinyFile)).
Proof.
  destruct writes_commit_order as [S C]. split.
  - apply S. vm_compute. reflexivity.
  - apply (C tinyFile false 0 (1999, 1, 15) 4%nat _ _ "F").
    vm_compute. reflexivity.
Defined.

(** The logs of the two runs above. *)
Example writes_of_sample_runs :
  writes (snd (afterSplit (twoFilesGap 1) 1)) = [6; 7; 8; 9; 6; 7]
  /\ writes (snd (afterSplit (twoFilesGap 2) 1)) = [6; 7; 8; 9]
  /\ writes (snd (afterCopy fileThenGap tinyFile)) = [10; 6; 7]
  /\ writes (snd (afterCopy gapThenFile threeBlockFile)) = [8; 9; 10; 6; 7].
Proof. repeat apply conj; vm_compute; reflexivity. Qed.

(** C6 (as amended).  A copy whose allocation fails throws with the disk
    exactly as it was.  A split that fails one of its precondition checks
    leaves the disk exactly as it was when the split was called.  A copy
    that fails with such a split failure has by then written at least the
    data blocks of the file into the area it chose. *)
Theorem failed_copy_effects :
  (forall src noReplace optionalDateWord today fuel d rtname entries w data,
     srcExists src = true ->
     normalizeRt11Name (baseName src) = Ok rtname ->
     bytes d <> [] ->
     readDirectory (bytes d) (totalBlocksOf (bytes d)) = Ok (entries, w) ->
     noReplace && alreadyOnVolume entries rtname = false ->
     contents src = Some data ->
     findEmptyEntry entries (blocksNeededFor data) = None ->
     copySingleToRt11 src noReplace optionalDateWord today (S fuel) d
     = (Throw NoEmptyArea, d))
  /\ (forall seg d d' e,
        splitDirectorySegment seg d = (Throw e, d') ->
        isSplitPrecondition e = true ->
        d' = d)
  /\ (forall src noReplace optionalDateWord today fuel d d' e,
        copySingleToRt11 src noReplace optionalDateWord today fuel d
        = (Throw e, d') ->
        isSplitPrecondition e = true ->
        exists data entries w chosen rest,
          contents src = Some data
          /\ readDirectory (bytes d) (totalBlocksOf (bytes d))
             = Ok (entries, w)
          /\ findEmptyEntry entries (blocksNeededFor data) = Some chosen
          /\ (1 <= Z.to_nat (blocksNeededFor data))%nat
          /\ writes d'
             = writes d
               ++ dataBlocks (startBlock chosen)
                    (Z.to_nat (blocksNeededFor data))
               ++ rest).
Proof.
  split; [|split].
  - exact copySingleToRt11_no_space.
  - exact splitDirectorySegment_precondition.
  - exact copySingleToRt11_split_failure.
Qed.

Lemma failed_copy_effects_witness :
  copySingleToRt11 fourBlockFile false 0 (1999, 1, 15) 1
    (freshDisk gapThenFile)
  = (Throw NoEmptyArea, freshDisk gapThenFile)
  /\ snd (afterSplit (crowdedVolume 1 1) 1) = freshDisk (crowdedVolume 1 1)
  /\ exists data entries w chosen rest,
       contents tinyFile = Some data
       /\ readDirectory (crowdedVolume 1 1) (totalBlocksOf (crowdedVolume 1 1))
          = Ok (entries, w)
       /\ findEmptyEntry entries (blocksNeededFor data) = Some chosen
       /\ (1 <= Z.to_nat (blocksNeededFor data))%nat
       /\ writes (snd (afterCopy (crowdedVolume 1 1) tinyFile))
          = [] ++ dataBlocks (startBlock chosen)
                    (Z.to_nat (blocksNeededFor data)) ++ rest.
Proof.
  destruct failed_copy_effects as (A & B & C). split; [|split].
  - apply (A fourBlockFile false 0 (1999, 1, 15) 0%nat (freshDisk gapThenFile)
             "H" [gapEntry; fileEntryA] None (repeat x43 2000)).
    + reflexivity.
    + vm_compute. reflexivity.
    + discriminate.
    + vm_compute. reflexivity.
    + reflexivity.
    + reflexivity.
    + vm_compute. reflexivity.
  - apply (B 1 (freshDisk (crowdedVolume 1 1)) _ DirectoryFull).
    + vm_compute. reflexivity.
    + reflexivity.
  - apply (C tinyFile false 0 (1999, 1, 15) 4%nat
             (freshDisk (crowdedVolume 1 1)) _ DirectoryFull).
    + vm_compute. reflexivity.
    + reflexivity.
Defined.

(** C6, as stated, fails when a split precondition fails.  On a one-segment
    directory whose only entry leaves no room for a remainder entry, the
    copy ends with "directory full" after the data block has been written:
    block 10 now begins with the file's byte.  With a second segment
    available the copy splits twice before the third split fails: directory
    blocks 6-9 were written and segment 1 is left with no entry, linked to
    segment 2. *)
Lemma failed_copy_effects_counterexample :
  (fst (afterCopy (crowdedVolume 1 1) tinyFile) = Throw DirectoryFull
   /\ writes (snd (afterCopy (crowdedVolume 1 1) tinyFile)) = [10]
   /\ nth (10 * 512) (crowdedVolume 1 1) x00 = x00
   /\ nth (10 * 512) (bytes (snd (afterCopy (crowdedVolume 1 1) tinyFile))) x00
      = x41
   /\ bytes (snd (afterCopy (crowdedVolume 1 1) tinyFile))
      <> crowdedVolume 1 1)
  /\ (fst (afterCopy (crowdedVolume 2 1) tinyFile) = Throw DirectoryFull
      /\ writes (snd (afterCopy (crowdedVolume 2 1) tinyFile))
         = [10; 6; 7; 8; 9; 6; 7; 10; 6; 7; 8; 9; 10]
      /\ segmentEntryIdx (crowdedVolume 2 1) 6 = Ok [5]
      /\ segmentLink (crowdedVolume 2 1) 6 = Ok 0
      /\ segmentEntryIdx
           (bytes (snd (afterCopy (crowdedVolume 2 1) tinyFile))) 6 = Ok []
      /\ segmentLink
           (bytes (snd (afterCopy (crowdedVolume 2 1) tinyFile))) 6 = Ok 2).
Proof.
  repeat apply conj; try (vm_compute; reflexivity).
  intros H.
  assert (E : nth (10 * 512)
                (bytes (snd (afterCopy (crowdedVolume 1 1) tinyFile))) x00
              = nth (10 * 512) (crowdedVolume 1 1) x00) by (rewrite H; reflexivity).
  vm_compute in E. discriminate E.
Qed.

(* ------------------------------------------------------------------ *)
(** ** Words written to the image come back as written *)

Lemma byteZ_Zbyte (z : Z) : byteZ (Zbyte z) = u8 z.
Proof.
  unfold byteZ, Zbyte.
  assert (Hr : 0 <= u8 z < 256) by (unfold u8; apply Z.mod_pos_bound; lia).
  pose proof (Byte.to_of_N_option_map (Z.to_N (u8 z))) as H.
  destruct (Byte.of_N (Z.to_N (u8 z))) as [b|].
  - cbn [option_map] in H.
    destruct (Z.to_N (u8 z) <=? 255)%N eqn:E; [|discriminate].
    injection H as ->. lia.
  - cbn [option_map] in H.
    destruct (Z.to_N (u8 z) <=? 255)%N eqn:E; [discriminate|].
    apply N.leb_gt in E. lia.
Qed.

(** A 16-bit word is the low byte or-ed with the high byte shifted up. *)
Lemma word_of_its_bytes (w : Z) :
  0 <= w < 65536 ->
  u16 (Z.lor (u8 (Z.land w 0x00FF))
             (Z.shiftl (u8 (Z.land (Z.shiftr w 8) 0x00FF)) 8)) = w.
Proof.
  intros Hw. unfold u8.
  change 0x00FF with (Z.ones 8).
  rewrite !Z.land_ones by lia. rewrite Z.shiftr_div_pow2 by lia.
  change (2 ^ 8) with 256. rewrite !Z.mod_mod by lia.
  assert (Hhi : (w / 256) mod 256 = w / 256)
    by (apply Z.mod_small; Z.div_mod_to_equations; lia).
  rewrite Hhi.
  assert (Hdisj : Z.land (w mod 256) (Z.shiftl (w / 256) 8) = 0).
  { apply Z.bits_inj'. intros n Hn.
    rewrite Z.land_spec, Z.bits_0.
    destruct (Z.lt_ge_cases n 8) as [Hlt|Hge].
    - rewrite (Z.shiftl_spec_low _ _ _ Hlt). apply andb_false_r.
    - change 256 with (2 ^ 8).
      rewrite Z.mod_pow2_bits_high by lia. reflexivity. }
  rewrite <- (Z.lxor_lor _ _ Hdisj), <- (Z.add_nocarry_lxor _ _ Hdisj).
  rewrite Z.shiftl_mul_pow2 by lia. change (2 ^ 8) with 256.
  unfold u16. rewrite Z.mod_small; Z.div_mod_to_equations; lia.
Qed.

Lemma nth_wordsBytes (ws : list Z) :
  forall i, (i < List.length ws)%nat ->
    nth (2 * i) (wordsBytes ws) x00 = Zbyte (Z.land (nth i ws 0) 0x00FF)
    /\ nth (2 * i + 1) (wordsBytes ws) x00
       = Zbyte (Z.land (Z.shiftr (nth i ws 0) 8) 0x00FF).
Proof.
  induction ws as [|w ws IH]; intros i Hi; [cbn in Hi; lia|].
  destruct i as [|i].
  - split; reflexivity.
  - cbn [List.length] in Hi. specialize (IH i ltac:(lia)).
    replace (2 * S i)%nat with (S (S (2 * i))) by lia.
    replace (S (S (2 * i)) + 1)%nat with (S (S (2 * i + 1))) by lia.
    exact IH.
Qed.

Lemma wordsBytes_length (ws : list Z) :
  List.length (wordsBytes ws) = (2 * List.length ws)%nat.
Proof.
  unfold wordsBytes. rewrite (flat_map_constant_length (c := 2)); [lia|].
  intros x _. reflexivity.
Qed.

Lemma blockWords_wordsBytes (ws : list Z) :
  List.length ws = 256%nat ->
  (forall i, 0 <= nth i ws 0 < 65536) ->
  blockWords (wordsBytes ws) = ws.
Proof.
  intros Hlen Hr. unfold blockWords.
  apply (nth_ext _ _ 0 0).
  - rewrite length_map, length_seq. symmetry. exact Hlen.
  - intros n Hn. rewrite length_map, length_seq in Hn.
    rewrite (nth_indep _ 0 (wordAt (wordsBytes ws) 0))
      by (rewrite length_map, length_seq; exact Hn).
    rewrite map_nth, seq_nth by exact Hn. cbn [Nat.add].
    unfold wordAt.
    destruct (nth_wordsBytes ws n ltac:(lia)) as [-> ->].
    rewrite !byteZ_Zbyte. apply word_of_its_bytes. apply Hr.
Qed.

(* ------------------------------------------------------------------ *)
(** ** Blocks written to the image come back as written *)

Lemma readBlock_writeImage_same (img : image) (block : Z) (buf : list byte) :
  0 <= block -> List.length buf = 512%nat ->
  readBlock (writeImage img block buf) block = Ok buf.
Proof.
  intros Hb Hlen. unfold readBlock, writeImage.
  set (off := Z.to_nat (block * BLOCK_SIZE)).
  set (padded := img ++ repeat x00 (off - List.length img)).
  assert (Hp : (off <= List.length padded)%nat).
  { subst padded. rewrite length_app, repeat_length. lia. }
  assert (Hf : List.length (firstn off padded) = off)
    by (apply firstn_length_le; exact Hp).
  assert (Hoff : Z.of_nat off = block * BLOCK_SIZE)
    by (subst off; unfold BLOCK_SIZE; lia).
  destruct (_ <=? _) eqn:E.
  - f_equal. rewrite skipn_app, Hf, Nat.sub_diag.
    rewrite (skipn_all2 (firstn off padded)) by lia.
    rewrite skipn_O, app_nil_l, firstn_app, Hlen, Nat.sub_diag.
    rewrite firstn_O, app_nil_r. apply firstn_all2. lia.
  - apply Z.leb_gt in E. rewrite !length_app, Hf, Hlen in E.
    unfold BLOCK_SIZE in *. lia.
Qed.

Lemma readBlock_writeImage_below (img : image) (block block' : Z)
  (buf : list byte) :
  0 <= block' < block -> (block' + 1) * BLOCK_SIZE <= Z.of_nat (List.length img) ->
  readBlock (writeImage img block buf) block' = readBlock img block'.
Proof.
  intros Hb Hin. unfold readBlock, writeImage.
  set (off := Z.to_nat (block * BLOCK_SIZE)).
  set (off' := Z.to_nat (block' * BLOCK_SIZE)).
  set (padded := img ++ repeat x00 (off - List.length img)).
  assert (Hoff : (off' + 512 <= off)%nat)
    by (subst off off'; unfold BLOCK_SIZE; lia).
  assert (Himg : (off' + 512 <= List.length img)%nat)
    by (subst off'; unfold BLOCK_SIZE in *; lia).
  assert (Hp : (off <= List.length padded)%nat).
  { subst padded. rewrite length_app, repeat_length. lia. }
  assert (Hf : List.length (firstn off padded) = off)
    by (apply firstn_length_le; exact Hp).
  assert (E1 : ((block' + 1) * BLOCK_SIZE <=? Z.of_nat (List.length img)) = true)
    by (apply Z.leb_le; exact Hin).
  assert (E2 : ((block' + 1) * BLOCK_SIZE
                <=? Z.of_nat (List.length (firstn off padded ++ buf
                                             ++ skipn (off + 512) padded)))
               = true).
  { apply Z.leb_le. rewrite length_app, Hf. unfold BLOCK_SIZE in *. lia. }
  rewrite E1, E2. f_equal.
  rewrite skipn_app, firstn_app.
  rewrite length_skipn, Hf.
  replace (off' - off)%nat with 0%nat by lia.
  replace (512 - (off - off'))%nat with 0%nat by lia.
  rewrite firstn_O, app_nil_r.
  apply (nth_ext _ _ x00 x00).
  - rewrite !length_firstn, !length_skipn, Hf. lia.
  - intros n Hn. rewrite length_firstn, length_skipn, Hf in Hn.
    rewrite !nth_firstn.
    destruct (n <? 512)%nat eqn:En; [|reflexivity].
    apply Nat.ltb_lt in En.
    rewrite !nth_skipn, nth_firstn.
    replace (off' + n <? off)%nat with true
      by (symmetry; apply Nat.ltb_lt; lia).
    subst padded. apply app_nth1. lia.
Qed.

(* ------------------------------------------------------------------ *)
(** ** Segments written to the image come back as written *)

Lemma writeImage_length (img : image) (block : Z) (buf : list byte) :
  0 <= block -> List.length buf = 512%nat ->
  (block + 1) * BLOCK_SIZE <= Z.of_nat (List.length (writeImage img block buf)).
Proof.
  intros Hb Hlen. unfold writeImage.
  set (off := Z.to_nat (block * BLOCK_SIZE)).
  set (padded := img ++ repeat x00 (off - List.length img)).
  assert (Hp : (off <= List.length padded)%nat).
  { subst padded. rewrite length_app, repeat_length. lia. }
  rewrite !length_app, firstn_length_le, Hlen by exact Hp.
  subst off. unfold BLOCK_SIZE. lia.
Qed.

(** Two consecutive blocks written and read back as one segment. *)
Lemma readSegmentWords_written (img : image) (block : Z) (words : list Z) :
  0 <= block < 4294967295 ->
  List.length (lowBlock words) = 512%nat ->
  List.length (highBlock words) = 512%nat ->
  (forall x, In x words -> 0 <= x < 65536) ->
  readSegmentWords
    (writeImage (writeImage img block (lowBlock words)) (u32 (block + 1))
       (highBlock words)) block
  = Ok words.
Proof.
  intros Hb Hlo Hhi Hr.
  assert (Hu : u32 (block + 1) = block + 1)
    by (unfold u32; apply Z.mod_small; lia).
  rewrite Hu. unfold readSegmentWords, obind. rewrite Hu.
  rewrite readBlock_writeImage_below;
    [|lia|apply writeImage_length; [lia|exact Hlo]].
  rewrite readBlock_writeImage_same by (lia || exact Hlo).
  rewrite readBlock_writeImage_same by (lia || exact Hhi).
  unfold lowBlock, highBlock in *. rewrite wordsBytes_length in Hlo, Hhi.
  rewrite !blockWords_wordsBytes.
  - rewrite firstn_skipn. reflexivity.
  - lia.
  - intros i. apply nth_all_range. intros x Hx. apply Hr.
    rewrite <- (firstn_skipn 256 words). apply in_or_app. right. exact Hx.
  - lia.
  - intros i. apply nth_all_range. intros x Hx. apply Hr.
    rewrite <- (firstn_skipn 256 words). apply in_or_app. left. exact Hx.
Qed.

(* ------------------------------------------------------------------ *)
(** ** Words of a segment buffer after a store *)

Lemma replaceNth_length (l : list Z) (v : Z) :
  forall n, List.length (replaceNth l n v) = List.length l.
Proof.
  induction l as [|x l IH]; intros [|n]; cbn [replaceNth List.length];
    try reflexivity.
  rewrite IH. reflexivity.
Qed.

Lemma nth_replaceNth_other (l : list Z) (v : Z) :
  forall n m, n <> m -> nth m (replaceNth l n v) 0 = nth m l 0.
Proof.
  induction l as [|x l IH]; intros [|n] [|m] H; cbn [replaceNth nth];
    try reflexivity; try contradiction.
  apply IH. lia.
Qed.

Lemma nth_replaceNth_same (l : list Z) (v : Z) :
  forall n, (n < List.length l)%nat -> nth n (replaceNth l n v) 0 = v.
Proof.
  induction l as [|x l IH]; intros [|n] H; cbn [List.length] in H;
    cbn [replaceNth nth]; try lia; try reflexivity.
  apply IH. lia.
Qed.

Lemma In_replaceNth (l : list Z) (v x : Z) :
  forall n, In x (replaceNth l n v) -> x = v \/ In x l.
Proof.
  induction l as [|y l IH]; intros [|n] H; cbn [replaceNth] in H.
  - destruct H.
  - destruct H.
  - destruct H as [H|H]; [left; symmetry; exact H|right; right; exact H].
  - destruct H as [H|H]; [right; left; exact H|].
    destruct (IH _ H) as [E|E]; [left; exact E|right; right; exact E].
Qed.

Lemma setw_length (words : list Z) (i v : Z) :
  List.length (setw words i v) = List.length words.
Proof. apply replaceNth_length. Qed.

Lemma getw_setw_other (words : list Z) (i j v : Z) :
  0 <= i -> 0 <= j -> i <> j -> getw (setw words i v) j = getw words j.
Proof.
  intros Hi Hj Hne. unfold getw, setw. apply nth_replaceNth_other. lia.
Qed.

Lemma getw_setw_same (words : list Z) (i v : Z) :
  (Z.to_nat i < List.length words)%nat -> getw (setw words i v) i = v.
Proof. intros H. unfold getw, setw. apply nth_replaceNth_same. exact H. Qed.

Lemma In_setw (words : list Z) (i v x : Z) :
  In x (setw words i v) -> x = v \/ In x words.
Proof. apply In_replaceNth. Qed.

(* ------------------------------------------------------------------ *)
(** ** Segment 1 after a split that raises the highest segment in use *)

Lemma readSegmentWords_In (img : image) (block : Z) (words : list Z) :
  readSegmentWords img block = Ok words ->
  forall x, In x words -> 0 <= x < 65536.
Proof.
  unfold readSegmentWords, obind. intros H x Hx.
  destruct (readBlock img block) as [b0| | |]; try discriminate.
  destruct (readBlock img (u32 (block + 1))) as [b1| | |]; try discriminate.
  assert (E : words = blockWords b0 ++ blockWords b1) by congruence.
  rewrite E in Hx. apply in_app_or in Hx. unfold blockWords in Hx.
  destruct Hx as [Hx|Hx]; apply in_map_iff in Hx;
    destruct Hx as [k [<- _]]; apply wordAt_range.
Qed.

Lemma getFirstDirectoryBlock_range (img : image) (firstDirBlock : Z) :
  getFirstDirectoryBlock img = Ok firstDirBlock -> 0 <= firstDirBlock < 65536.
Proof.
  unfold getFirstDirectoryBlock, obind.
  destruct (readBlock img 1) as [buf| | |]; try discriminate.
  destruct (_ =? 0).
  - intros H. injection H as <-. lia.
  - intros H. injection H as <-. unfold getw.
    apply nth_all_range. intros x Hx. unfold blockWords in Hx.
    apply in_map_iff in Hx. destruct Hx as [k [<- _]]. apply wordAt_range.
Qed.

Lemma firstUnused_range (used : list bool) :
  forall n s, 0 < s ->
    firstUnused used s n = 0
    \/ s <= firstUnused used s n < s + Z.of_nat n.
Proof.
  induction n as [|n IH]; intros s Hs; [left; reflexivity|].
  cbn [firstUnused]. destruct (negb _).
  - right. lia.
  - destruct (IH (s + 1) ltac:(lia)) as [H|H]; [left; exact H|right; lia].
Qed.

(** Whenever the highest segment in use rises, the split ends by writing
    segment 1 as it was read at the start, with only word 2 changed:
    whatever the split wrote into segment 1 before that is gone. *)
Lemma splitDirectorySegment_first_segment (seg : Z) (d d' : disk)
  (firstDirBlock : Z) (seg1Words : list Z) (used : list bool) :
  splitDirectorySegment seg d = (Ok tt, d') ->
  getFirstDirectoryBlock (bytes d) = Ok firstDirBlock ->
  readSegmentWords (bytes d) firstDirBlock = Ok seg1Words ->
  markChain (Z.to_nat (totalSegments (parseSegmentHeader seg1Words)) + 2)
    (bytes d) firstDirBlock
    (totalSegments (parseSegmentHeader seg1Words)) 1
    (repeat false
       (Z.to_nat (totalSegments (parseSegmentHeader seg1Words) + 1)))
  = Ok used ->
  let newSegNum :=
    firstUnused used 1
      (Z.to_nat (totalSegments (parseSegmentHeader seg1Words))) in
  highestInUse (parseSegmentHeader seg1Words) < newSegNum ->
  readSegmentWords (bytes d') firstDirBlock
  = Ok (setw seg1Words 2 newSegNum).
Proof.
  intros Hrun Hfdb Hseg1 Hchain newSegNum Hrise.
  pose proof (getFirstDirectoryBlock_range _ _ Hfdb) as Hfr.
  pose proof (readSegmentWords_In _ _ _ Hseg1) as Hsr.
  pose proof (readSegmentWords_range _ _ _ Hseg1 0) as H0.
  pose proof (readSegmentWords_range _ _ _ Hseg1 2) as H2.
  pose proof (firstUnused_range used
                (Z.to_nat (totalSegments (parseSegmentHeader seg1Words)))
                1 ltac:(lia)) as Hnew.
  subst newSegNum.
  cbv beta iota delta [parseSegmentHeader totalSegments highestInUse] in *.
  revert Hrun. unfold splitDirectorySegment.
  cbv beta iota zeta delta [bindM readM throwM retM writeBlock].
  rewrite Hfdb. cbv beta iota. rewrite Hseg1.
  cbv beta iota delta [parseSegmentHeader totalSegments highestInUse].
  destruct (_ || _); [intros H; discriminate H|].
  rewrite Hchain. cbv beta iota.
  repeat (first [runStop | runStep]).
  - intros H. injection H as <-. cbn [bytes].
    rewrite Z.max_r in * by lia.
    match goal with
    | E1 : negb (Z.of_nat (List.length (lowBlock ?W)) =? _) = false,
      E2 : negb (Z.of_nat (List.length (highBlock ?W)) =? _) = false
      |- readSegmentWords (writeImage (writeImage _ _ (lowBlock ?W)) _ _) _ = _ =>
      apply negb_false_iff, Z.eqb_eq in E1;
      apply negb_false_iff, Z.eqb_eq in E2;
      unfold BLOCK_SIZE in E1, E2;
      apply readSegmentWords_written; [lia|lia|lia|]
    end.
    intros x Hx. apply In_setw in Hx. destruct Hx as [->|Hx]; [lia|].
    apply Hsr. exact Hx.
  - exfalso.
    match goal with
    | E : negb (Z.max _ _ =? _) = false |- _ =>
      rewrite max_neq_iff in E; apply Z.ltb_ge in E; lia
    end.
Qed.

Lemma readSegmentWords_length (img : image) (block : Z) (words : list Z) :
  readSegmentWords img block = Ok words -> List.length words = 512%nat.
Proof.
  unfold readSegmentWords, obind. intros H.
  destruct (readBlock img block) as [b0| | |]; try discriminate.
  destruct (readBlock img (u32 (block + 1))) as [b1| | |]; try discriminate.
  assert (E : words = blockWords b0 ++ blockWords b1) by congruence.
  rewrite E. unfold blockWords.
  rewrite length_app, !length_map, !length_seq. reflexivity.
Qed.

(** The entry scan looks at words from index 5 on only. *)
Lemma collectEntryIdx_setw (words : list Z) (ew i v : Z) :
  0 <= i < 5 -> 0 <= ew ->
  forall fuel idx acc, 5 <= idx ->
    collectEntryIdx fuel (setw words i v) ew idx acc
    = collectEntryIdx fuel words ew idx acc.
Proof.
  intros Hi Hew. induction fuel as [|fuel IH]; intros idx acc Hidx;
    [reflexivity|].
  cbn [collectEntryIdx].
  rewrite getw_setw_other by lia.
  destruct (idx + ew <=? 512) eqn:E; [|reflexivity]. cbn [negb].
  destruct (negb _); [reflexivity|].
  destruct (_ =? 0); [reflexivity|].
  apply Z.leb_le in E. rewrite u16_small by lia. apply IH. lia.
Qed.

(** Splitting segment 1 when the highest segment in use rises leaves
    segment 1 with the entries and the link it had before the split. *)
Lemma splitDirectorySegment_first_segment_as_before (d d' : disk)
  (firstDirBlock : Z) (seg1Words : list Z) (used : list bool) :
  splitDirectorySegment 1 d = (Ok tt, d') ->
  getFirstDirectoryBlock (bytes d) = Ok firstDirBlock ->
  readSegmentWords (bytes d) firstDirBlock = Ok seg1Words ->
  markChain (Z.to_nat (totalSegments (parseSegmentHeader seg1Words)) + 2)
    (bytes d) firstDirBlock
    (totalSegments (parseSegmentHeader seg1Words)) 1
    (repeat false
       (Z.to_nat (totalSegments (parseSegmentHeader seg1Words) + 1)))
  = Ok used ->
  highestInUse (parseSegmentHeader seg1Words)
  < firstUnused used 1
      (Z.to_nat (totalSegments (parseSegmentHeader seg1Words))) ->
  segmentEntryIdx (bytes d') firstDirBlock
  = segmentEntryIdx (bytes d) firstDirBlock
  /\ segmentLink (bytes d') firstDirBlock
     = segmentLink (bytes d) firstDirBlock.
Proof.
  intros Hrun Hfdb Hseg1 Hchain Hrise.
  pose proof (splitDirectorySegment_first_segment _ _ _ _ _ _
                Hrun Hfdb Hseg1 Hchain Hrise) as Hafter.
  pose proof (entryWordsOf_range _ (readSegmentWords_range _ _ _ Hseg1)) as Hew.
  unfold segmentEntryIdx, segmentLink, obind.
  rewrite Hafter, Hseg1.
  unfold entryWordsOf, parseSegmentHeader in *.
  cbn [extraBytes nextSegment] in *.
  rewrite !getw_setw_other by lia.
  split; [|reflexivity].
  apply collectEntryIdx_setw; lia.
Qed.

(* ------------------------------------------------------------------ *)
(** ** The directory update after an allocation with a remainder *)

Lemma storew_Ok (words : list Z) (i v : Z) (words' : list Z) :
  storew words i v = Ok words' -> 0 <= i < 512 /\ words' = setw words i v.
Proof.
  unfold storew. destruct ((0 <=? i) && (i <? 512)) eqn:E; [|discriminate].
  intros H. injection H as <-.
  apply andb_prop in E as [E1 E2].
  apply Z.leb_le in E1. apply Z.ltb_lt in E2. split; [lia|reflexivity].
Qed.

(** The shift loop leaves alone every word below the first one it writes. *)
Lemma shiftEntriesUp_frame (ew : Z) :
  forall n words i words',
    shiftEntriesUp n words ew i = Ok words' ->
    List.length words' = List.length words
    /\ forall j, 0 <= j < i - Z.of_nat n + 1 + ew ->
         getw words' j = getw words j.
Proof.
  induction n as [|n IH]; intros words i words' H.
  - cbn in H. injection H as <-. split; [reflexivity|]. intros j _. reflexivity.
  - cbn [shiftEntriesUp] in H. unfold obind in H.
    destruct (storew words (i + ew) (getw words i)) as [w1| | |] eqn:E;
      try discriminate.
    apply storew_Ok in E. destruct E as [Hr ->].
    apply IH in H. destruct H as [Hlen Hframe]. split.
    + rewrite Hlen. apply setw_length.
    + intros j Hj. rewrite Hframe by lia. apply getw_setw_other; lia.
Qed.

(** The clearing loop leaves alone every word below the first one it
    writes. *)
Lemma clearEntryWords_frame (newEosIdx : Z) :
  forall n words w words',
    clearEntryWords n words newEosIdx w = Ok words' ->
    0 <= w ->
    List.length words' = List.length words
    /\ forall j, 0 <= j < newEosIdx + w -> getw words' j = getw words j.
Proof.
  induction n as [|n IH]; intros words w words' H Hw.
  - cbn in H. injection H as <-. split; [reflexivity|]. intros j _. reflexivity.
  - cbn [clearEntryWords] in H. unfold obind in H.
    destruct (storew words (newEosIdx + w) 0) as [w1| | |] eqn:E;
      try discriminate.
    apply storew_Ok in E. destruct E as [Hr ->].
    apply IH in H; [|lia]. destruct H as [Hlen Hframe]. split.
    + rewrite Hlen. apply setw_length.
    + intros j Hj. rewrite Hframe by lia. apply getw_setw_other; lia.
Qed.

(** One store of [updateDirectoryWords], opened. *)
Ltac openStore H :=
  match type of H with
  | obind (storew ?W ?i ?v) _ = Ok _ =>
    let E := fresh "E" in
    let R := fresh "R" in
    unfold obind at 1 in H;
    destruct (storew W i v) eqn:E; try discriminate H;
    apply storew_Ok in E; destruct E as [R ->]
  end.

(** After an allocation that leaves a remainder, the words of the segment
    hold: the new file at [idx], the remainder entry in the next slot, and
    the end-of-segment marker in the slot after that, wherever the marker
    was before; the words below [idx] are as they were. *)
Lemma updateDirectoryWords_remainder
  (words : list Z) (ew idx eosIdx remaining n1 n2 ext len dateW : Z)
  (words' : list Z) :
  List.length words = 512%nat ->
  7 <= ew -> 0 <= idx -> 0 < remaining ->
  idx + ew + ew + ew <= 512 ->
  updateDirectoryWords words ew idx eosIdx remaining n1 n2 ext len dateW
  = Ok words' ->
  getw words' idx = E_PERM
  /\ getw words' (idx + 4) = len
  /\ getw words' (idx + ew) = E_MPTY
  /\ getw words' (idx + ew + 4) = remaining
  /\ getw words' (idx + ew + ew) = E_EOS
  /\ forall j, 0 <= j < idx -> getw words' j = getw words j.
Proof.
  intros Hlen Hew Hidx Hrem Hroom H.
  unfold updateDirectoryWords in H.
  rewrite (u16_small (idx + ew)) in H by lia.
  rewrite (u16_small (idx + ew + ew)) in H by lia.
  do 7 openStore H.
  replace (remaining >? 0) with true in H by (symmetry; apply Z.gtb_lt; lia).
  unfold obind at 1 in H.
  match type of H with
  | match ?c with _ => _ end = _ =>
    destruct c as [shifted| | |] eqn:Eshift; try discriminate H
  end.
  assert (Hshift : List.length shifted = 512%nat
                   /\ forall j, 0 <= j < idx + ew + ew ->
                        getw shifted j
                        = getw (setw (setw (setw (setw (setw (setw (setw
                            words (idx + 0) E_PERM) (idx + 1) n1) (idx + 2) n2)
                            (idx + 3) ext) (idx + 4) len) (idx + 5) 0)
                            (idx + 6) dateW) j).
  { destruct (idx + ew <? eosIdx) eqn:Elt.
    - apply Z.ltb_lt in Elt. apply shiftEntriesUp_frame in Eshift.
      destruct Eshift as [L F]. split.
      + rewrite L, !setw_length. exact Hlen.
      + intros j Hj. apply F. lia.
    - injection Eshift as <-. split.
      + rewrite !setw_length. exact Hlen.
      + intros j _. reflexivity. }
  clear Eshift. destruct Hshift as [Lshift Fshift].
  do 7 openStore H.
  unfold obind at 1 in H.
  match type of H with
  | match ?c with _ => _ end = _ =>
    destruct c as [cleared| | |] eqn:Eclear; try discriminate H
  end.
  apply clearEntryWords_frame in Eclear; [|lia].
  destruct Eclear as [Lclear Fclear].
  rewrite !setw_length in Lclear.
  apply storew_Ok in H. destruct H as [_ ->].
  rewrite ?Z.add_0_r in *.
  assert (Below : forall j, 0 <= j < idx + ew + ew ->
            getw (setw cleared (idx + ew + ew) E_EOS) j
            = getw (setw (setw (setw (setw (setw (setw (setw shifted
                (idx + ew) E_MPTY) (idx + ew + 1) 0) (idx + ew + 2) 0)
                (idx + ew + 3) 0) (idx + ew + 4) remaining) (idx + ew + 5) 0)
                (idx + ew + 6) 0) j).
  { intros j Hj. rewrite getw_setw_other by lia. apply Fclear. lia. }
  repeat apply conj.
  - rewrite Below by lia. rewrite !getw_setw_other by lia.
    rewrite Fshift by lia. rewrite !getw_setw_other by lia.
    apply getw_setw_same. lia.
  - rewrite Below by lia. rewrite !getw_setw_other by lia.
    rewrite Fshift by lia. rewrite !getw_setw_other by lia.
    apply getw_setw_same. rewrite !setw_length. lia.
  - rewrite Below by lia. rewrite !getw_setw_other by lia.
    apply getw_setw_same. lia.
  - rewrite Below by lia. rewrite !getw_setw_other by lia.
    apply getw_setw_same. rewrite !setw_length. lia.
  - apply getw_setw_same. lia.
  - intros j Hj. rewrite Below by lia. rewrite !getw_setw_other by lia.
    rewrite Fshift by lia. rewrite !getw_setw_other by lia. reflexivity.
Qed.

(** Hence, read from the new file on, the segment has exactly two entries:
    the file and the remainder.  Entries that followed the chosen area are
    no longer part of the segment. *)
Lemma updateDirectoryWords_ends_segment
  (words : list Z) (ew idx eosIdx remaining n1 n2 ext len dateW : Z)
  (words' : list Z) (fuel : nat) (entryIdx : list Z) :
  List.length words = 512%nat ->
  7 <= ew -> 0 <= idx -> 0 < remaining ->
  idx + ew + ew + ew <= 512 ->
  updateDirectoryWords words ew idx eosIdx remaining n1 n2 ext len dateW
  = Ok words' ->
  (3 <= fuel)%nat ->
  collectEntryIdx fuel words' ew idx entryIdx
  = Ok (entryIdx ++ [idx; idx + ew]).
Proof.
  intros Hlen Hew Hidx Hrem Hroom H Hfuel.
  destruct (updateDirectoryWords_remainder _ _ _ _ _ _ _ _ _ _ _
              Hlen Hew Hidx Hrem Hroom H) as (Hp & _ & Hm & _ & He & _).
  destruct fuel as [|[|[|fuel]]]; try lia.
  cbn [collectEntryIdx]. rewrite !Z.add_0_r.
  replace (idx + ew <=? 512) with true by (symmetry; apply Z.leb_le; lia).
  rewrite Hp. cbn [negb].
  change (Z.land E_PERM E_EOS =? 0) with true.
  change (E_PERM =? 0) with false. cbn [negb].
  rewrite (u16_small (idx + ew)) by lia.
  replace (idx + ew + ew <=? 512) with true by (symmetry; apply Z.leb_le; lia).
  rewrite Hm. cbn [negb].
  change (Z.land E_MPTY E_EOS =? 0) with true.
  change (E_MPTY =? 0) with false. cbn [negb].
  rewrite (u16_small (idx + ew + ew)) by lia.
  replace (idx + ew + ew + ew <=? 512) with true
    by (symmetry; apply Z.leb_le; lia).
  rewrite He. cbn [negb].
  change (Z.land E_EOS E_EOS =? 0) with false. cbn [negb].
  rewrite <- app_assoc. reflexivity.
Qed.

(* ------------------------------------------------------------------ *)
(** * Further properties *)

(* ------------------------------------------------------------------ *)
(** ** Strings *)

Lemma strlen_nonneg (s : string) : 0 <= strlen s.
Proof. unfold strlen. lia. Qed.

Lemma length_append (a b : string) :
  String.length (a +++ b) = (String.length a + String.length b)%nat.
Proof. induction a as [|c a IH]; simpl; [reflexivity|]. rewrite IH. reflexivity. Qed.

Lemma strlen_append (a b : string) : strlen (a +++ b) = strlen a + strlen b.
Proof. unfold strlen. rewrite length_append. lia. Qed.

Lemma append_nil_r (a : string) : a +++ "" = a.
Proof. induction a as [|c a IH]; simpl; [reflexivity|]. rewrite IH. reflexivity. Qed.

Lemma append_assoc (a b c : string) : (a +++ b) +++ c = a +++ (b +++ c).
Proof. induction a as [|x a IH]; simpl; [reflexivity|]. rewrite IH. reflexivity. Qed.

Lemma toupper_idem (c : ascii) : toupper (toupper c) = toupper c.
Proof. destruct c as [[] [] [] [] [] [] [] []]; vm_compute; reflexivity. Qed.

Lemma toupper_fixes (x c : ascii) :
  toupper x = x -> toupper c = x -> toupper c = c \/ c <> x.
Proof.
  intros Hx Hc. destruct (Ascii.eqb_spec c x) as [->|N]; [left; exact Hx|right; exact N].
Qed.

Lemma toupper_dot (c : ascii) : toupper c = "."%char -> c = "."%char.
Proof. destruct c as [[] [] [] [] [] [] [] []]; vm_compute; intros H; try reflexivity; discriminate H. Qed.

Lemma toupper_space (c : ascii) : toupper c = " "%char -> c = " "%char.
Proof. destruct c as [[] [] [] [] [] [] [] []]; vm_compute; intros H; try reflexivity; discriminate H. Qed.

Lemma length_upcase (s : string) : String.length (upcase s) = String.length s.
Proof. induction s as [|c s IH]; simpl; [reflexivity|]. rewrite IH. reflexivity. Qed.

Lemma strlen_upcase (s : string) : strlen (upcase s) = strlen s.
Proof. unfold strlen. rewrite length_upcase. reflexivity. Qed.

Lemma upcase_append (a b : string) : upcase (a +++ b) = upcase a +++ upcase b.
Proof. induction a as [|c a IH]; simpl; [reflexivity|]. rewrite IH. reflexivity. Qed.

Lemma upcase_idem (s : string) : upcase (upcase s) = upcase s.
Proof.
  induction s as [|c s IH]; simpl; [reflexivity|].
  rewrite toupper_idem, IH. reflexivity.
Qed.

Lemma substring_all (s : string) : String.substring 0 (String.length s) s = s.
Proof. induction s as [|c s IH]; simpl; [reflexivity|]. rewrite IH. reflexivity. Qed.

Lemma substring_prefix (a b : string) :
  String.substring 0 (String.length a) (a +++ b) = a.
Proof.
  induction a as [|c a IH]; simpl.
  - destruct b; reflexivity.
  - rewrite IH. reflexivity.
Qed.

Lemma substring_skip (a b : string) (n : nat) :
  String.substring (String.length a) n (a +++ b) = String.substring 0 n b.
Proof. induction a as [|c a IH]; simpl; [reflexivity|]. exact IH. Qed.

Lemma substring_short (s : string) (n : nat) :
  (String.length s <= n)%nat -> String.substring 0 n s = s.
Proof.
  revert n. induction s as [|c s IH]; intros [|n] H; simpl in *; try reflexivity; try lia.
  rewrite IH by lia. reflexivity.
Qed.

Lemma length_substring (s : string) (n : nat) :
  String.length (String.substring 0 n s) = Nat.min n (String.length s).
Proof.
  revert n. induction s as [|c s IH]; intros [|n]; simpl; try reflexivity.
  rewrite IH. reflexivity.
Qed.

Lemma substrFrom_skip (a b : string) :
  substrFrom (a +++ b) (strlen a) = b.
Proof.
  unfold substrFrom, strlen. rewrite Nat2Z.id, length_append.
  replace (String.length a + String.length b - String.length a)%nat
    with (String.length b) by lia.
  rewrite substring_skip. apply substring_all.
Qed.

Lemma substr_prefix (a b : string) : substr (a +++ b) 0 (strlen a) = a.
Proof. unfold substr, strlen. rewrite Nat2Z.id. apply substring_prefix. Qed.

(** The character test of [allChars], over an append. *)
Lemma allChars_append (p : ascii -> bool) (a b : string) :
  allChars p (a +++ b) = allChars p a && allChars p b.
Proof.
  induction a as [|c a IH]; simpl; [reflexivity|].
  rewrite IH. apply andb_assoc.
Qed.

Lemma allChars_substring (p : ascii -> bool) (s : string) (n : nat) :
  allChars p s = true -> allChars p (String.substring 0 n s) = true.
Proof.
  revert n. induction s as [|c s IH]; intros [|n] H; simpl in *; try reflexivity.
  apply andb_prop in H. destruct H as [H1 H2]. rewrite H1, IH by exact H2. reflexivity.
Qed.

(** [find] returns the position of the first occurrence. *)
Lemma findChar_Some (c : ascii) (s : string) :
  forall i p, findChar c s i = Some p ->
    exists a b, s = a +++ String c b /\ p = i + strlen a
                /\ allChars (isNot c) a = true.
Proof.
  induction s as [|d s IH]; intros i p H; simpl in H; [discriminate|].
  destruct (Ascii.eqb_spec d c) as [->|N].
  - injection H as <-. exists EmptyString, s. repeat split. unfold strlen. simpl. lia.
  - apply IH in H. destruct H as (a & b & -> & -> & Ha).
    exists (String d a), b. repeat split.
    + unfold strlen. simpl. lia.
    + simpl. rewrite Ha. unfold isNot.
      destruct (Ascii.eqb_spec d c); [contradiction|reflexivity].
Qed.

Lemma findChar_None (c : ascii) (s : string) :
  forall i, findChar c s i = None <-> allChars (isNot c) s = true.
Proof.
  induction s as [|d s IH]; intros i; simpl; [tauto|].
  unfold isNot at 1. destruct (Ascii.eqb d c); simpl.
  - split; discriminate.
  - apply IH.
Qed.

Lemma findChar_first (c : ascii) (a b : string) (i : Z) :
  allChars (isNot c) a = true ->
  findChar c (a +++ String c b) i = Some (i + strlen a).
Proof.
  revert i. induction a as [|d a IH]; intros i H; simpl in *.
  - rewrite Ascii.eqb_refl. unfold strlen. simpl. f_equal. lia.
  - apply andb_prop in H. destruct H as [H1 H2]. unfold isNot in H1.
    destruct (Ascii.eqb d c); [discriminate|].
    rewrite IH by exact H2. unfold strlen. simpl. f_equal. lia.
Qed.

(* ------------------------------------------------------------------ *)
(** ** Case-insensitive comparison *)

(** X1.  [iequals] is equality of the upper-cased strings. *)
Theorem iequals_upcase (a b : string) :
  iequals a b = String.eqb (upcase a) (upcase b).
Proof.
  revert b. induction a as [|ca a IH]; intros [|cb b]; simpl; try reflexivity.
  rewrite IH. reflexivity.
Qed.

(* ------------------------------------------------------------------ *)
(** ** Name normalization *)

Lemma truncate_substring (s : string) (n : Z) :
  0 <= n ->
  (if strlen s >? n then substr s 0 n else s)
  = String.substring 0 (Z.to_nat n) s.
Proof.
  intros Hn. unfold substr, strlen. change (Z.to_nat 0) with 0%nat.
  destruct (Z.gtb_spec (Z.of_nat (String.length s)) n) as [H|H]; [reflexivity|].
  symmetry. apply substring_short. lia.
Qed.

Lemma upcase_substring (s : string) (n : nat) :
  upcase (String.substring 0 n s) = String.substring 0 n (upcase s).
Proof.
  revert n. induction s as [|c s IH]; intros [|n]; simpl; try reflexivity.
  rewrite IH. reflexivity.
Qed.

Lemma allChars_upcase_isNot_dot (s : string) :
  allChars (isNot ".") s = true -> allChars (isNot ".") (upcase s) = true.
Proof.
  induction s as [|c s IH]; simpl; intros H; [reflexivity|].
  apply andb_prop in H. destruct H as [H1 H2]. rewrite IH by exact H2.
  rewrite andb_true_r. unfold isNot in *.
  destruct (Ascii.eqb_spec (toupper c) "."%char) as [E|N]; [|reflexivity].
  apply toupper_dot in E. subst c. discriminate H1.
Qed.

Lemma strlen_substring (s : string) (n : nat) :
  strlen (String.substring 0 n s) = Z.min (Z.of_nat n) (strlen s).
Proof. unfold strlen. rewrite length_substring. lia. Qed.

Lemma strlen_zero (s : string) : strlen s = 0 -> s = "".
Proof. destruct s; [reflexivity|]. unfold strlen. simpl. lia. Qed.

Lemma substrFrom_after (a b : string) (c : ascii) :
  substrFrom (a +++ String c b) (strlen a + 1) = b.
Proof.
  replace (a +++ String c b) with ((a +++ String c "") +++ b)
    by (rewrite append_assoc; reflexivity).
  replace (strlen a + 1) with (strlen (a +++ String c ""))
    by (rewrite strlen_append; reflexivity).
  apply substrFrom_skip.
Qed.

(** A name that is already normal normalizes to itself. *)
Lemma normalizeRt11Name_normal (b e : string) :
  1 <= strlen b <= 6 -> strlen e <= 3 ->
  allChars (isNot ".") b = true ->
  upcase b = b -> upcase e = e ->
  normalizeRt11Name (joinName b e) = Ok (joinName b e).
Proof.
  intros Hb He Hdot Ub Ue. unfold joinName.
  destruct (Z.eqb_spec (strlen e) 0) as [E0|E0].
  - unfold normalizeRt11Name.
    rewrite (proj2 (findChar_None _ _ 0) Hdot).
    replace (strlen b =? 0) with false by (symmetry; apply Z.eqb_neq; lia).
    rewrite Ub. cbn [upcase].
    replace (strlen b >? 6) with false by (symmetry; rewrite Z.gtb_ltb; apply Z.ltb_ge; lia).
    reflexivity.
  - unfold normalizeRt11Name.
    change (b +++ "." +++ e) with (b +++ String "." e).
    rewrite findChar_first by exact Hdot. rewrite Z.add_0_l.
    rewrite substr_prefix, substrFrom_after.
    replace (strlen b =? 0) with false by (symmetry; apply Z.eqb_neq; lia).
    rewrite Ub, Ue.
    replace (strlen b >? 6) with false by (symmetry; rewrite Z.gtb_ltb; apply Z.ltb_ge; lia).
    replace (strlen e >? 3) with false by (symmetry; rewrite Z.gtb_ltb; apply Z.ltb_ge; lia).
    replace (strlen e =? 0) with false by (symmetry; apply Z.eqb_neq; lia).
    reflexivity.
Qed.

(** X2.  What [normalizeRt11Name] returns. *)
Theorem normalizeRt11Name_shape (name : string) :
  match normalizeRt11Name name with
  | Ok r =>
      exists b e,
        r = joinName b e
        /\ 1 <= strlen b <= 6 /\ strlen e <= 3
        /\ allChars (isNot ".") b = true
        /\ upcase r = r
        /\ normalizeRt11Name r = Ok r
  | Throw err =>
      err = NameMissing
      /\ (name = "" \/ exists rest, name = String "." rest)
  | Undefined _ | OutOfFuel => False
  end.
Proof.
  assert (Shape : forall a rest : string,
            allChars (isNot ".") a = true -> strlen a <> 0 ->
            let b := String.substring 0 6 (upcase a) in
            let e := String.substring 0 3 (upcase rest) in
            1 <= strlen b <= 6 /\ strlen e <= 3
            /\ allChars (isNot ".") b = true
            /\ upcase b = b /\ upcase e = e).
  { intros a rest Ha Hn b e. subst b e.
    rewrite !strlen_substring, !upcase_substring, !upcase_idem, !strlen_upcase.
    pose proof (strlen_nonneg a). pose proof (strlen_nonneg rest).
    repeat apply conj; try lia; try reflexivity.
    apply allChars_substring, allChars_upcase_isNot_dot, Ha. }
  unfold normalizeRt11Name.
  destruct (findChar "." name 0) as [p|] eqn:F.
  - apply findChar_Some in F. destruct F as (a & rest & -> & -> & Ha).
    rewrite Z.add_0_l, substr_prefix, substrFrom_after.
    destruct (Z.eqb_spec (strlen a) 0) as [E0|E0].
    + split; [reflexivity|]. right. exists rest.
      rewrite (strlen_zero _ E0). reflexivity.
    + rewrite !truncate_substring by lia.
      change (Z.to_nat 6) with 6%nat. change (Z.to_nat 3) with 3%nat.
      destruct (Shape a rest Ha E0) as (Hb & He & Hd & Ub & Ue).
      set (b := String.substring 0 6 (upcase a)) in *.
      set (e := String.substring 0 3 (upcase rest)) in *.
      assert (J : (if strlen e =? 0 then Ok b else Ok (b +++ "." +++ e))
                  = Ok (joinName b e))
        by (unfold joinName; destruct (strlen e =? 0); reflexivity).
      rewrite J. exists b, e. repeat apply conj; try assumption; try lia.
      * reflexivity.
      * unfold joinName. destruct (strlen e =? 0); [exact Ub|].
        rewrite !upcase_append, Ub, Ue. reflexivity.
      * apply normalizeRt11Name_normal; assumption.
  - apply findChar_None in F.
    destruct (Z.eqb_spec (strlen name) 0) as [E0|E0].
    + split; [reflexivity|]. left. apply strlen_zero, E0.
    + rewrite !truncate_substring by lia.
      change (Z.to_nat 6) with 6%nat. cbn [upcase].
      change (strlen "" >? 3) with false. change (strlen "" =? 0) with true.
      cbv iota.
      destruct (Shape name "" F E0) as (Hb & _ & Hd & Ub & _).
      set (b := String.substring 0 6 (upcase name)) in *.
      exists b, "". repeat apply conj; try assumption; try lia.
      * reflexivity.
      * unfold strlen. simpl. lia.
      * apply (normalizeRt11Name_normal b ""); try assumption; try reflexivity.
        unfold strlen. simpl. lia.
Qed.

(* ------------------------------------------------------------------ *)
(** ** Names written by the tool *)

Lemma searchTable_range (c : ascii) (tbl : list ascii) :
  forall i, 0 <= i ->
    0 <= searchTable c tbl i < i + Z.of_nat (List.length tbl)
    \/ searchTable c tbl i = 0.
Proof.
  induction tbl as [|t tbl IH]; intros i Hi; simpl; [right; reflexivity|].
  destruct (Ascii.eqb t c).
  - left. lia.
  - destruct (IH (i + 1) ltac:(lia)) as [H|H]; [left; lia|right; exact H].
Qed.

Lemma rad50Index_range (c : ascii) : 0 <= rad50Index c < 40.
Proof.
  unfold rad50Index.
  destruct (searchTable_range (toupper c) RAD50_TABLE 0 ltac:(lia)) as [H|H].
  - change (Z.of_nat (List.length RAD50_TABLE)) with 40 in H. lia.
  - rewrite H. lia.
Qed.

Lemma encodeRad50_range (s3 : string) : 0 <= encodeRad50 s3 < 64000.
Proof.
  unfold encodeRad50.
  set (c1 := if strlen s3 >? 0 then _ else _).
  set (c2 := if strlen s3 >? 1 then _ else _).
  set (c3 := if strlen s3 >? 2 then _ else _).
  pose proof (rad50Index_range c1). pose proof (rad50Index_range c2).
  pose proof (rad50Index_range c3).
  rewrite u16_small by lia. lia.
Qed.

Lemma tableAt_Some (i : Z) : 0 <= i < 40 -> exists c, tableAt i = Some c.
Proof.
  intros H. unfold tableAt.
  replace ((0 <=? i) && (i <? 40)) with true
    by (symmetry; apply andb_true_intro; split;
        [apply Z.leb_le|apply Z.ltb_lt]; lia).
  destruct (nth_error RAD50_TABLE (Z.to_nat i)) as [c|] eqn:E; [exists c; reflexivity|].
  apply nth_error_None in E. change (List.length RAD50_TABLE) with 40%nat in E. lia.
Qed.

Lemma decodeRad50_Some (w : Z) :
  0 <= w < 64000 -> exists s, decodeRad50 w = Some s.
Proof.
  intros H. unfold decodeRad50, rad50Subscripts.
  destruct (tableAt_Some (w / 1600)) as [c1 E1];
    [split; [apply Z.div_pos; lia|apply Z.div_lt_upper_bound; lia]|].
  destruct (tableAt_Some (w mod 1600 / 40)) as [c2 E2];
    [pose proof (Z.mod_pos_bound w 1600 ltac:(lia));
     split; [apply Z.div_pos; lia|apply Z.div_lt_upper_bound; lia]|].
  destruct (tableAt_Some (w mod 1600 mod 40)) as [c3 E3];
    [apply Z.mod_pos_bound; lia|].
  rewrite E1, E2, E3. eexists. reflexivity.
Qed.

Lemma decodeFileName_of_encoded (a b c : string) :
  exists nm,
    decodeFileName (encodeRad50 a) (encodeRad50 b) (encodeRad50 c) = Some nm.
Proof.
  unfold decodeFileName.
  destruct (decodeRad50_Some _ (encodeRad50_range a)) as [d1 ->].
  destruct (decodeRad50_Some _ (encodeRad50_range b)) as [d2 ->].
  destruct (decodeRad50_Some _ (encodeRad50_range c)) as [d3 ->].
  destruct (strlen _ =? 0); eexists; reflexivity.
Qed.

(** X3.  Every name the tool encodes can be decoded. *)
Theorem encodeFileName_decodable (rtname : string) :
  let '(name1, name2, ext) := encodeFileName rtname in
  (0 <= name1 < 64000 /\ 0 <= name2 < 64000 /\ 0 <= ext < 64000)
  /\ exists nm, decodeFileName name1 name2 ext = Some nm.
Proof.
  unfold encodeFileName.
  destruct (match findChar "." rtname 0 with
            | Some pos => _ | None => _ end) as [base extension].
  cbv beta iota zeta.
  split; [repeat split; apply encodeRad50_range|].
  apply decodeFileName_of_encoded.
Qed.

(* ------------------------------------------------------------------ *)
(** ** The name round trip *)

Lemma rad50Char_facts (c : ascii) :
  rad50Char c = true ->
  In (toupper c) RAD50_TABLE /\ Ascii.eqb (toupper c) " " = false.
Proof.
  unfold rad50Char, isNot. intros H. apply andb_prop in H. destruct H as [H1 H2].
  split.
  - apply existsb_exists in H1. destruct H1 as (x & Hx & E).
    apply Ascii.eqb_eq in E. rewrite E. exact Hx.
  - destruct (Ascii.eqb_spec (toupper c) " "%char) as [E|N]; [|reflexivity].
    apply toupper_space in E. subst c. discriminate H2.
Qed.

Lemma rad50Index_toupper (c : ascii) : rad50Index (toupper c) = rad50Index c.
Proof. unfold rad50Index. rewrite toupper_idem. reflexivity. Qed.

(** Three characters, each a RAD50 character once upper-cased, come back
    upper-cased and without the spaces. *)
Lemma decodeRad50_encodeRad50_upcase (c1 c2 c3 : ascii) :
  In (toupper c1) RAD50_TABLE -> In (toupper c2) RAD50_TABLE ->
  In (toupper c3) RAD50_TABLE ->
  decodeRad50 (encodeRad50 (str3 c1 c2 c3))
  = Some (dropSpaces (str3 (toupper c1) (toupper c2) (toupper c3))).
Proof.
  intros H1 H2 H3.
  destruct (rad50Index_table _ H1) as [R1 T1].
  destruct (rad50Index_table _ H2) as [R2 T2].
  destruct (rad50Index_table _ H3) as [R3 T3].
  rewrite rad50Index_toupper in *.
  unfold decodeRad50.
  replace (encodeRad50 (str3 c1 c2 c3))
    with (u16 (rad50Index c1 * 1600 + rad50Index c2 * 40 + rad50Index c3))
    by reflexivity.
  rewrite rad50Subscripts_pack by assumption.
  rewrite T1, T2, T3. rewrite pushNonSpace_dropSpaces. reflexivity.
Qed.

(** A part of at most three name characters, padded for encoding, comes
    back upper-cased. *)
Lemma decodeRad50_padded (t : string) :
  strlen t <= 3 -> allChars rad50Char t = true ->
  decodeRad50 (encodeRad50 (padTo 3 t)) = Some (upcase t).
Proof.
  intros Hlen Hall.
  assert (Sp : In (toupper " ") RAD50_TABLE) by (left; reflexivity).
  destruct t as [|c1 [|c2 [|c3 [|c4 t]]]]; cbn [allChars] in Hall;
    repeat match type of Hall with
           | _ && _ = true =>
             let H := fresh "H" in
             apply andb_prop in Hall; destruct Hall as [H Hall];
             apply rad50Char_facts in H; destruct H as [? ?]
           end.
  - change (padTo 3 "") with (str3 " " " " " ").
    rewrite decodeRad50_encodeRad50_upcase by assumption. reflexivity.
  - change (padTo 3 (String c1 "")) with (str3 c1 " " " ").
    rewrite decodeRad50_encodeRad50_upcase by assumption.
    cbn [dropSpaces str3 upcase]. change (toupper " ") with " "%char.
    rewrite H0. reflexivity.
  - change (padTo 3 (String c1 (String c2 ""))) with (str3 c1 c2 " ").
    rewrite decodeRad50_encodeRad50_upcase by assumption.
    cbn [dropSpaces str3 upcase]. change (toupper " ") with " "%char.
    rewrite H0, H2. reflexivity.
  - change (padTo 3 (String c1 (String c2 (String c3 "")))) with (str3 c1 c2 c3).
    rewrite decodeRad50_encodeRad50_upcase by assumption.
    cbn [dropSpaces str3 upcase].
    rewrite H0, H2, H4. reflexivity.
  - exfalso. unfold strlen in Hlen. cbn [String.length] in Hlen. lia.
Qed.

Lemma gtb_false (a b : Z) : a <= b -> (a >? b) = false.
Proof. intros H. rewrite Z.gtb_ltb. apply Z.ltb_ge. exact H. Qed.

Lemma eqb_false (a b : Z) : a <> b -> (a =? b) = false.
Proof. apply Z.eqb_neq. Qed.

Lemma encodeFileName_joinName (base ext : string) :
  allChars (isNot ".") base = true -> strlen base <= 6 -> strlen ext <= 3 ->
  encodeFileName (joinName base ext)
  = (encodeRad50 (substr (padTo 6 base) 0 3),
     encodeRad50 (substr (padTo 6 base) 3 3),
     encodeRad50 (padTo 3 ext)).
Proof.
  intros Hdot Hb He. unfold joinName, encodeFileName.
  destruct (Z.eqb_spec (strlen ext) 0) as [E0|E0].
  - rewrite (strlen_zero _ E0).
    rewrite (proj2 (findChar_None _ _ 0) Hdot).
    rewrite (gtb_false (strlen base) 6) by exact Hb. reflexivity.
  - change (base +++ "." +++ ext) with (base +++ String "." ext).
    rewrite findChar_first by exact Hdot.
    rewrite Z.add_0_l, substr_prefix, substrFrom_after.
    rewrite (gtb_false (strlen base) 6) by exact Hb.
    rewrite (gtb_false (strlen ext) 3) by exact He. reflexivity.
Qed.

(** The two halves of a base of at most six characters. *)
Lemma base_halves (p : ascii -> bool) (base : string) :
  strlen base <= 6 -> allChars p base = true ->
  let b1 := String.substring 0 3 base in
  let b2 := String.substring 3 3 base in
  substr (padTo 6 base) 0 3 = padTo 3 b1
  /\ substr (padTo 6 base) 3 3 = padTo 3 b2
  /\ base = b1 +++ b2
  /\ strlen b1 <= 3 /\ strlen b2 <= 3
  /\ allChars p b1 = true /\ allChars p b2 = true.
Proof.
  intros Hlen Hall.
  destruct base as [|c1 [|c2 [|c3 [|c4 [|c5 [|c6 [|c7 t]]]]]]];
    try (exfalso; unfold strlen in Hlen; cbn [String.length] in Hlen; lia);
    cbn [allChars] in Hall;
    repeat match type of Hall with
           | _ && _ = true =>
             let H := fresh "H" in
             apply andb_prop in Hall; destruct Hall as [H Hall]
           end;
    cbv zeta; cbn [String.substring allChars];
    repeat match goal with H : p _ = true |- _ => rewrite H; clear H end;
    repeat apply conj; try reflexivity; unfold strlen; cbn [String.length]; lia.
Qed.

Lemma baseChar_facts (s : string) :
  allChars baseChar s = true ->
  allChars rad50Char s = true /\ allChars (isNot ".") s = true.
Proof.
  induction s as [|c s IH]; cbn [allChars]; intros H; [split; reflexivity|].
  apply andb_prop in H. destruct H as [H1 H2].
  unfold baseChar in H1. apply andb_prop in H1. destruct H1 as [H3 H4].
  destruct (IH H2) as [I1 I2]. rewrite H3, H4, I1, I2. split; reflexivity.
Qed.

(** X4.  A name of RAD50 characters survives encoding and decoding. *)
Theorem decodeFileName_encodeFileName (base ext : string) :
  allChars baseChar base = true -> allChars rad50Char ext = true ->
  strlen base <= 6 -> strlen ext <= 3 ->
  let '(name1, name2, e) := encodeFileName (joinName base ext) in
  decodeFileName name1 name2 e = Some (upcase (joinName base ext)).
Proof.
  intros Hbase Hext Hb He.
  destruct (baseChar_facts _ Hbase) as [Hrad Hdot].
  rewrite encodeFileName_joinName by assumption.
  destruct (base_halves rad50Char base Hb Hrad)
    as (P1 & P2 & Split & L1 & L2 & A1 & A2).
  rewrite P1, P2. unfold decodeFileName.
  rewrite !decodeRad50_padded by assumption.
  rewrite <- upcase_append, <- Split.
  rewrite !strlen_upcase.
  rewrite (gtb_false (strlen base) 6) by exact Hb.
  rewrite (gtb_false (strlen ext) 3) by exact He.
  rewrite strlen_upcase. unfold joinName.
  destruct (strlen ext =? 0); [reflexivity|].
  rewrite !upcase_append. reflexivity.
Qed.

Lemma decodeFileName_encodeFileName_witness :
  let '(name1, name2, e) := encodeFileName (joinName "Read" "me") in
  decodeFileName name1 name2 e = Some (upcase (joinName "Read" "me")).
Proof.
  apply (decodeFileName_encodeFileName "Read" "me");
    try reflexivity; unfold strlen; simpl; lia.
Defined.

(* ------------------------------------------------------------------ *)
(** ** The packed date *)

Lemma lor_disjoint (hi lo k p : Z) :
  0 <= k -> p = 2 ^ k -> 0 <= lo < p -> Z.lor (hi * p) lo = hi * p + lo.
Proof.
  intros Hk -> Hlo.
  assert (E : Z.land (hi * 2 ^ k) lo = 0).
  { apply Z.bits_inj'. intros m Hm. rewrite Z.land_spec, Z.bits_0.
    destruct (Z.lt_ge_cases m k) as [L|G].
    - rewrite Z.mul_pow2_bits_low by exact L. reflexivity.
    - rewrite <- (Z.mod_small lo (2 ^ k)) by exact Hlo.
      rewrite Z.mod_pow2_bits_high by lia. apply andb_false_r. }
  pose proof (Z.add_lor_land (hi * 2 ^ k) lo) as A. lia.
Qed.

(** The word packed from four fields, each within its width. *)
Lemma packed_date (age month day yearLow : Z) :
  0 <= age < 4 -> 0 <= month < 16 -> 0 <= day < 32 -> 0 <= yearLow < 32 ->
  Z.lor (Z.lor (Z.lor (Z.lor 0 (u16 (Z.shiftl age 14)))
                      (u16 (Z.shiftl month 10)))
               (u16 (Z.shiftl day 5)))
        (u16 yearLow)
  = age * 16384 + month * 1024 + day * 32 + yearLow.
Proof.
  intros Ha Hm Hd Hy.
  rewrite !Z.shiftl_mul_pow2 by lia.
  change (2 ^ 14) with 16384. change (2 ^ 10) with 1024. change (2 ^ 5) with 32.
  rewrite !u16_small by lia. rewrite Z.lor_0_l.
  rewrite (lor_disjoint age (month * 1024) 14 16384) by (try reflexivity; lia).
  replace (age * 16384 + month * 1024) with ((age * 16 + month) * 1024) by lia.
  rewrite (lor_disjoint (age * 16 + month) (day * 32) 10 1024)
    by (try reflexivity; lia).
  replace ((age * 16 + month) * 1024 + day * 32)
    with ((age * 512 + month * 32 + day) * 32) by lia.
  rewrite (lor_disjoint (age * 512 + month * 32 + day) yearLow 5 32)
    by (try reflexivity; lia).
  lia.
Qed.

Lemma dateFields_packed (age month day yearLow : Z) :
  0 <= age < 4 -> 0 <= month < 16 -> 0 <= day < 32 -> 0 <= yearLow < 32 ->
  dateFields (age * 16384 + month * 1024 + day * 32 + yearLow)
  = (1972 + yearLow + 32 * age, month, day).
Proof.
  intros Ha Hm Hd Hy. unfold dateFields.
  rewrite !Z.shiftr_div_pow2 by lia.
  change 0x3 with (Z.ones 2). change 0xF with (Z.ones 4).
  change 0x1F with (Z.ones 5). rewrite !Z.land_ones by lia.
  change (2 ^ 14) with 16384. change (2 ^ 10) with 1024. change (2 ^ 5) with 32.
  change (2 ^ 2) with 4. change (2 ^ 4) with 16.
  repeat f_equal; Z.div_mod_to_equations; lia.
Qed.

Lemma land_mask (x : Z) (k : Z) : 0 <= k -> 0 <= Z.land x (Z.ones k) < 2 ^ k.
Proof. intros Hk. rewrite Z.land_ones by exact Hk. apply Z.mod_pos_bound. lia. Qed.

(** The fields of any word lie within their widths. *)
Lemma dateFields_range (w : Z) :
  let '(year, month, day) := dateFields w in
  1972 <= year <= 2099 /\ 0 <= month <= 15 /\ 0 <= day <= 31.
Proof.
  unfold dateFields.
  pose proof (land_mask (Z.shiftr w 14) 2 ltac:(lia)) as A.
  pose proof (land_mask (Z.shiftr w 10) 4 ltac:(lia)) as M.
  pose proof (land_mask (Z.shiftr w 5) 5 ltac:(lia)) as D.
  pose proof (land_mask w 5 ltac:(lia)) as Y.
  change (Z.ones 2) with 0x3 in A. change (Z.ones 4) with 0xF in M.
  change (Z.ones 5) with 0x1F in D, Y.
  change (2 ^ 2) with 4 in A. change (2 ^ 4) with 16 in M.
  change (2 ^ 5) with 32 in D, Y. lia.
Qed.

(** The word [encodeRt11DateFromSystem] builds for a date it accepts. *)
Lemma encodeRt11DateFromSystem_word (y m d : Z) :
  1972 <= y <= 2099 -> 1 <= m <= 12 -> 1 <= d <= 31 ->
  encodeRt11DateFromSystem y m d
  = (y - 1972) / 32 * 16384 + m * 1024 + d * 32 + (y - 1972) mod 32.
Proof.
  intros Hy Hm Hd. unfold encodeRt11DateFromSystem.
  replace (y <? 1972) with false by (symmetry; apply Z.ltb_ge; lia).
  rewrite Z.quot_div_nonneg by lia.
  assert (Ha : 0 <= (y - 1972) / 32 < 4)
    by (split; [apply Z.div_pos; lia|apply Z.div_lt_upper_bound; lia]).
  rewrite (gtb_false ((y - 1972) / 32) 3) by lia.
  assert (Hl : y - (1972 + (y - 1972) / 32 * 32) = (y - 1972) mod 32)
    by (Z.div_mod_to_equations; lia).
  rewrite Hl.
  pose proof (Z.mod_pos_bound (y - 1972) 32 ltac:(lia)) as Hr.
  replace ((y - 1972) mod 32 <? 0) with false by (symmetry; apply Z.ltb_ge; lia).
  replace ((m <? 1) || (m >? 12) || (d <? 1) || (d >? 31)) with false.
  2:{ symmetry. rewrite !orb_false_iff. rewrite !Z.ltb_ge.
      rewrite (gtb_false m 12), (gtb_false d 31) by lia. repeat split; lia. }
  cbv zeta.
  change 0x3 with (Z.ones 2). change 0xF with (Z.ones 4).
  change 0x1F with (Z.ones 5). rewrite !Z.land_ones by lia.
  change (2 ^ 2) with 4. change (2 ^ 4) with 16. change (2 ^ 5) with 32.
  rewrite (Z.mod_small ((y - 1972) / 32) 4) by lia.
  rewrite (Z.mod_small m 16) by lia.
  rewrite (Z.mod_small d 32) by lia.
  rewrite (Z.mod_small ((y - 1972) mod 32) 32) by lia.
  apply packed_date; lia.
Qed.

(** X5.  The system-date encoder and the formatter agree. *)
Theorem formatRt11Date_encodeRt11DateFromSystem (y m d : Z) :
  1972 <= y <= 2099 -> 1 <= m <= 12 -> 1 <= d <= 31 ->
  dateFields (encodeRt11DateFromSystem y m d) = (y, m, d)
  /\ formatRt11Date (encodeRt11DateFromSystem y m d)
     = twoDigits d +++ "-" +++ nth (Z.to_nat m) monthNames "" +++ "-"
         +++ twoDigits (y mod 100).
Proof.
  intros Hy Hm Hd.
  assert (Ha : 0 <= (y - 1972) / 32 < 4)
    by (split; [apply Z.div_pos; lia|apply Z.div_lt_upper_bound; lia]).
  pose proof (Z.mod_pos_bound (y - 1972) 32 ltac:(lia)) as Hr.
  assert (F : dateFields (encodeRt11DateFromSystem y m d) = (y, m, d)).
  { rewrite encodeRt11DateFromSystem_word by assumption.
    rewrite dateFields_packed by lia.
    repeat f_equal. Z.div_mod_to_equations; lia. }
  split; [exact F|].
  unfold formatRt11Date. rewrite F.
  replace (encodeRt11DateFromSystem y m d =? 0) with false.
  2:{ symmetry. apply Z.eqb_neq. rewrite encodeRt11DateFromSystem_word by assumption.
      lia. }
  replace ((m <? 1) || (m >? 12) || (d <? 1) || (d >? 31)) with false.
  2:{ symmetry. rewrite !orb_false_iff. rewrite !Z.ltb_ge.
      rewrite (gtb_false m 12), (gtb_false d 31) by lia. repeat split; lia. }
  rewrite Z.rem_mod_nonneg by lia. reflexivity.
Qed.

Lemma formatRt11Date_encodeRt11DateFromSystem_witness :
  dateFields (encodeRt11DateFromSystem 2024 2 29) = (2024, 2, 29)
  /\ formatRt11Date (encodeRt11DateFromSystem 2024 2 29) = "29-Feb-24".
Proof.
  apply (formatRt11Date_encodeRt11DateFromSystem 2024 2 29); lia.
Defined.

(* ------------------------------------------------------------------ *)
(** ** The [/todate] date string *)

(** Two digits are read back as the number they spell. *)
Lemma stoi_twoDigits_check :
  forallb (fun n => match stoi (twoDigits n) with
                    | Some v => v =? n
                    | None => false
                    end) (rangeZ 0 100) = true.
Proof. vm_compute. reflexivity. Qed.

Lemma stoi_twoDigits (n : Z) : 0 <= n < 100 -> stoi (twoDigits n) = Some n.
Proof.
  intros H. pose proof stoi_twoDigits_check as C.
  rewrite forallb_forall in C. specialize (C n (In_rangeZ 0 100 n ltac:(lia))).
  destruct (stoi (twoDigits n)) as [v|]; [|discriminate].
  apply Z.eqb_eq in C. rewrite C. reflexivity.
Qed.

(** [parseDateString] on a string of nine characters with the two dashes
    in place. *)
Lemma parseDateString_nine (d1 d2 m1 m2 m3 y1 y2 : ascii) :
  parseDateString
    (String d1 (String d2 (String "-" (String m1 (String m2 (String m3
       (String "-" (String y1 (String y2 "")))))))))
  = match stoi (String d1 (String d2 "")) with
    | None => None
    | Some day =>
      if (day <? 1) || (day >? 31) then None else
      let month :=
        monthNumber (upcase (String m1 (String m2 (String m3 ""))))
          monthNamesUpper 0 in
      if month =? 0 then None else
      match stoi (String y1 (String y2 "")) with
      | None => None
      | Some year2 =>
        let year := if year2 >=? 72 then 1900 + year2 else 2000 + year2 in
        if (year <? 1972) || (year >? 2099) then None
        else Some (day, month, year)
      end
    end.
Proof. reflexivity. Qed.

(** X6.  A printed date is read back; the century is the one the two-digit
    year stands for. *)
Theorem parseDateString_formatRt11Date (dateWord year month day : Z) :
  dateFields dateWord = (year, month, day) ->
  dateWord <> 0 -> 1 <= month <= 12 -> 1 <= day <= 31 ->
  parseDateString (formatRt11Date dateWord)
  = Some (day, month, if year <? 2072 then year else year - 100).
Proof.
  intros F Hw Hm Hd.
  pose proof (dateFields_range dateWord) as R.
  unfold formatRt11Date. rewrite F in *.
  destruct R as (Ry & _ & _).
  rewrite (eqb_false dateWord 0) by exact Hw.
  replace ((month <? 1) || (month >? 12) || (day <? 1) || (day >? 31)) with false.
  2:{ symmetry. rewrite !orb_false_iff. rewrite !Z.ltb_ge.
      rewrite (gtb_false month 12), (gtb_false day 31) by lia. repeat split; lia. }
  rewrite Z.rem_mod_nonneg by lia.
  pose proof (Z.mod_pos_bound year 100 ltac:(lia)) as Hy2.
  pose proof (stoi_twoDigits day ltac:(lia)) as Sd.
  pose proof (stoi_twoDigits (year mod 100) ltac:(lia)) as Sy.
  unfold twoDigits in *.
  assert (C : month = 1 \/ month = 2 \/ month = 3 \/ month = 4 \/ month = 5
              \/ month = 6 \/ month = 7 \/ month = 8 \/ month = 9
              \/ month = 10 \/ month = 11 \/ month = 12) by lia.
  assert (Y : (if year mod 100 >=? 72 then 1900 + year mod 100
               else 2000 + year mod 100)
              = (if year <? 2072 then year else year - 100)).
  { destruct (Z.geb_spec (year mod 100) 72), (Z.ltb_spec year 2072);
      Z.div_mod_to_equations; lia. }
  assert (Yr : forall y, 1972 <= y <= 2099 ->
                 ((if y <? 2072 then y else y - 100) <? 1972) = false
                 /\ ((if y <? 2072 then y else y - 100) >? 2099) = false).
  { intros y Hy. destruct (Z.ltb_spec y 2072);
      (split; [apply Z.ltb_ge|apply gtb_false]; lia). }
  destruct (Yr year Ry) as [Y1 Y2].
  repeat (destruct C as [->|C]); try subst month;
    match goal with
    | |- context [nth (Z.to_nat ?k) monthNames ""] =>
      let nm := eval vm_compute in (nth (Z.to_nat k) monthNames "") in
      change (nth (Z.to_nat k) monthNames "") with nm
    end;
    cbn [String.append]; rewrite parseDateString_nine, Sd, Sy;
    replace ((day <? 1) || (day >? 31)) with false
      by (symmetry; rewrite orb_false_iff, Z.ltb_ge, (gtb_false day 31) by lia;
          split; [lia|reflexivity]);
    match goal with
    | |- context [monthNumber ?s monthNamesUpper 0] =>
      let k := eval vm_compute in (monthNumber s monthNamesUpper 0) in
      change (monthNumber s monthNamesUpper 0) with k
    end;
    cbv beta iota zeta; rewrite Y, Y1, Y2; reflexivity.
Qed.

Lemma parseDateString_formatRt11Date_witness :
  parseDateString (formatRt11Date (encodeRt11DateFromSystem 1997 1 15))
  = Some (15, 1, 1997).
Proof.
  apply (parseDateString_formatRt11Date
           (encodeRt11DateFromSystem 1997 1 15) 1997 1 15);
    [reflexivity|discriminate|lia|lia].
Defined.

Lemma monthNumber_range (monthStr : string) (names : list string) :
  forall i, 0 <= i ->
    monthNumber monthStr names i = 0
    \/ i < monthNumber monthStr names i <= i + Z.of_nat (List.length names).
Proof.
  induction names as [|nm names IH]; intros i Hi; cbn [monthNumber];
    [left; reflexivity|].
  destruct (String.eqb monthStr nm).
  - right. cbn [List.length]. lia.
  - destruct (IH (i + 1) ltac:(lia)) as [H|H]; [left; exact H|right].
    cbn [List.length]. lia.
Qed.

Lemma isdigit_value (c : ascii) : isdigit c = true -> 0 <= digitValue c <= 9.
Proof.
  unfold isdigit, digitValue. intros H. apply andb_prop in H.
  destruct H as [H1 H2]. apply N.leb_le in H1, H2. lia.
Qed.

Lemma Some_eq {A : Type} (x y : A) : Some x = Some y -> x = y.
Proof. intros H. injection H as H. exact H. Qed.

Lemma readDigits_cons (c : ascii) (r : string) (acc : option Z) :
  readDigits (String c r) acc
  = if isdigit c
    then readDigits r
           (Some (10 * match acc with Some a => a | None => 0 end
                  + digitValue c))
    else acc.
Proof. reflexivity. Qed.

Lemma readDigits_nil (acc : option Z) : readDigits "" acc = acc.
Proof. reflexivity. Qed.

(** What [std::stoi] can return on at most two characters. *)
Lemma stoi_two_chars (s : string) (v : Z) :
  strlen s <= 2 -> stoi s = Some v -> -9 <= v <= 99.
Proof.
  intros Hlen. unfold stoi.
  destruct s as [|a [|b [|c s]]];
    try (exfalso; unfold strlen in Hlen; cbn [String.length] in Hlen; lia);
    cbn [skipSpaces]; rewrite ?readDigits_cons, ?readDigits_nil.
  - discriminate.
  - destruct (isspace a); rewrite ?readDigits_cons, ?readDigits_nil; cbv beta iota; [discriminate|].
    destruct (Ascii.eqb a "-"); [rewrite ?readDigits_cons, ?readDigits_nil; cbv beta iota; discriminate|].
    destruct (Ascii.eqb a "+"); [rewrite ?readDigits_cons, ?readDigits_nil; cbv beta iota; discriminate|].
    rewrite ?readDigits_cons, ?readDigits_nil; cbv beta iota. destruct (isdigit a) eqn:Da; [|discriminate].
    pose proof (isdigit_value _ Da) as Va.
    destruct (_ || _); [discriminate|]. intros H'. apply Some_eq in H'. lia.
  - assert (One : forall (x : ascii) (neg : bool) (w : Z),
              match readDigits (String x "") None with
              | Some v0 =>
                if ((if neg then - v0 else v0) <? -2147483648)
                   || ((if neg then - v0 else v0) >? 2147483647)
                then None else Some (if neg then - v0 else v0)
              | None => None
              end = Some w -> -9 <= w <= 9).
    { intros x neg w. rewrite ?readDigits_cons, ?readDigits_nil; cbv beta iota. destruct (isdigit x) eqn:Dx; [|discriminate].
      pose proof (isdigit_value _ Dx) as Vx.
      destruct (_ || _); [discriminate|]. intros H'. apply Some_eq in H'.
      destruct neg; lia. }
    destruct (isspace a).
    + destruct (isspace b); rewrite ?readDigits_cons, ?readDigits_nil; cbv beta iota; [discriminate|].
      destruct (Ascii.eqb b "-"); [rewrite ?readDigits_cons, ?readDigits_nil; cbv beta iota; discriminate|].
      destruct (Ascii.eqb b "+"); [rewrite ?readDigits_cons, ?readDigits_nil; cbv beta iota; discriminate|].
      intros H. apply (One b false) in H. lia.
    + destruct (Ascii.eqb a "-"); [intros H; apply (One b true) in H; lia|].
      destruct (Ascii.eqb a "+"); [intros H; apply (One b false) in H; lia|].
      rewrite ?readDigits_cons, ?readDigits_nil; cbv beta iota. destruct (isdigit a) eqn:Da; [|discriminate].
      pose proof (isdigit_value _ Da) as Va.
      destruct (isdigit b) eqn:Db.
      * pose proof (isdigit_value _ Db) as Vb.
        destruct (_ || _); [discriminate|]. intros H'. apply Some_eq in H'. lia.
      * destruct (_ || _); [discriminate|]. intros H'. apply Some_eq in H'. lia.
Qed.

Lemma strlen_substr (s : string) (pos n : Z) : strlen (substr s pos n) <= Z.max 0 n.
Proof.
  unfold substr, strlen.
  assert (G : forall (t : string) (a b : nat),
            (String.length (String.substring a b t) <= b)%nat).
  { induction t as [|c t IH]; intros [|a] [|b]; cbn [String.substring String.length];
      try lia; try apply IH.
    specialize (IH 0%nat b). lia. }
  specialize (G s (Z.to_nat pos) (Z.to_nat n)). lia.
Qed.

Lemma parseDateString_accepted (dateStr : string) (day month year : Z) :
  parseDateString dateStr = Some (day, month, year) ->
  strlen dateStr = 9
  /\ 1 <= day <= 31 /\ 1 <= month <= 12 /\ 1972 <= year <= 2071
  /\ encodeRt11Date year month day <> 0.
Proof.
  unfold parseDateString.
  destruct (Z.eqb_spec (strlen dateStr) 9) as [L|L]; [|discriminate].
  cbn [negb]. destruct (_ || _); [discriminate|].
  destruct (stoi (substr dateStr 0 2)) as [d|] eqn:Sd; [|discriminate].
  destruct ((d <? 1) || (d >? 31)) eqn:Rd; [discriminate|].
  apply orb_false_iff in Rd. destruct Rd as [Rd1 Rd2].
  apply Z.ltb_ge in Rd1. rewrite Z.gtb_ltb in Rd2. apply Z.ltb_ge in Rd2.
  cbv zeta.
  pose proof (monthNumber_range (upcase (substr dateStr 3 3)) monthNamesUpper 0
                ltac:(lia)) as M.
  change (Z.of_nat (List.length monthNamesUpper)) with 12 in M.
  set (m := monthNumber (upcase (substr dateStr 3 3)) monthNamesUpper 0) in *.
  clearbody m.
  destruct (Z.eqb_spec m 0) as [M0|M0]; [discriminate|].
  destruct (stoi (substr dateStr 7 2)) as [y2|] eqn:Sy; [|discriminate].
  apply stoi_two_chars in Sy; [|pose proof (strlen_substr dateStr 7 2); lia].
  assert (Y : forall y, y = (if y2 >=? 72 then 1900 + y2 else 2000 + y2) ->
                1972 <= y -> 1972 <= y <= 2071)
    by (intros y ->; destruct (Z.geb_spec y2 72); lia).
  set (y := if y2 >=? 72 then 1900 + y2 else 2000 + y2) in *.
  specialize (Y y eq_refl). clearbody y.
  destruct ((y <? 1972) || (y >? 2099)) eqn:Ry; [discriminate|].
  apply orb_false_iff in Ry. destruct Ry as [Ry1 _]. apply Z.ltb_ge in Ry1.
  specialize (Y Ry1).
  intros H. apply Some_eq in H.
  assert (Ed : d = day) by congruence.
  assert (Em : m = month) by congruence.
  assert (Ey : y = year) by congruence.
  subst day month year.
  repeat apply conj; try lia.
  intros E.
  pose proof (encodeRt11Date_fields y m d ltac:(lia) ltac:(lia) ltac:(lia)) as F.
  rewrite E in F. change (dateFields 0) with (1972, 0, 0) in F.
  assert (m = 0) by congruence. lia.
Qed.

(** X7.  What [parseDateString] accepts: nine characters, a day from 1 to
    31, a month of the table, a year from 1972 to 2071, and with them a
    date word that is not 0. *)
Theorem parseDateString_accepts (dateStr : string) (day month year : Z) :
  parseDateString dateStr = Some (day, month, year) ->
  strlen dateStr = 9
  /\ 1 <= day <= 31 /\ 1 <= month <= 12 /\ 1972 <= year <= 2071
  /\ encodeRt11Date year month day <> 0.
Proof. apply parseDateString_accepted. Qed.

Lemma parseDateString_accepts_witness :
  strlen "15-jan-97" = 9
  /\ 1 <= 15 <= 31 /\ 1 <= 1 <= 12 /\ 1972 <= 1997 <= 2071
  /\ encodeRt11Date 1997 1 15 <> 0.
Proof.
  apply (parseDateString_accepts "15-jan-97" 15 1 1997). reflexivity.
Defined.

(** X8.  [main] never reports that an accepted date failed to encode. *)
Theorem main_never_fails_to_encode (argv : list string) (toDateStr : string) :
  Main.main argv <> Main.FailedToEncodeDate toDateStr.
Proof.
  assert (P : forall args o, Main.parseArgs args o
                             <> inl (Main.FailedToEncodeDate toDateStr)).
  { induction args as [|arg rest IH]; intros o; cbn [Main.parseArgs];
      [discriminate|].
    repeat match goal with
           | |- (if ?c then _ else _) <> _ => destruct c
           | |- match Main.substrChecked ?a ?n with _ => _ end <> _ =>
             destruct (Main.substrChecked a n)
           | |- inl _ <> inl _ => discriminate
           | |- Main.parseArgs _ _ <> _ => apply IH
           end.
    destruct (parseDateString s) as [[[day month] year]|] eqn:Pd; [|discriminate].
    apply parseDateString_accepted in Pd. destruct Pd as (_ & _ & _ & _ & Ne).
    rewrite (eqb_false _ 0) by exact Ne. apply IH. }
  unfold Main.main. destruct argv as [|arg1 rest]; [discriminate|].
  destruct (Main.isHelp arg1); [discriminate|].
  destruct (Main.parseArgs rest Main.initial) as [e|o] eqn:E.
  - intros ->. exact (P _ _ E).
  - repeat match goal with
           | |- (if ?c then _ else _) <> _ => destruct c
           end; discriminate.
Qed.

(* ------------------------------------------------------------------ *)
(** ** The command line *)

Lemma substrChecked_skip (a b : string) :
  Main.substrChecked (a +++ b) (strlen a) = Some b.
Proof.
  unfold Main.substrChecked. rewrite strlen_append.
  rewrite gtb_false by (pose proof (strlen_nonneg b); lia).
  rewrite substrFrom_skip. reflexivity.
Qed.

Lemma main_copyfrom_rest (imagePath : string) (c : ascii) (rest : string) :
  Main.isHelp imagePath = false ->
  Main.main [imagePath; "/copyfrom:" +++ String c rest]
  = Main.RunCopyFrom imagePath rest "" false.
Proof.
  intros H. unfold Main.main. rewrite H.
  cbn [Main.parseArgs].
  change (Main.isHelp ("/copyfrom:" +++ String c rest)) with false.
  change (String.eqb ("/copyfrom:" +++ String c rest) "/brief"
          || String.eqb ("/copyfrom:" +++ String c rest) "/b") with false.
  change (String.eqb ("/copyfrom:" +++ String c rest) "/empty"
          || String.eqb ("/copyfrom:" +++ String c rest) "/e") with false.
  change (String.eqb ("/copyfrom:" +++ String c rest) "/copyfrom") with false.
  change (Main.startsWith ("/copyfrom:" +++ String c rest) "/copyfrom:") with true.
  cbv iota.
  change ("/copyfrom:" +++ String c rest)
    with (("/copyfrom:" +++ String c "") +++ rest).
  change 11 with (strlen ("/copyfrom:" +++ String c "")).
  rewrite substrChecked_skip. reflexivity.
Qed.

(** X9.  The pattern taken from [/copyfrom:PATTERN] lacks the first
    character of [PATTERN]; [/copyfrom:] alone ends the program with exit
    code 1. *)
Theorem main_copyfrom_pattern (imagePath : string) (c : ascii) (rest : string) :
  Main.isHelp imagePath = false ->
  Main.main [imagePath; "/copyfrom:" +++ String c rest]
  = Main.RunCopyFrom imagePath rest "" false
  /\ Main.main [imagePath; "/copyfrom:"] = Main.SubstrOutOfRange
  /\ Main.exitCode Main.SubstrOutOfRange = Some 1.
Proof.
  intros H. split; [apply main_copyfrom_rest; exact H|].
  unfold Main.main. rewrite H. split; reflexivity.
Qed.

Lemma main_copyfrom_pattern_witness :
  Main.main ["disk.dsk"; "/copyfrom:" +++ String "F" "OO.TXT"]
  = Main.RunCopyFrom "disk.dsk" "OO.TXT" "" false
  /\ Main.main ["disk.dsk"; "/copyfrom:"] = Main.SubstrOutOfRange
  /\ Main.exitCode Main.SubstrOutOfRange = Some 1.
Proof.
  apply (main_copyfrom_pattern "disk.dsk" "F" "OO.TXT"). reflexivity.
Defined.

(* ------------------------------------------------------------------ *)
(** ** RT-11 patterns *)

Lemma charAt_append_right (a : string) (c : ascii) (r : string) :
  charAt (a +++ String c r) (strlen a) = c.
Proof.
  unfold charAt, strlen. rewrite Nat2Z.id.
  pose proof (append_correct2 a (String c r) 0) as E. cbn [Nat.add] in E.
  rewrite <- E. reflexivity.
Qed.

(** The loop compares the tails left at index [i]. *)
Lemma matchChars_pointwise (va pa : string) :
  forall v p, String.length v = String.length p ->
    strlen va = strlen pa ->
    matchChars (String.length p) (va +++ v) (pa +++ p) (strlen pa)
    = pointwise charMatches p v.
Proof.
  intros v p. revert v va pa.
  induction p as [|y p IH]; intros [|x v] va pa Hlen Hpre;
    cbn [String.length] in Hlen; try discriminate; [reflexivity|].
  cbn [matchChars pointwise String.length]. rewrite (charAt_append_right pa y p).
  rewrite <- Hpre. rewrite (charAt_append_right va x v). rewrite Hpre.
  assert (Step : matchChars (String.length p) (va +++ String x v)
                   (pa +++ String y p) (strlen pa + 1)
                 = pointwise charMatches p v).
  { replace (va +++ String x v) with ((va +++ String x "") +++ v)
      by (rewrite append_assoc; reflexivity).
    replace (pa +++ String y p) with ((pa +++ String y "") +++ p)
      by (rewrite append_assoc; reflexivity).
    replace (strlen pa + 1) with (strlen (pa +++ String y ""))
      by (rewrite strlen_append; reflexivity).
    apply IH; [lia|]. rewrite !strlen_append. unfold strlen at 2 4.
    cbn [String.length]. lia. }
  rewrite Step. unfold charMatches.
  destruct (Ascii.eqb y "?"); [reflexivity|].
  destruct (Ascii.eqb y x); reflexivity.
Qed.

Lemma pointwise_length (f : ascii -> ascii -> bool) (a b : string) :
  pointwise f a b = true -> String.length a = String.length b.
Proof.
  revert b. induction a as [|x a IH]; intros [|y b] H; cbn [pointwise] in H;
    try discriminate; [reflexivity|].
  apply andb_prop in H. destruct H as [_ H]. cbn [String.length].
  rewrite (IH _ H). reflexivity.
Qed.

(** X10.  A pattern without [*] matches character by character, [?] standing
    for any one character. *)
Theorem matchComponent_without_star (value pattern : string) :
  pattern <> "" -> findChar "*" pattern 0 = None ->
  matchComponent value pattern = pointwise charMatches pattern value.
Proof.
  intros Hne Hstar. unfold matchComponent.
  assert (E1 : String.eqb pattern "*" = false).
  { apply String.eqb_neq. intros ->. discriminate Hstar. }
  assert (E2 : (strlen pattern =? 0) = false).
  { apply Z.eqb_neq. intros E. apply Hne, strlen_zero, E. }
  rewrite E1, E2, Hstar. cbn [orb].
  destruct (Z.eqb_spec (strlen value) (strlen pattern)) as [L|L]; cbn [negb].
  - apply (matchChars_pointwise "" "" value pattern); [|reflexivity].
    unfold strlen in L. lia.
  - destruct (pointwise charMatches pattern value) eqn:P; [|reflexivity].
    apply pointwise_length in P. unfold strlen in L. lia.
Qed.

Lemma matchComponent_without_star_witness :
  matchComponent "README" "R?ADM?" = pointwise charMatches "R?ADM?" "README".
Proof.
  apply (matchComponent_without_star "README" "R?ADM?");
    [discriminate|reflexivity].
Defined.

Lemma substring_zero_length (s : string) (n : nat) : String.substring n 0 s = "".
Proof.
  revert n. induction s as [|c s IH]; intros [|n]; cbn [String.substring];
    try reflexivity. apply IH.
Qed.

Lemma substring_split (s : string) :
  forall n, (n <= String.length s)%nat ->
    s = String.substring 0 n s +++ String.substring n (String.length s - n) s.
Proof.
  induction s as [|c s IH]; intros [|n] H; cbn [String.length] in *.
  - reflexivity.
  - lia.
  - cbn [String.substring String.append Nat.sub]. rewrite substring_all. reflexivity.
  - cbn [String.substring String.append Nat.sub]. rewrite <- IH by lia. reflexivity.
Qed.

Lemma substring_tail (s : string) :
  forall a k m, (a <= String.length s)%nat ->
    String.substring k m (String.substring a (String.length s - a) s)
    = String.substring (a + k) m s.
Proof.
  induction s as [|c s IH]; intros [|a] k m H; cbn [String.length] in *.
  - reflexivity.
  - lia.
  - rewrite Nat.sub_0_r.
    replace (String.substring 0 (S (String.length s)) (String c s)) with (String c s)
      by (symmetry; apply (substring_all (String c s))).
    reflexivity.
  - cbn [String.substring Nat.sub Nat.add]. apply IH. lia.
Qed.

Lemma length_substring_from (s : string) :
  forall a, (a <= String.length s)%nat ->
    String.length (String.substring a (String.length s - a) s)
    = (String.length s - a)%nat.
Proof.
  induction s as [|c s IH]; intros [|a] H; cbn [String.length] in *.
  - reflexivity.
  - lia.
  - rewrite Nat.sub_0_r.
    replace (String.substring 0 (S (String.length s)) (String c s)) with (String c s)
      by (symmetry; apply (substring_all (String c s))).
    reflexivity.
  - cbn [String.substring Nat.sub]. apply IH. lia.
Qed.

Lemma findChar_None_nil (c : ascii) : findChar c "" 0 = None.
Proof. reflexivity. Qed.

(** X11.  A pattern with [*] matches the values that begin with what stands
    before its first [*] and end with what stands after it, taken
    literally. *)
Theorem matchComponent_with_star (value pre suf : string) :
  findChar "*" pre 0 = None ->
  (matchComponent value (pre +++ String "*" suf) = true
   <-> exists mid, value = pre +++ mid +++ suf).
Proof.
  intros Hpre. apply findChar_None in Hpre.
  unfold matchComponent.
  destruct (String.eqb (pre +++ String "*" suf) "*") eqn:E1.
  { apply String.eqb_eq in E1.
    assert (pre = "" /\ suf = "") as [-> ->].
    { destruct pre as [|c pre]; cbn [String.append] in E1.
      - injection E1 as E1. split; [reflexivity|exact E1].
      - injection E1 as _ E1. destruct pre; discriminate E1. }
    cbn [orb]. split; [intros _|reflexivity].
    exists value. cbn [String.append]. rewrite append_nil_r. reflexivity. }
  assert (E2 : (strlen (pre +++ String "*" suf) =? 0) = false).
  { apply Z.eqb_neq. rewrite strlen_append. unfold strlen. cbn [String.length]. lia. }
  rewrite E2. cbn [orb].
  rewrite findChar_first by exact Hpre. rewrite Z.add_0_l.
  rewrite substr_prefix, substrFrom_after.
  split.
  - destruct (Z.ltb_spec (strlen value) (strlen pre + strlen suf)) as [L|L];
      [discriminate|].
    destruct (String.eqb_spec (substr value 0 (strlen pre)) pre) as [P|P];
      [|discriminate].
    cbn [negb].
    intros H.
    assert (S : strlen suf = 0
                \/ substr value (strlen value - strlen suf) (strlen suf) = suf).
    { destruct (Z.eqb_spec (strlen suf) 0) as [Z0|Z0]; [left; exact Z0|right].
      cbn [negb andb] in H.
      destruct (String.eqb_spec
                  (substr value (strlen value - strlen suf) (strlen suf)) suf)
        as [Q|Q]; [exact Q|discriminate H]. }
    clear H. unfold substr, strlen in *. rewrite ?Nat2Z.id in *.
    change (Z.to_nat 0) with 0%nat in P.
    set (a := String.length pre) in *. set (b := String.length suf) in *.
    set (n := String.length value) in *.
    assert (Hab : (a + b <= n)%nat) by lia.
    set (T := String.substring a (n - a) value).
    assert (LT : String.length T = (n - a)%nat)
      by (apply length_substring_from; lia).
    exists (String.substring 0 (n - a - b) T).
    rewrite (substring_split value a) at 1 by lia. fold n. fold T.
    rewrite P. f_equal.
    rewrite (substring_split T (n - a - b)) at 1 by lia.
    f_equal. rewrite LT.
    replace (n - a - (n - a - b))%nat with b by lia.
    unfold T.
    pose proof (substring_tail value a (n - a - b) b ltac:(lia)) as TL.
    fold n in TL. rewrite TL. clear TL.
    replace (a + (n - a - b))%nat with (n - b)%nat by lia.
    destruct S as [S|S].
    + assert (B0 : b = 0%nat) by lia.
      rewrite B0, substring_zero_length. symmetry. apply strlen_zero.
      exact S.
    + replace (Z.to_nat (Z.of_nat n - Z.of_nat b)) with (n - b)%nat in S by lia.
      exact S.
  - intros [mid ->].
    rewrite !strlen_append.
    pose proof (strlen_nonneg mid) as Hm.
    replace (strlen pre + (strlen mid + strlen suf) <? strlen pre + strlen suf)
      with false by (symmetry; apply Z.ltb_ge; lia).
    rewrite substr_prefix, String.eqb_refl. cbn [negb].
    replace (substr (pre +++ mid +++ suf)
               (strlen pre + (strlen mid + strlen suf) - strlen suf) (strlen suf))
      with suf.
    + rewrite String.eqb_refl. cbn [negb]. rewrite andb_false_r. reflexivity.
    + rewrite <- append_assoc. unfold substr.
      replace (strlen pre + (strlen mid + strlen suf) - strlen suf)
        with (strlen (pre +++ mid)) by (rewrite strlen_append; lia).
      unfold strlen. rewrite !Nat2Z.id. rewrite substring_skip.
      symmetry. apply substring_all.
Qed.

Lemma matchComponent_with_star_witness :
  matchComponent "REPORT" ("RE" +++ String "*" "T") = true
  <-> exists mid, "REPORT" = "RE" +++ mid +++ "T".
Proof.
  apply (matchComponent_with_star "REPORT" "RE" "T"). reflexivity.
Defined.

(** X12.  A pattern without an extension part, with an empty one and with
    the extension [*] select the same names. *)
Theorem matchRt11Pattern_any_extension (rtName patName : string) :
  findChar "." patName 0 = None ->
  matchRt11Pattern rtName (patName +++ ".") = matchRt11Pattern rtName patName
  /\ matchRt11Pattern rtName (patName +++ ".*") = matchRt11Pattern rtName patName
  /\ matchRt11Pattern rtName "*.*" = true
  /\ matchRt11Pattern rtName "" = true.
Proof.
  intros Hdot. unfold matchRt11Pattern.
  destruct (match findChar "." rtName 0 with
            | Some vpos => _ | None => _ end) as [valueName valueExt].
  rewrite Hdot. apply findChar_None in Hdot.
  change (patName +++ ".") with (patName +++ String "." "").
  change (patName +++ ".*") with (patName +++ String "." "*").
  rewrite !findChar_first by exact Hdot. rewrite Z.add_0_l.
  rewrite !substr_prefix, !substrFrom_after.
  repeat apply conj; reflexivity.
Qed.

Lemma matchRt11Pattern_any_extension_witness :
  matchRt11Pattern "FOO.TXT" ("FOO" +++ ".") = matchRt11Pattern "FOO.TXT" "FOO"
  /\ matchRt11Pattern "FOO.TXT" ("FOO" +++ ".*") = matchRt11Pattern "FOO.TXT" "FOO"
  /\ matchRt11Pattern "FOO.TXT" "*.*" = true
  /\ matchRt11Pattern "FOO.TXT" "" = true.
Proof.
  apply (matchRt11Pattern_any_extension "FOO.TXT" "FOO"). reflexivity.
Defined.

(* ------------------------------------------------------------------ *)
(** ** Bytes of the image around a written block *)

Lemma nth_padded (img : image) (n k : nat) :
  nth k (img ++ repeat x00 n) x00 = nth k img x00.
Proof.
  destruct (Nat.lt_ge_cases k (List.length img)) as [L|G].
  - apply app_nth1. exact L.
  - rewrite app_nth2 by exact G. rewrite nth_repeat.
    symmetry. apply nth_overflow. exact G.
Qed.

Lemma writeImage_length_eq (img : image) (block : Z) (buf : list byte) :
  List.length buf = 512%nat ->
  List.length (writeImage img block buf)
  = Nat.max (List.length img) (Z.to_nat (block * BLOCK_SIZE) + 512).
Proof.
  intros Hlen. unfold writeImage.
  set (off := Z.to_nat (block * BLOCK_SIZE)).
  rewrite !length_app, length_firstn, length_skipn, !length_app, repeat_length, Hlen.
  lia.
Qed.

Lemma nth_writeImage (img : image) (block : Z) (buf : list byte) (k : nat) :
  List.length buf = 512%nat ->
  nth k (writeImage img block buf) x00
  = if ((Z.to_nat (block * BLOCK_SIZE) <=? k)
        && (k <? Z.to_nat (block * BLOCK_SIZE) + 512))%nat
    then nth (k - Z.to_nat (block * BLOCK_SIZE)) buf x00
    else nth k img x00.
Proof.
  intros Hlen. unfold writeImage.
  set (off := Z.to_nat (block * BLOCK_SIZE)).
  set (padded := img ++ repeat x00 (off - List.length img)).
  assert (Hp : (off <= List.length padded)%nat).
  { subst padded. rewrite length_app, repeat_length. lia. }
  assert (Hf : List.length (firstn off padded) = off)
    by (apply firstn_length_le; exact Hp).
  destruct (Nat.leb_spec off k) as [L|L]; cbn [andb].
  - rewrite app_nth2 by lia. rewrite Hf.
    destruct (Nat.ltb_spec k (off + 512)) as [L2|L2].
    + apply app_nth1. lia.
    + rewrite app_nth2 by lia. rewrite Hlen, nth_skipn.
      replace (off + 512 + (k - off - 512))%nat with k by lia.
      apply nth_padded.
  - rewrite app_nth1 by lia. rewrite nth_firstn.
    replace (k <? off)%nat with true by (symmetry; apply Nat.ltb_lt; lia).
    apply nth_padded.
Qed.

Lemma readBlock_Ok (img : image) (block : Z) (x : list byte) :
  0 <= block ->
  (readBlock img block = Ok x
   <-> (Z.to_nat (block * BLOCK_SIZE) + 512 <= List.length img)%nat
       /\ x = firstn 512 (skipn (Z.to_nat (block * BLOCK_SIZE)) img)).
Proof.
  intros Hb. unfold readBlock.
  destruct (Z.leb_spec ((block + 1) * BLOCK_SIZE) (Z.of_nat (List.length img)))
    as [L|L]; unfold BLOCK_SIZE in *.
  - split.
    + intros H. injection H as <-. split; [lia|reflexivity].
    + intros [_ ->]. reflexivity.
  - split; [discriminate|]. intros [H _]. lia.
Qed.

(** A block that could be read is read unchanged after another block has
    been written. *)
Lemma readBlock_writeImage_other (img : image) (block block' : Z)
  (buf x : list byte) :
  0 <= block -> 0 <= block' -> block <> block' ->
  List.length buf = 512%nat ->
  readBlock img block' = Ok x ->
  readBlock (writeImage img block buf) block' = Ok x.
Proof.
  intros Hb Hb' Hne Hlen H.
  apply readBlock_Ok in H; [|exact Hb']. destruct H as [Hin ->].
  apply readBlock_Ok; [exact Hb'|].
  set (off := Z.to_nat (block * BLOCK_SIZE)) in *.
  set (off' := Z.to_nat (block' * BLOCK_SIZE)) in *.
  assert (Far : (off' + 512 <= off \/ off + 512 <= off')%nat)
    by (subst off off'; unfold BLOCK_SIZE; lia).
  split.
  - rewrite writeImage_length_eq by exact Hlen. lia.
  - apply (nth_ext _ _ x00 x00).
    + rewrite !length_firstn, !length_skipn, writeImage_length_eq by exact Hlen.
      fold off. lia.
    + intros n Hn. rewrite length_firstn, length_skipn in Hn.
      rewrite !nth_firstn.
      destruct (Nat.ltb_spec n 512) as [L|L]; [|reflexivity].
      rewrite !nth_skipn, nth_writeImage by exact Hlen. fold off.
      destruct (Nat.leb_spec off (off' + n)), (Nat.ltb_spec (off' + n) (off + 512));
        cbn [andb]; try reflexivity. lia.
Qed.

Lemma writeBlock_frame (block : Z) (buf : list byte) (d d' : disk) :
  0 <= block ->
  writeBlock block buf d = (Ok tt, d') ->
  readBlock (bytes d') block = Ok buf
  /\ forall block' x, 0 <= block' -> block' <> block ->
       readBlock (bytes d) block' = Ok x ->
       readBlock (bytes d') block' = Ok x.
Proof.
  intros Hb. unfold writeBlock.
  destruct (Z.eqb_spec (Z.of_nat (List.length buf)) BLOCK_SIZE) as [L|L];
    cbn [negb]; [|discriminate].
  unfold BLOCK_SIZE in L.
  intros H. assert (E : d' = {| bytes := writeImage (bytes d) block buf;
                                writes := writes d ++ [block] |}) by congruence.
  subst d'. cbn [bytes]. split.
  - apply readBlock_writeImage_same; lia.
  - intros block' x Hb' Hne Hx.
    apply readBlock_writeImage_other; try assumption; lia.
Qed.

(** X13.  A block written is the block read back, and the blocks that could
    be read before read the same after. *)
Theorem writeBlock_then_readBlock (block : Z) (buf : list byte) (d d' : disk) :
  0 <= block ->
  writeBlock block buf d = (Ok tt, d') ->
  readBlock (bytes d') block = Ok buf
  /\ forall block' x, 0 <= block' -> block' <> block ->
       readBlock (bytes d) block' = Ok x ->
       readBlock (bytes d') block' = Ok x.
Proof. apply writeBlock_frame. Qed.

Lemma writeBlock_then_readBlock_witness :
  readBlock (bytes (snd (writeBlock 2 (repeat x41 512) (freshDisk (blankBlocks 1)))))
    2 = Ok (repeat x41 512)
  /\ forall block' x, 0 <= block' -> block' <> 2 ->
       readBlock (bytes (freshDisk (blankBlocks 1))) block' = Ok x ->
       readBlock
         (bytes (snd (writeBlock 2 (repeat x41 512) (freshDisk (blankBlocks 1)))))
         block' = Ok x.
Proof.
  apply (writeBlock_then_readBlock 2 (repeat x41 512) (freshDisk (blankBlocks 1)));
    [lia|reflexivity].
Defined.

(* ------------------------------------------------------------------ *)
(** ** Runs of blocks *)

Lemma firstn_add {A : Type} (a b : nat) (l : list A) :
  firstn (a + b) l = firstn a l ++ firstn b (skipn a l).
Proof.
  revert l. induction a as [|a IH]; intros [|x l]; cbn [Nat.add firstn skipn app];
    try reflexivity.
  - rewrite firstn_nil. reflexivity.
  - rewrite IH. reflexivity.
Qed.

(** Consecutive 512-byte pieces of a list make up its prefix. *)
Lemma pieces_of_prefix (P : list byte) :
  forall n i, 0 <= i ->
    flat_map (fun j => firstn 512 (skipn (Z.to_nat (512 * j)) P)) (rangeZ i n)
    = firstn (512 * n) (skipn (Z.to_nat (512 * i)) P).
Proof.
  induction n as [|n IH]; intros i Hi.
  - reflexivity.
  - rewrite rangeZ_S. cbn [flat_map]. rewrite IH by lia.
    replace (512 * S n)%nat with (512 + 512 * n)%nat by lia.
    rewrite firstn_add, skipn_skipn. repeat f_equal. lia.
Qed.

Lemma fileBlock_length (data : list byte) (i : Z) :
  List.length (fileBlock data i) = 512%nat.
Proof.
  unfold fileBlock. rewrite length_app, repeat_length, length_firstn. lia.
Qed.

(** A block of a file is the corresponding piece of the file once it is
    zero filled far enough. *)
Lemma fileBlock_padded (data : list byte) (i : Z) (m : nat) :
  0 <= i ->
  (Z.to_nat (512 * (i + 1)) <= List.length data + m)%nat ->
  fileBlock data i
  = firstn 512 (skipn (Z.to_nat (512 * i)) (data ++ repeat x00 m)).
Proof.
  intros Hi Hm. apply (nth_ext _ _ x00 x00).
  - rewrite fileBlock_length, length_firstn, length_skipn, length_app, repeat_length.
    lia.
  - intros k Hk. rewrite fileBlock_length in Hk. unfold fileBlock.
    rewrite nth_padded, !nth_firstn.
    replace (k <? 512)%nat with true by (symmetry; apply Nat.ltb_lt; exact Hk).
    rewrite !nth_skipn, nth_padded. reflexivity.
Qed.

(** The blocks of a file, put end to end, are the file zero filled to
    whole blocks. *)
Lemma fileBlocks_paddedTo (data : list byte) (n : nat) :
  (List.length data <= 512 * n)%nat ->
  flat_map (fileBlock data) (rangeZ 0 n) = paddedTo (Z.of_nat n) data.
Proof.
  intros Hn. unfold paddedTo.
  replace (Z.to_nat (512 * Z.of_nat n)) with (512 * n)%nat by lia.
  set (P := data ++ repeat x00 (512 * n - List.length data)).
  assert (LP : List.length P = (512 * n)%nat)
    by (subst P; rewrite length_app, repeat_length; lia).
  transitivity (flat_map (fun j => firstn 512 (skipn (Z.to_nat (512 * j)) P))
                  (rangeZ 0 n)).
  - unfold rangeZ. rewrite !flat_map_concat_map, !map_map. f_equal.
    apply map_ext_in. intros k Hk. apply in_seq in Hk.
    apply fileBlock_padded; lia.
  - rewrite pieces_of_prefix by lia. cbn [Z.mul Z.to_nat skipn].
    apply firstn_all2. lia.
Qed.

(* ------------------------------------------------------------------ *)
(** ** File data written to the volume *)

(** The block [writeFileData] writes in the iteration that starts with
    [offset], and the offset it leaves. *)
Lemma writeFileData_step (data : list byte) (i : Z) :
  0 <= i -> Z.of_nat (List.length data) < 4294967296 ->
  let offset := Z.min (512 * i) (Z.of_nat (List.length data)) in
  let remaining := Z.of_nat (List.length data) - offset in
  let toCopy := if remaining >? BLOCK_SIZE then BLOCK_SIZE else remaining in
  (if toCopy >? 0
   then firstn (Z.to_nat toCopy) (skipn (Z.to_nat offset) data)
          ++ repeat x00 (Z.to_nat (BLOCK_SIZE - toCopy))
   else repeat x00 512) = fileBlock data i
  /\ (if toCopy >? 0 then u32 (offset + toCopy) else offset)
     = Z.min (512 * (i + 1)) (Z.of_nat (List.length data)).
Proof.
  intros Hi Hsz. cbv zeta. unfold BLOCK_SIZE, fileBlock.
  set (len := Z.of_nat (List.length data)) in *.
  destruct (Z.lt_ge_cases (512 * i) len) as [L|G].
  - rewrite (Z.min_l (512 * i) len) by lia.
    assert (Ls : List.length (skipn (Z.to_nat (512 * i)) data)
                 = Z.to_nat (len - 512 * i))
      by (rewrite length_skipn; subst len; lia).
    destruct (Z.gtb_spec (len - 512 * i) 512) as [Big|Small].
    + replace (512 >? 0) with true by reflexivity. split.
      * rewrite length_firstn, Ls.
        change (Z.to_nat 512) with 512%nat. change (512 - 512) with 0.
        replace (512 - Nat.min 512 (Z.to_nat (len - 512 * i)))%nat with 0%nat by lia.
        reflexivity.
      * unfold u32. rewrite Z.mod_small by lia. lia.
    + replace (len - 512 * i >? 0) with true by (symmetry; apply Z.gtb_lt; lia).
      split.
      * rewrite length_firstn, Ls.
        rewrite (firstn_all2 (n := Z.to_nat (len - 512 * i))) by lia.
        rewrite (firstn_all2 (n := 512)) by lia.
        f_equal. f_equal. lia.
      * unfold u32. rewrite Z.mod_small by lia. lia.
  - rewrite (Z.min_r (512 * i) len) by lia.
    replace (len - len) with 0 by lia.
    change (0 >? 512) with false. cbv iota.
    change (0 >? 0) with false. cbv iota. split.
    + rewrite (skipn_all2 (n := Z.to_nat (512 * i))) by (subst len; lia).
      reflexivity.
    + lia.
Qed.

(** After the data loop, the blocks it wrote hold the blocks of the file,
    and the other blocks that could be read before read the same. *)
Lemma writeFileData_blocks (data : list byte) (start : Z) :
  0 <= start -> Z.of_nat (List.length data) < 4294967296 ->
  forall n i d d',
    0 <= i -> start + i + Z.of_nat n <= 4294967296 ->
    writeFileData n data start i
      (Z.min (512 * i) (Z.of_nat (List.length data))) d = (Ok tt, d') ->
    (forall j, i <= j < i + Z.of_nat n ->
       readBlock (bytes d') (start + j) = Ok (fileBlock data j))
    /\ (forall b x, 0 <= b -> b < start + i \/ start + i + Z.of_nat n <= b ->
          readBlock (bytes d) b = Ok x -> readBlock (bytes d') b = Ok x).
Proof.
  intros Hs Hsz. induction n as [|n IH]; intros i d d' Hi Hend H.
  - cbn [writeFileData] in H. unfold retM in H.
    assert (d' = d) by congruence. subst d'. split; [intros j Hj; lia|].
    intros b x _ _ Hx. exact Hx.
  - cbn [writeFileData] in H.
    destruct (writeFileData_step data i Hi Hsz) as [Eb Eo].
    cbv zeta in Eb, Eo. rewrite Eb, Eo in H. clear Eb Eo.
    unfold bindM in H.
    destruct (writeBlock (u32 (start + i)) (fileBlock data i) d) as [r d1] eqn:W.
    destruct r as [[]| | |]; try discriminate H.
    assert (U : u32 (start + i) = start + i)
      by (unfold u32; apply Z.mod_small; lia).
    rewrite U in W.
    destruct (writeBlock_frame (start + i) (fileBlock data i) d d1
                ltac:(lia) W) as [Same Other].
    destruct (IH (i + 1) d1 d' ltac:(lia) ltac:(lia) H) as [Blocks Frame].
    split.
    + intros j Hj. destruct (Z.eq_dec j i) as [->|Ne].
      * apply Frame; [lia|left; lia|exact Same].
      * apply Blocks. lia.
    + intros b x Hb Hout Hx. apply Frame; [exact Hb|lia|].
      apply Other; [exact Hb|lia|exact Hx].
Qed.

(* ------------------------------------------------------------------ *)
(** ** Copying a file out of the volume *)

Lemma readFileBlocks_blocks (host : HostOut) (img : image) (e : Rt11Entry)
  (outPath : string) (B : Z -> list byte) :
  0 <= startBlock e ->
  (forall j, outAccepts host outPath j = true) ->
  forall n i out,
    0 <= i -> i + Z.of_nat n <= 65536 ->
    startBlock e + i + Z.of_nat n <= 4294967296 ->
    (forall j, i <= j < i + Z.of_nat n ->
       readBlock img (startBlock e + j) = Ok (B j)) ->
    readFileBlocks host n img e outPath i out
    = Return (out ++ flat_map B (rangeZ i n)).
Proof.
  intros Hs Hacc. induction n as [|n IH]; intros i out Hi H16 H32 HB.
  - cbn [readFileBlocks rangeZ seq map flat_map]. rewrite app_nil_r. reflexivity.
  - cbn [readFileBlocks].
    replace (u32 (startBlock e + i)) with (startBlock e + i)
      by (unfold u32; symmetry; apply Z.mod_small; lia).
    rewrite (HB i) by lia. rewrite Hacc. cbn [negb].
    destruct n as [|n'].
    + cbn [readFileBlocks rangeZ seq map flat_map].
      rewrite Z.add_0_r, app_nil_r. reflexivity.
    + rewrite u16_small by lia.
      rewrite IH; try lia.
      * rewrite rangeZ_S with (n := S n'). cbn [flat_map].
        rewrite <- app_assoc. reflexivity.
      * intros j Hj. apply HB. lia.
Qed.

Lemma readBlock_inside (img : image) (block : Z) :
  0 <= block -> (block + 1) * 512 <= Z.of_nat (List.length img) ->
  readBlock img block
  = Ok (firstn 512 (skipn (Z.to_nat (512 * block)) img)).
Proof.
  intros Hb Hin. unfold readBlock, BLOCK_SIZE.
  replace ((block + 1) * 512 <=? Z.of_nat (List.length img)) with true
    by (symmetry; apply Z.leb_le; exact Hin).
  rewrite (Z.mul_comm block 512). reflexivity.
Qed.

(** X14.  [copySingleFromRt11] writes exactly the bytes of the entry's blocks,
    and no read of the image fails once its range check has passed. *)
Theorem copySingleFromRt11_extracts (host : HostOut) (img : image)
  (totalBlocks : Z) (e : Rt11Entry) (outPath : string) (noReplace : bool) :
  permanent e = true ->
  0 < startBlock e < 65536 -> 0 <= lengthBlocks e < 65536 ->
  startBlock e + lengthBlocks e <= totalBlocks ->
  totalBlocks * 512 <= Z.of_nat (List.length img) ->
  noReplace && outExists host outPath = false ->
  outCreatable host outPath = true ->
  (forall j, outAccepts host outPath j = true) ->
  copySingleFromRt11 host img totalBlocks e outPath noReplace
  = Return (CopiedOut outPath
              (firstn (512 * Z.to_nat (lengthBlocks e))
                 (skipn (512 * Z.to_nat (startBlock e)) img))).
Proof.
  intros Hperm Hs Hl Hend Himg Hskip Hcre Hacc.
  unfold copySingleFromRt11. rewrite Hperm, Hskip, Hcre. cbn [negb].
  replace (startBlock e =? 0) with false by (symmetry; apply Z.eqb_neq; lia).
  replace (u32 (startBlock e + lengthBlocks e - 1))
    with (startBlock e + lengthBlocks e - 1)
    by (unfold u32; symmetry; apply Z.mod_small; lia).
  replace (startBlock e + lengthBlocks e - 1 >=? totalBlocks) with false
    by (symmetry; rewrite Z.geb_leb; apply Z.leb_gt; lia).
  cbn [orb].
  rewrite (readFileBlocks_blocks host img e outPath
             (fun j => firstn 512
                         (skipn (Z.to_nat (512 * (startBlock e + j))) img)));
    try lia; try assumption.
  - cbn [app]. f_equal. f_equal.
    transitivity (flat_map
                    (fun j => firstn 512 (skipn (Z.to_nat (512 * j)) img))
                    (rangeZ (startBlock e) (Z.to_nat (lengthBlocks e)))).
    + unfold rangeZ. rewrite !flat_map_concat_map, !map_map. reflexivity.
    + rewrite pieces_of_prefix by lia.
      replace (Z.to_nat (512 * startBlock e))
        with (512 * Z.to_nat (startBlock e))%nat by lia.
      reflexivity.
  - intros j Hj. apply readBlock_inside; lia.
Qed.

Lemma copySingleFromRt11_extracts_witness :
  copySingleFromRt11 willingHost gapThenFile 13 fileEntryA "A" false
  = Return (CopiedOut "A"
              (firstn (512 * Z.to_nat (lengthBlocks fileEntryA))
                 (skipn (512 * Z.to_nat (startBlock fileEntryA)) gapThenFile))).
Proof.
  apply (copySingleFromRt11_extracts willingHost gapThenFile 13 fileEntryA "A" false);
    try reflexivity; try (cbn [startBlock lengthBlocks fileEntryA]; lia).
Defined.

(** X15.  A file written by the data loop and copied out again comes back
    zero filled to whole blocks. *)
Theorem writeFileData_then_copySingleFromRt11 (host : HostOut)
  (data : list byte) (start n totalBlocks : Z) (d d' : disk) (e : Rt11Entry)
  (outPath : string) (noReplace : bool) :
  0 < start < 65536 -> 0 <= n < 65536 ->
  Z.of_nat (List.length data) <= 512 * n ->
  writeFileData (Z.to_nat n) data start 0 0 d = (Ok tt, d') ->
  permanent e = true -> startBlock e = start -> lengthBlocks e = n ->
  start + n <= totalBlocks ->
  noReplace && outExists host outPath = false ->
  outCreatable host outPath = true ->
  (forall j, outAccepts host outPath j = true) ->
  copySingleFromRt11 host (bytes d') totalBlocks e outPath noReplace
  = Return (CopiedOut outPath (paddedTo n data)).
Proof.
  intros Hs Hn Hfit Hw Hperm Es El Hend Hskip Hcre Hacc.
  destruct (writeFileData_blocks data start ltac:(lia) ltac:(lia)
              (Z.to_nat n) 0 d d' ltac:(lia) ltac:(lia)) as [Blocks _].
  { rewrite Z.min_l by lia. exact Hw. }
  unfold copySingleFromRt11. rewrite Hperm, Hskip, Hcre, Es, El. cbn [negb].
  replace (start =? 0) with false by (symmetry; apply Z.eqb_neq; lia).
  replace (u32 (start + n - 1)) with (start + n - 1)
    by (unfold u32; symmetry; apply Z.mod_small; lia).
  replace (start + n - 1 >=? totalBlocks) with false
    by (symmetry; rewrite Z.geb_leb; apply Z.leb_gt; lia).
  cbn [orb].
  rewrite (readFileBlocks_blocks host (bytes d') e outPath (fileBlock data));
    try lia; try assumption.
  - cbn [app]. rewrite fileBlocks_paddedTo by lia.
    rewrite Z2Nat.id by lia. reflexivity.
  - intros j Hj. rewrite Es. apply Blocks. lia.
Qed.

Lemma writeFileData_then_copySingleFromRt11_witness :
  copySingleFromRt11 willingHost
    (bytes (snd (writeFileData 1 [x41] 10 0 0 (freshDisk fileThenGap))))
    13 fileEntryF "F" false
  = Return (CopiedOut "F" (paddedTo 1 [x41])).
Proof.
  apply (writeFileData_then_copySingleFromRt11 willingHost [x41] 10 1 13
           (freshDisk fileThenGap)
           (snd (writeFileData 1 [x41] 10 0 0 (freshDisk fileThenGap)))
           fileEntryF "F" false);
    try lia; try reflexivity.
  cbn [List.length]. lia.
Defined.

(* ------------------------------------------------------------------ *)
(** ** The file on the volume after a copy *)

Lemma findEmptyEntry_In (entries : list Rt11Entry) (blocksNeeded : Z)
  (e : Rt11Entry) :
  findEmptyEntry entries blocksNeeded = Some e -> In e entries.
Proof.
  intros H. pose proof (findEmptyEntry_first_fit entries blocksNeeded) as F.
  rewrite H in F. destruct F as (before & after & -> & _).
  apply in_or_app. right. left. reflexivity.
Qed.

Lemma readDirectory_startBlock_range (img : image) (tb : Z)
  (entries : list Rt11Entry) (w : option warning) (e : Rt11Entry) :
  readDirectory img tb = Ok (entries, w) -> In e entries ->
  0 <= startBlock e < 65536.
Proof.
  intros H Hin. apply readDirectory_startsFrom in H. destruct H as [S _].
  apply In_nth_error in Hin. destruct Hin as [i Hi].
  destruct (S i e Hi) as [-> _]. apply u16_range.
Qed.

Lemma copySingleToRt11_stores_data_aux
  (src : HostFile) (noReplace : bool) (optionalDateWord : Z)
  (today : Z * Z * Z) :
  forall fuel d d' rtname,
    copySingleToRt11 src noReplace optionalDateWord today fuel d
    = (Ok (Copied rtname), d') ->
    dataOnVolume src d d'.
Proof.
  induction fuel as [|fuel IH]; intros d d' rtname.
  - cbn. discriminate.
  - cbn [copySingleToRt11].
    cbv beta iota zeta delta [bindM readM throwM retM writeBlock].
    repeat (first [runStop | runStep]).
    + (* after a split: the retry *)
      intros H. apply IH in H.
      destruct H as (dA & data' & e' & dB & fdb' & words' & Hre & H).
      exists dA, data', e', dB, fdb', words'. split; [|exact H].
      attemptFacts src. eapply retried_split; eassumption.
    + (* the directory update *)
      intros H. injection H as _ <-.
      attemptFacts src.
      match goal with
      | Ha : attemptAt src d ?data ?e ?d2 ?fdb ?ws,
        Hn : needsSplit ?ws ?e _ = false,
        Hr : readDirectory (bytes d) _ = Ok (?entries, ?w),
        Hf : findEmptyEntry ?entries _ = Some ?e,
        Hk : (startBlock ?e =? 0) || _ = false,
        Hw : writeFileData _ _ _ _ _ d = (Ok tt, ?d2),
        Hl : negb (Z.of_nat (List.length (lowBlock ?ws')) =? BLOCK_SIZE) = false,
        Hh : negb (Z.of_nat (List.length (highBlock ?ws')) =? BLOCK_SIZE) = false
        |- _ =>
        pose proof (readDirectory_startBlock_range _ _ _ _ e Hr
                      (findEmptyEntry_In _ _ _ Hf)) as Range;
        apply orb_false_iff in Hk; destruct Hk as [Hk _];
        apply Z.eqb_neq in Hk;
        apply negb_false_iff, Z.eqb_eq in Hl;
        apply negb_false_iff, Z.eqb_eq in Hh;
        unfold BLOCK_SIZE in Hl, Hh;
        exists d, data, e, d2, fdb, ws;
        split; [apply retried_none|];
        split; [exact Ha|]; split; [exact Hn|]; split; [lia|];
        intros Hsz Hbelow j Hj; cbn [bytes];
        pose proof (blocksNeededFor_pos data) as Hpos;
        assert (Hcount : blocksNeededFor data <= 8388608)
          by (unfold blocksNeededFor, u32, BLOCK_SIZE in *;
              destruct (_ =? 0); Z.div_mod_to_equations; lia);
        destruct (writeFileData_blocks data (startBlock e) ltac:(lia) Hsz
                    (Z.to_nat (blocksNeededFor data)) 0 d d2
                    ltac:(lia) ltac:(lia)) as [Blocks _];
        [rewrite Z.min_l by lia; exact Hw|];
        assert (Hseg : 0 <= segmentBlock fdb (segNumber e))
          by (unfold segmentBlock, u32; apply Z.mod_pos_bound; lia);
        assert (Hseg1 : u32 (segmentBlock fdb (segNumber e) + 1)
                        = segmentBlock fdb (segNumber e) + 1)
          by (unfold u32 at 1; apply Z.mod_small; lia);
        rewrite Hseg1;
        apply readBlock_writeImage_other; try lia;
        apply readBlock_writeImage_other; try lia;
        apply Blocks; lia
      end.
Qed.

(** X16.  After a copy that succeeded, the blocks of the area chosen in the
    last attempt hold the blocks of the file. *)
Theorem copySingleToRt11_stores_data (src : HostFile) (noReplace : bool)
  (optionalDateWord : Z) (today : Z * Z * Z) (fuel : nat) (d d' : disk)
  (rtname : string) :
  copySingleToRt11 src noReplace optionalDateWord today fuel d
  = (Ok (Copied rtname), d') ->
  dataOnVolume src d d'.
Proof. apply copySingleToRt11_stores_data_aux. Qed.

Lemma copySingleToRt11_stores_data_witness :
  dataOnVolume tinyFile (freshDisk fileThenGap)
    (snd (afterCopy fileThenGap tinyFile)).
Proof.
  apply (copySingleToRt11_stores_data tinyFile false 0 (1999, 1, 15) 4
           (freshDisk fileThenGap) (snd (afterCopy fileThenGap tinyFile)) "F").
  vm_compute. reflexivity.
Defined.

(** When the first attempt already finds room, it is the last one: the
    blocks of the area it chose hold the file. *)
Lemma dataOnVolume_first_attempt (src : HostFile) (d d' : disk)
  (data : list byte) (e : Rt11Entry) (d2 : disk) (firstDirBlock : Z)
  (words : list Z) :
  dataOnVolume src d d' ->
  attemptAt src d data e d2 firstDirBlock words ->
  needsSplit words e (blocksNeededFor data) = false ->
  Z.of_nat (List.length data) < 4294967296 ->
  segmentBlock firstDirBlock (segNumber e) + 1 < startBlock e ->
  forall j, 0 <= j < blocksNeededFor data ->
    readBlock (bytes d') (startBlock e + j) = Ok (fileBlock data j).
Proof.
  intros (d1 & data' & e' & d2' & fdb' & words' & Hre & A' & N' & _ & B) A N.
  destruct (lastAttempt_unique src d d1 Hre data' e' d2' fdb' words' A' N'
              d (retried_none src d) data e d2 firstDirBlock words A N)
    as (_ & -> & -> & ->).
  exact B.
Qed.

(* ------------------------------------------------------------------ *)
(** ** The entries the reader returns *)

Lemma decodeFileName_length (name1 name2 ext : Z) (nm : string) :
  decodeFileName name1 name2 ext = Some nm -> strlen nm <= 10.
Proof.
  unfold decodeFileName.
  destruct (decodeRad50 name1) as [d1|]; [|discriminate].
  destruct (decodeRad50 name2) as [d2|]; [|discriminate].
  destruct (decodeRad50 ext) as [d3|]; [|discriminate].
  set (base := if strlen (d1 +++ d2) >? 6 then _ else _).
  set (extension := if strlen d3 >? 3 then _ else _).
  assert (Hb : strlen base <= 6).
  { subst base. destruct (Z.gtb_spec (strlen (d1 +++ d2)) 6); [|lia].
    pose proof (strlen_substr (d1 +++ d2) 0 6). lia. }
  assert (He : strlen extension <= 3).
  { subst extension. destruct (Z.gtb_spec (strlen d3) 3); [|lia].
    pose proof (strlen_substr d3 0 3). lia. }
  destruct (strlen extension =? 0); intros H; apply Some_eq in H; subst nm.
  - lia.
  - rewrite !strlen_append. unfold strlen at 2. cbn [String.length]. lia.
Qed.

Lemma parseEntries_entries (dsb : Z) (words : list Z) (ew seg : Z) :
  (forall i, 0 <= getw words i < 65536) ->
  7 <= ew -> 1 <= seg <= 31 ->
  forall fuel idx off acc acc' off',
    5 <= idx ->
    parseEntries dsb fuel words ew seg idx off acc = Ok (acc', off') ->
    Forall wellFormedEntry acc ->
    Forall wellFormedEntry acc'
    /\ Z.of_nat (List.length acc') * 7
       <= Z.of_nat (List.length acc) * 7 + Z.max 0 (512 - idx).
Proof.
  intros R Hew Hseg.
  induction fuel as [|fuel IH]; intros idx off acc acc' off' Hidx H Hacc.
  - discriminate H.
  - revert H. cbn [parseEntries].
    destruct (Z.leb_spec (idx + ew) 512) as [G|G]; cbn [negb].
    2:{ intros H. injection H as <- <-. split; [exact Hacc|lia]. }
    destruct (Z.eqb_spec (Z.land (getw words (idx + 0)) E_EOS) 0) as [E|E];
      cbn [negb].
    2:{ intros H. injection H as <- <-. split; [exact Hacc|lia]. }
    destruct (Z.eqb_spec (getw words (idx + 0)) 0) as [Z0|Z0].
    { intros H. injection H as <- <-. split; [exact Hacc|lia]. }
    destruct (decodeFileName _ _ _) as [nm|] eqn:D; [|discriminate].
    rewrite (u16_small (idx + ew)) by lia.
    intros H. apply IH in H; [|lia|].
    + destruct H as [F C]. split; [exact F|].
      rewrite length_app in C. cbn [List.length] in C. lia.
    + apply Forall_app. split; [exact Hacc|]. constructor; [|constructor].
      pose proof (decodeFileName_length _ _ _ _ D) as Hn.
      unfold wellFormedEntry.
      cbn [eos status tentative empty permanent segNumber wordIndex
           lengthBlocks startBlock dateWord name].
      cbn [negb].
      pose proof (R (idx + 0)). pose proof (R (idx + 4)). pose proof (R (idx + 6)).
      pose proof (u16_range (u32 (dsb + off))).
      repeat apply conj; try reflexivity; try assumption; try lia.
Qed.

Lemma unvisited_positive (v : list bool) :
  v <> [] -> nth 0 v false = false -> (1 <= unvisited v)%nat.
Proof.
  destruct v as [|b v]; [congruence|]. intros _ H. cbn [nth] in H. subst b.
  unfold unvisited. cbn [filter negb List.length]. lia.
Qed.

Lemma nth_markSegment_zero (v : list bool) (i : Z) :
  1 <= i -> v <> [] -> nth 0 (markSegment v i) false = nth 0 v false.
Proof.
  intros Hi Hv. unfold markSegment.
  destruct (Z.to_nat i) as [|n] eqn:E; [lia|].
  destruct v as [|b v]; [congruence|]. reflexivity.
Qed.

(** The walk adds at most 72 entries for each segment it marks. *)
Lemma walkSegments_entries (img : image) (tb fdb ts dsb : Z) :
  ts <= 31 ->
  forall fuel cur visited off acc entries w,
    List.length visited = Z.to_nat (ts + 1) ->
    walkSegments img tb fdb ts dsb fuel cur visited off acc = Ok (entries, w) ->
    Forall wellFormedEntry acc ->
    Forall wellFormedEntry entries
    /\ exists visited',
         List.length visited' = List.length visited
         /\ (nth 0 visited false = false -> nth 0 visited' false = false)
         /\ (List.length entries + 72 * unvisited visited'
             <= List.length acc + 72 * unvisited visited)%nat.
Proof.
  intros Hts.
  induction fuel as [|fuel IH]; intros cur visited off acc entries w Hlen H Hacc.
  - discriminate H.
  - revert H. cbn [walkSegments].
    assert (Stop : forall x, Ok (acc, x) = Ok (entries, w) ->
              Forall wellFormedEntry entries
              /\ exists visited',
                   List.length visited' = List.length visited
                   /\ (nth 0 visited false = false -> nth 0 visited' false = false)
                   /\ (List.length entries + 72 * unvisited visited'
                       <= List.length acc + 72 * unvisited visited)%nat).
    { intros x H. injection H as <- _. split; [exact Hacc|].
      exists visited. repeat split; try tauto; lia. }
    destruct (cur =? 0); [apply Stop|].
    destruct ((cur <? 1) || (cur >? ts)) eqn:Hrange; [apply Stop|].
    destruct (nth (Z.to_nat cur) visited false) eqn:Hvis; [apply Stop|].
    destruct (u32 (segmentBlock fdb cur + 1) >=? tb); [apply Stop|].
    apply orb_false_elim in Hrange as [H1 H2].
    apply Z.ltb_ge in H1. rewrite Z.gtb_ltb in H2. apply Z.ltb_ge in H2.
    unfold obind.
    destruct (readSegmentWords img (segmentBlock fdb cur)) as [words| | |] eqn:Hread;
      try discriminate.
    pose proof (readSegmentWords_range _ _ _ Hread) as R.
    pose proof (entryWordsOf_range _ R) as Hew.
    destruct (parseEntries dsb wordsPerSegment words _ cur 5 off acc)
      as [[acc1 off1]| | |] eqn:Hparse; try discriminate.
    cbn [fst snd]. intros H.
    destruct (parseEntries_entries dsb words
                (entryWordsOf (parseSegmentHeader words)) cur R
                ltac:(lia) ltac:(lia)
                _ _ _ _ _ _ (Z.le_refl 5) Hparse Hacc) as [F1 C1].
    apply IH in H; [|rewrite markSegment_length; [exact Hlen|lia]|exact F1].
    destruct H as (F & visited' & L' & Z' & C). split; [exact F|].
    exists visited'. split; [|split].
    + rewrite L'. apply markSegment_length. lia.
    + intros Z0. apply Z'. rewrite nth_markSegment_zero; [exact Z0|lia|].
      intros ->. cbn [List.length] in Hlen. lia.
    + pose proof (unvisited_markSegment visited (Z.to_nat cur)
                    ltac:(lia) Hvis) as U.
      unfold markSegment in C. lia.
Qed.

Lemma readDirectory_entries_aux (img : image) (tb : Z)
  (entries : list Rt11Entry) (w : option warning) :
  readDirectory img tb = Ok (entries, w) ->
  Forall wellFormedEntry entries /\ (List.length entries <= 72 * 31)%nat.
Proof.
  unfold readDirectory, obind.
  destruct (getFirstDirectoryBlock img) as [fdb| | |]; try discriminate.
  destruct (fdb >=? tb); [discriminate|].
  destruct (readSegmentWords img fdb) as [words| | |] eqn:Hread; try discriminate.
  pose proof (readSegmentWords_range _ _ _ Hread 0) as R0.
  set (ts := if (totalSegments (parseSegmentHeader words) =? 0)
                || (totalSegments (parseSegmentHeader words) >? 31)
             then 1 else totalSegments (parseSegmentHeader words)).
  assert (Hts : 1 <= ts <= 31).
  { subst ts. cbn [totalSegments parseSegmentHeader] in *.
    destruct (Z.eqb_spec (getw words 0) 0); cbn [orb]; [lia|].
    destruct (Z.gtb_spec (getw words 0) 31); lia. }
  clearbody ts. intros H.
  apply walkSegments_entries in H;
    [|lia|rewrite repeat_length; reflexivity|constructor].
  destruct H as (F & visited' & L' & Z' & C). split; [exact F|].
  rewrite repeat_length in L'. rewrite unvisited_repeat in C.
  assert (P : (1 <= unvisited visited')%nat).
  { apply unvisited_positive.
    - intros ->. cbn [List.length] in L'. lia.
    - apply Z'. destruct (Z.to_nat (ts + 1)) eqn:E; [lia|reflexivity]. }
  cbn [List.length] in C. lia.
Qed.

(** X17.  Every entry [readDirectory] returns is well formed, and there are at
    most 72 for each of at most 31 segments. *)
Theorem readDirectory_entries (img : image) (totalBlocks : Z)
  (entries : list Rt11Entry) (w : option warning) :
  readDirectory img totalBlocks = Ok (entries, w) ->
  Forall wellFormedEntry entries /\ (List.length entries <= 72 * 31)%nat.
Proof. apply readDirectory_entries_aux. Qed.

Lemma readDirectory_entries_witness :
  Forall wellFormedEntry [gapEntry; fileEntryA]
  /\ (List.length [gapEntry; fileEntryA] <= 72 * 31)%nat.
Proof.
  apply (readDirectory_entries gapThenFile (totalBlocksOf gapThenFile)
           [gapEntry; fileEntryA] None).
  vm_compute. reflexivity.
Defined.

(* ------------------------------------------------------------------ *)
(** ** Where the reader can fail *)

Lemma totalBlocksOf_inside (img : image) :
  0 <= totalBlocksOf img
  /\ totalBlocksOf img * 512 <= Z.of_nat (List.length img).
Proof.
  unfold totalBlocksOf, u32, BLOCK_SIZE.
  pose proof (Z.mod_pos_bound (Z.of_nat (List.length img) / 512) 4294967296
                ltac:(lia)).
  assert (0 <= Z.of_nat (List.length img) / 512) by (apply Z.div_pos; lia).
  pose proof (Z.mod_le (Z.of_nat (List.length img) / 512) 4294967296
                ltac:(lia) ltac:(lia)).
  split; [lia|]. Z.div_mod_to_equations. lia.
Qed.

Lemma readBlock_readable (img : image) (block : Z) :
  (block + 1) * 512 <= Z.of_nat (List.length img) ->
  exists x, readBlock img block = Ok x.
Proof.
  intros H. unfold readBlock, BLOCK_SIZE.
  replace ((block + 1) * 512 <=? Z.of_nat (List.length img)) with true
    by (symmetry; apply Z.leb_le; exact H).
  eexists. reflexivity.
Qed.

(** Inside the volume, as the walk checks it, both blocks of a segment can
    be read. *)
Lemma readSegmentWords_inside (img : image) (fdb seg : Z) :
  0 <= fdb < 65536 -> 1 <= seg <= 31 ->
  (u32 (segmentBlock fdb seg + 1) >=? totalBlocksOf img) = false ->
  exists words, readSegmentWords img (segmentBlock fdb seg) = Ok words.
Proof.
  intros Hf Hs G. rewrite Z.geb_leb in G. apply Z.leb_gt in G.
  destruct (totalBlocksOf_inside img) as [T0 T1].
  assert (E : segmentBlock fdb seg = fdb + (seg - 1) * 2)
    by (unfold segmentBlock, u32, DIR_SEGMENT_BLOCKS; apply Z.mod_small; lia).
  rewrite E in *.
  assert (E1 : u32 (fdb + (seg - 1) * 2 + 1) = fdb + (seg - 1) * 2 + 1)
    by (unfold u32; apply Z.mod_small; lia).
  rewrite E1 in G.
  unfold readSegmentWords, obind.
  destruct (readBlock_readable img (fdb + (seg - 1) * 2) ltac:(lia)) as [b0 ->].
  rewrite E1.
  destruct (readBlock_readable img (fdb + (seg - 1) * 2 + 1) ltac:(lia)) as [b1 ->].
  eexists. reflexivity.
Qed.

Lemma walkSegments_never_throws (img : image) (fdb ts dsb : Z) :
  0 <= fdb < 65536 -> ts <= 31 ->
  forall fuel cur visited off acc e,
    walkSegments img (totalBlocksOf img) fdb ts dsb fuel cur visited off acc
    <> Throw e.
Proof.
  intros Hf Hts.
  induction fuel as [|fuel IH]; intros cur visited off acc e; [discriminate|].
  cbn [walkSegments].
  destruct (cur =? 0); [discriminate|].
  destruct ((cur <? 1) || (cur >? ts)) eqn:Hrange; [discriminate|].
  destruct (nth (Z.to_nat cur) visited false); [discriminate|].
  destruct (u32 (segmentBlock fdb cur + 1) >=? totalBlocksOf img) eqn:G;
    [discriminate|].
  apply orb_false_elim in Hrange as [H1 H2].
  apply Z.ltb_ge in H1. rewrite Z.gtb_ltb in H2. apply Z.ltb_ge in H2.
  destruct (readSegmentWords_inside img fdb cur Hf ltac:(lia) G) as [words ->].
  unfold obind.
  destruct (parseEntries dsb wordsPerSegment words _ cur 5 off acc)
    as [r| | |] eqn:P; try discriminate.
  - apply IH.
  - exfalso. exact (parseEntries_throws _ _ _ _ _ _ _ _ _ P).
Qed.

(** X18.  Reading the directory of a whole image can fail in three places
    only: at the home block, at the range check of the first directory
    block, and at the second block of the first segment. *)
Theorem readDirectory_failures (img : image) (e : error) :
  readDirectory img (totalBlocksOf img) = Throw e ->
  e = ReadBlockFailed 1
  \/ e = FirstDirBlockOutOfRange
  \/ exists firstDirBlock,
       getFirstDirectoryBlock img = Ok firstDirBlock
       /\ e = ReadBlockFailed (firstDirBlock + 1)
       /\ totalBlocksOf img = firstDirBlock + 1.
Proof.
  unfold readDirectory, obind.
  destruct (getFirstDirectoryBlock img) as [fdb|err| |] eqn:Hfdb;
    try discriminate.
  2:{ intros H. left. unfold getFirstDirectoryBlock, obind in Hfdb.
      unfold readBlock in Hfdb.
      destruct (_ <=? _) in Hfdb;
        [destruct (_ =? 0) in Hfdb; discriminate Hfdb|].
      congruence. }
  pose proof (getFirstDirectoryBlock_range _ _ Hfdb) as Rf.
  destruct (Z.geb_spec fdb (totalBlocksOf img)) as [G|G];
    [intros H; right; left; congruence|].
  destruct (totalBlocksOf_inside img) as [T0 T1].
  destruct (readSegmentWords img fdb) as [words|err| |] eqn:Hread;
    try discriminate.
  - intros H. exfalso. revert H.
    apply walkSegments_never_throws; [lia|].
    destruct (_ || _) eqn:C; [lia|].
    apply orb_false_elim in C as [_ C]. rewrite Z.gtb_ltb in C.
    apply Z.ltb_ge in C. exact C.
  - intros H. right. right. exists fdb. split; [reflexivity|].
    unfold readSegmentWords, obind in Hread.
    destruct (readBlock_readable img fdb ltac:(lia)) as [b0 E0].
    rewrite E0 in Hread.
    assert (U : u32 (fdb + 1) = fdb + 1)
      by (unfold u32; apply Z.mod_small; lia).
    rewrite U in Hread. unfold readBlock in Hread.
    destruct (Z.leb_spec ((fdb + 1 + 1) * BLOCK_SIZE) (Z.of_nat (List.length img)))
      as [L|L]; [discriminate Hread|].
    split; [congruence|].
    assert (Z.of_nat (List.length img) / 512 < 4294967296
            -> totalBlocksOf img = Z.of_nat (List.length img) / 512)
      by (intros; unfold totalBlocksOf, u32, BLOCK_SIZE;
          apply Z.mod_small; split; [apply Z.div_pos; lia|lia]).
    unfold BLOCK_SIZE in L.
    assert (Z.of_nat (List.length img) / 512 < fdb + 2)
      by (apply Z.div_lt_upper_bound; lia).
    lia.
Qed.

Lemma readDirectory_failures_witness :
  ReadBlockFailed 1 = ReadBlockFailed 1
  \/ ReadBlockFailed 1 = FirstDirBlockOutOfRange
  \/ exists firstDirBlock,
       getFirstDirectoryBlock (blankBlocks 1) = Ok firstDirBlock
       /\ ReadBlockFailed 1 = ReadBlockFailed (firstDirBlock + 1)
       /\ totalBlocksOf (blankBlocks 1) = firstDirBlock + 1.
Proof.
  apply (readDirectory_failures (blankBlocks 1) (ReadBlockFailed 1)).
  vm_compute. reflexivity.
Defined.

(* ------------------------------------------------------------------ *)
(** ** [/noreplace] on a copy to the volume *)

Lemma alreadyOnVolume_iff (entries : list Rt11Entry) (rtname : string) :
  alreadyOnVolume entries rtname = true
  <-> exists e, In e entries /\ permanent e = true
                /\ upcase (name e) = upcase rtname.
Proof.
  unfold alreadyOnVolume. rewrite existsb_exists. split.
  - intros (e & Hin & H). apply andb_prop in H. destruct H as [Hp Hi].
    exists e. repeat split; try assumption.
    revert Hi. generalize (name e) as a. intros a. revert rtname.
    induction a as [|ca a IH]; intros [|cb b]; cbn [iequals upcase];
      try discriminate; [reflexivity|].
    intros H. apply andb_prop in H. destruct H as [Hc Hr].
    apply Ascii.eqb_eq in Hc. rewrite Hc, (IH _ Hr). reflexivity.
  - intros (e & Hin & Hp & Hu). exists e. split; [exact Hin|].
    rewrite Hp. cbn [andb].
    revert Hu. generalize (name e) as a. intros a. revert rtname.
    induction a as [|ca a IH]; intros [|cb b]; cbn [iequals upcase];
      try discriminate; [reflexivity|].
    intros H. injection H as Hc Hr. rewrite Hc, Ascii.eqb_refl. cbn [andb].
    apply IH. exact Hr.
Qed.

(** X19.  With [/noreplace], a name already on the volume as a permanent file,
    whatever the case of its letters, ends the copy before the host file is
    opened and before anything is written. *)
Theorem copySingleToRt11_noreplace (src : HostFile) (optionalDateWord : Z)
  (today : Z * Z * Z) (fuel : nat) (d : disk) (rtname : string)
  (entries : list Rt11Entry) (w : option warning) :
  srcExists src = true ->
  normalizeRt11Name (baseName src) = Ok rtname ->
  bytes d <> [] ->
  readDirectory (bytes d) (totalBlocksOf (bytes d)) = Ok (entries, w) ->
  (exists e, In e entries /\ permanent e = true
             /\ upcase (name e) = upcase rtname) ->
  copySingleToRt11 src true optionalDateWord today (S fuel) d
  = (Ok (Skipped rtname), d).
Proof.
  intros Hex Hname Hne Hdir Hon. apply alreadyOnVolume_iff in Hon.
  cbn [copySingleToRt11]. rewrite Hex. cbn [negb].
  unfold bindM, readM, retM, throwM. rewrite Hname.
  replace (Z.of_nat (List.length (bytes d)) <=? 0) with false
    by (symmetry; apply Z.leb_gt; destruct (bytes d); [congruence|];
        cbn [List.length]; lia).
  unfold totalBlocksOf in Hdir. rewrite Hdir. cbn [fst andb].
  rewrite Hon. reflexivity.
Qed.

Lemma copySingleToRt11_noreplace_witness :
  copySingleToRt11
    {| srcExists := true; baseName := "a"; contents := None |}
    true 0 (1999, 1, 15) 1 (freshDisk gapThenFile)
  = (Ok (Skipped "A"), freshDisk gapThenFile).
Proof.
  apply (copySingleToRt11_noreplace
           {| srcExists := true; baseName := "a"; contents := None |}
           0 (1999, 1, 15) 0 (freshDisk gapThenFile) "A"
           [gapEntry; fileEntryA] None);
    try reflexivity.
  - discriminate.
  - exists fileEntryA. repeat split. right. left. reflexivity.
Defined.

(* ------------------------------------------------------------------ *)
(** ** The directory update stays inside the segment, or not *)

Lemma storew_inside (words : list Z) (i v : Z) :
  0 <= i < 512 -> storew words i v = Ok (setw words i v).
Proof.
  intros H. unfold storew.
  replace ((0 <=? i) && (i <? 512)) with true
    by (symmetry; apply andb_true_intro; split;
        [apply Z.leb_le|apply Z.ltb_lt]; lia).
  reflexivity.
Qed.

Lemma storew_outside (words : list Z) (i v : Z) :
  512 <= i -> storew words i v = Undefined (WordSubscript i).
Proof.
  intros H. unfold storew.
  replace (i <? 512) with false by (symmetry; apply Z.ltb_ge; lia).
  rewrite andb_false_r. reflexivity.
Qed.

Lemma shiftEntriesUp_inside (ew : Z) :
  forall n words i,
    0 <= i - Z.of_nat n + 1 + ew -> i + ew < 512 ->
    exists words', shiftEntriesUp n words ew i = Ok words'.
Proof.
  induction n as [|n IH]; intros words i Hlo Hhi; cbn [shiftEntriesUp].
  - eexists. reflexivity.
  - rewrite storew_inside by lia. cbn [obind]. apply IH; lia.
Qed.

Lemma clearEntryWords_inside (newEosIdx : Z) :
  forall n words w,
    0 <= newEosIdx + w -> newEosIdx + w + Z.of_nat n <= 512 ->
    exists words', clearEntryWords n words newEosIdx w = Ok words'.
Proof.
  induction n as [|n IH]; intros words w Hlo Hhi; cbn [clearEntryWords].
  - eexists. reflexivity.
  - rewrite storew_inside by lia. cbn [obind].
    replace (newEosIdx + w + Z.of_nat (S n))
      with (newEosIdx + (w + 1) + Z.of_nat n) in Hhi by lia.
    apply IH; lia.
Qed.

(** X20.  The directory update writes inside the 512 words of the segment
    when there is no remainder, when nothing has to be shifted, or when the
    end marker it shifts lies a whole entry before the end; otherwise its
    first shifted word goes past the end of the array. *)
Theorem updateDirectoryWords_bounds
  (words : list Z) (ew idx eosIdx remaining n1 n2 ext len dateW : Z) :
  7 <= ew -> 5 <= idx -> idx + ew <= 512 -> 0 <= remaining ->
  (0 < remaining -> idx + ew + ew + ew <= 512) ->
  (remaining = 0 \/ eosIdx <= idx + ew \/ eosIdx + ew <= 512 ->
   exists words',
     updateDirectoryWords words ew idx eosIdx remaining n1 n2 ext len dateW
     = Ok words')
  /\ (0 < remaining -> idx + ew < eosIdx -> 512 < eosIdx + ew ->
      updateDirectoryWords words ew idx eosIdx remaining n1 n2 ext len dateW
      = Undefined (WordSubscript (eosIdx - 1 + ew))).
Proof.
  intros Hew Hidx Hfit Hrem Hroom.
  unfold updateDirectoryWords.
  do 7 (rewrite storew_inside by lia; cbn [obind]).
  destruct (Z.gtb_spec remaining 0) as [Pos|Zero].
  - specialize (Hroom Pos).
    rewrite (u16_small (idx + ew)) by lia.
    rewrite (u16_small (idx + ew + ew)) by lia.
    split.
    + intros Safe.
      set (w7 := setw _ (idx + 6) dateW).
      assert (Shift : exists shifted,
                (if idx + ew <? eosIdx
                 then shiftEntriesUp (Z.to_nat (eosIdx - (idx + ew))) w7 ew
                        (eosIdx - 1)
                 else Ok w7) = Ok shifted).
      { destruct (Z.ltb_spec (idx + ew) eosIdx) as [L|L];
          [|eexists; reflexivity].
        apply shiftEntriesUp_inside; lia. }
      destruct Shift as [shifted ->]. cbn [obind].
      do 7 (rewrite storew_inside by lia; cbn [obind]).
      set (w14 := setw _ (idx + ew + 6) 0).
      destruct (clearEntryWords_inside (idx + ew + ew) (Z.to_nat ew) w14 0
                  ltac:(lia) ltac:(lia)) as [cleared ->].
      cbn [obind]. rewrite storew_inside by lia. eexists. reflexivity.
    + intros _ Lt Far.
      replace (idx + ew <? eosIdx) with true by (symmetry; apply Z.ltb_lt; lia).
      destruct (Z.to_nat (eosIdx - (idx + ew))) as [|n] eqn:E; [lia|].
      cbn [shiftEntriesUp]. rewrite storew_outside by lia. reflexivity.
  - split; [intros _; eexists; reflexivity|]. intros Pos. lia.
Qed.

Lemma updateDirectoryWords_bounds_witness :
  (1 = 0 \/ 509 <= 5 + 7 \/ 509 + 7 <= 512 ->
   exists words',
     updateDirectoryWords (repeat 0 512) 7 5 509 1 1 2 3 4 5 = Ok words')
  /\ (0 < 1 -> 5 + 7 < 509 -> 512 < 509 + 7 ->
      updateDirectoryWords (repeat 0 512) 7 5 509 1 1 2 3 4 5
      = Undefined (WordSubscript (509 - 1 + 7))).
Proof.
  apply (updateDirectoryWords_bounds (repeat 0 512) 7 5 509 1 1 2 3 4 5); lia.
Defined.

(* ------------------------------------------------------------------ *)
(** ** The directory listing *)

Lemma listEntries_closed (brief showEmpty : bool) :
  forall entries lines totalUsed totalFree fileCount,
    Forall wellFormedEntry entries ->
    0 <= totalUsed -> 0 <= totalFree -> 0 <= fileCount ->
    totalUsed + 65536 * Z.of_nat (List.length entries) <= 4294967296 ->
    totalFree + 65536 * Z.of_nat (List.length entries) <= 4294967296 ->
    fileCount + 65536 * Z.of_nat (List.length entries) <= 4294967296 ->
    listEntries brief showEmpty entries lines totalUsed totalFree fileCount
    = (lines ++ map (entryLine brief) (filter (listed showEmpty) entries),
       (totalUsed + blocksOf permanent entries,
        totalFree + blocksOf empty entries,
        fileCount + Z.of_nat (List.length (filter permanent entries)))).
Proof.
  induction entries as [|e entries IH];
    intros lines tu tf fc Hwf Hu Hf Hc Bu Bf Bc.
  - cbn [listEntries filter map List.length blocksOf sumLengths].
    rewrite app_nil_r, !Z.add_0_r. reflexivity.
  - inversion Hwf as [|? ? He Hrest]; subst.
    destruct He as (_ & _ & _ & _ & _ & _ & _ & _ & _ & Hlen & _).
    cbn [List.length] in Bu, Bf, Bc.
    cbn [listEntries]. unfold blocksOf, listed. cbn [filter].
    assert (U : forall x, 0 <= x -> x + 65536 <= 4294967296 ->
                u32 (x + lengthBlocks e) = x + lengthBlocks e
                /\ u32 (x + 1) = x + 1)
      by (intros x H0 H1; unfold u32; split; apply Z.mod_small; lia).
    destruct (U tu Hu ltac:(lia)) as [U1 _].
    destruct (U tf Hf ltac:(lia)) as [U2 _].
    destruct (U fc Hc ltac:(lia)) as [_ U3].
    rewrite U1, U2, U3.
    destruct (permanent e), (empty e), showEmpty;
      cbn [andb orb negb sumLengths List.length map];
      rewrite IH by (try assumption; lia);
      unfold blocksOf, listed; rewrite <- ?app_assoc; cbn [app];
      (apply f_equal2;
       [reflexivity|apply f_equal2; [apply f_equal2|]; lia]).
Qed.

(** X21.  The listing shows, in directory order, the entries that are
    permanent or empty (the empty ones only on request), and its totals are
    the exact counts: they cannot wrap. *)
Theorem showDirectory_lines (imagePath : string) (img : image)
  (brief showEmpty : bool) (entries : list Rt11Entry) (w : option warning) :
  readDirectory img (totalBlocksOf img) = Ok (entries, w) ->
  showDirectory imagePath img brief showEmpty
  = Ok ([ "Directory of " +++ imagePath; "" ]
        ++ map (entryLine brief) (filter (listed showEmpty) entries)
        ++ [ "";
             "Files: "
               +++ decimal (Z.of_nat (List.length (filter permanent entries)));
             "Total used blocks: " +++ decimal (blocksOf permanent entries);
             "Total free blocks: " +++ decimal (blocksOf empty entries) ]).
Proof.
  intros Hdir. unfold showDirectory.
  assert (Hne : (Z.of_nat (List.length img) <=? 0) = false).
  { apply Z.leb_gt. destruct img; [discriminate Hdir|]. cbn [List.length]. lia. }
  rewrite Hne. unfold totalBlocksOf in Hdir. rewrite Hdir. cbn [obind fst].
  destruct (readDirectory_entries_aux _ _ _ _ Hdir) as [Hwf Hcount].
  rewrite listEntries_closed by (try assumption; lia).
  rewrite !Z.add_0_l, <- app_assoc. reflexivity.
Qed.

Lemma showDirectory_lines_witness :
  showDirectory "disk.dsk" gapThenFile true false
  = Ok ([ "Directory of " +++ "disk.dsk"; "" ]
        ++ map (entryLine true) (filter (listed false) [gapEntry; fileEntryA])
        ++ [ "";
             "Files: "
               +++ decimal (Z.of_nat (List.length
                                        (filter permanent [gapEntry; fileEntryA])));
             "Total used blocks: "
               +++ decimal (blocksOf permanent [gapEntry; fileEntryA]);
             "Total free blocks: "
               +++ decimal (blocksOf empty [gapEntry; fileEntryA]) ]).
Proof.
  apply (showDirectory_lines "disk.dsk" gapThenFile true false
           [gapEntry; fileEntryA] None).
  vm_compute. reflexivity.
Defined.

(* ------------------------------------------------------------------ *)
(** ** The bad block table *)

Lemma badBlockEntries_shape (words : list Z) :
  forall n i,
    let l := badBlockEntries n words i in
    (List.length l <= n)%nat
    /\ (forall k, (k < List.length l)%nat ->
          nth k l (0, 0, 0)
          = ((i + 2 * Z.of_nat k - 16) / 2,
             getw words (i + 2 * Z.of_nat k),
             getw words (i + 2 * Z.of_nat k + 1))
          /\ (getw words (i + 2 * Z.of_nat k) <> 0
              \/ getw words (i + 2 * Z.of_nat k + 1) <> 0))
    /\ ((List.length l < n)%nat ->
        getw words (i + 2 * Z.of_nat (List.length l)) = 0
        /\ getw words (i + 2 * Z.of_nat (List.length l) + 1) = 0).
Proof.
  induction n as [|n IH]; intros i; cbv zeta; cbn [badBlockEntries].
  - cbn [List.length]. repeat split; lia.
  - destruct (Z.eqb_spec (getw words i) 0) as [B|B];
      destruct (Z.eqb_spec (getw words (i + 1)) 0) as [C|C];
      cbn [andb orb negb].
    + cbn [List.length]. split; [lia|]. split; [intros k Hk; lia|].
      intros _. rewrite Z.mul_0_r, Z.add_0_r. split; assumption.
    + specialize (IH (i + 2)). cbv zeta in IH. destruct IH as (L & E & Z0).
      cbn [List.length]. split; [lia|]. split.
      * intros [|k] Hk.
        -- cbn [nth]. rewrite Z.mul_0_r, Z.add_0_r. split; [reflexivity|tauto].
        -- cbn [nth]. destruct (E k ltac:(lia)) as [E1 E2].
           replace (i + 2 * Z.of_nat (S k)) with (i + 2 + 2 * Z.of_nat k) by lia.
           split; assumption.
      * intros Hl.
        replace (i + 2 * Z.of_nat (S (List.length (badBlockEntries n words (i + 2)))))
          with (i + 2 + 2 * Z.of_nat (List.length (badBlockEntries n words (i + 2))))
          by lia.
        apply Z0. lia.
    + specialize (IH (i + 2)). cbv zeta in IH. destruct IH as (L & E & Z0).
      cbn [List.length]. split; [lia|]. split.
      * intros [|k] Hk.
        -- cbn [nth]. rewrite Z.mul_0_r, Z.add_0_r. split; [reflexivity|tauto].
        -- cbn [nth]. destruct (E k ltac:(lia)) as [E1 E2].
           replace (i + 2 * Z.of_nat (S k)) with (i + 2 + 2 * Z.of_nat k) by lia.
           split; assumption.
      * intros Hl.
        replace (i + 2 * Z.of_nat (S (List.length (badBlockEntries n words (i + 2)))))
          with (i + 2 + 2 * Z.of_nat (List.length (badBlockEntries n words (i + 2))))
          by lia.
        apply Z0. lia.
    + specialize (IH (i + 2)). cbv zeta in IH. destruct IH as (L & E & Z0).
      cbn [List.length]. split; [lia|]. split.
      * intros [|k] Hk.
        -- cbn [nth]. rewrite Z.mul_0_r, Z.add_0_r. split; [reflexivity|tauto].
        -- cbn [nth]. destruct (E k ltac:(lia)) as [E1 E2].
           replace (i + 2 * Z.of_nat (S k)) with (i + 2 + 2 * Z.of_nat k) by lia.
           split; assumption.
      * intros Hl.
        replace (i + 2 * Z.of_nat (S (List.length (badBlockEntries n words (i + 2)))))
          with (i + 2 + 2 * Z.of_nat (List.length (badBlockEntries n words (i + 2))))
          by lia.
        apply Z0. lia.
Qed.

(** X22.  The bad block report lists the pairs of words from word 16 on up to
    the first pair of zeros, 33 pairs at most, numbered from 0. *)
Theorem checkBadBlockTable_entries (img : image) (r : BadBlockReport) :
  checkBadBlockTable img = Ok r ->
  exists buf,
    readBlock img 1 = Ok buf
    /\ (List.length (badEntries r) <= 33)%nat
    /\ (forall k, (k < List.length (badEntries r))%nat ->
          nth k (badEntries r) (0, 0, 0)
          = (Z.of_nat k,
             getw (blockWords buf) (16 + 2 * Z.of_nat k),
             getw (blockWords buf) (17 + 2 * Z.of_nat k))
          /\ (getw (blockWords buf) (16 + 2 * Z.of_nat k) <> 0
              \/ getw (blockWords buf) (17 + 2 * Z.of_nat k) <> 0))
    /\ ((List.length (badEntries r) < 33)%nat ->
        getw (blockWords buf) (16 + 2 * Z.of_nat (List.length (badEntries r))) = 0
        /\ getw (blockWords buf)
             (17 + 2 * Z.of_nat (List.length (badEntries r))) = 0)
    /\ (noBadBlocks r = true <-> badEntries r = []).
Proof.
  unfold checkBadBlockTable, obind.
  destruct (readBlock img 1) as [buf| | |]; try discriminate.
  intros H. apply (f_equal (fun o => match o with Ok x => x | _ => r end)) in H.
  cbv beta iota in H. subst r. exists buf. cbn [badEntries noBadBlocks].
  pose proof (badBlockEntries_shape (blockWords buf) badBlockPairs 16) as S.
  cbv zeta in S. revert S.
  generalize (badBlockEntries badBlockPairs (blockWords buf) 16) as l.
  intros l (L & E & Z0).
  split; [reflexivity|]. split; [exact L|]. split; [|split].
  - intros k Hk. destruct (E k Hk) as [E1 E2].
    replace (17 + 2 * Z.of_nat k) with (16 + 2 * Z.of_nat k + 1) by lia.
    split; [|exact E2]. rewrite E1. f_equal. f_equal.
    replace (16 + 2 * Z.of_nat k - 16) with (Z.of_nat k * 2) by lia.
    apply Z.div_mul. lia.
  - intros Hl. destruct (Z0 Hl) as [A B]. split; [exact A|].
    replace (17 + 2 * Z.of_nat (List.length l))
      with (16 + 2 * Z.of_nat (List.length l) + 1) by lia.
    exact B.
  - destruct l; split; congruence.
Qed.

Lemma checkBadBlockTable_entries_witness :
  exists buf,
    readBlock badBlockSample 1 = Ok buf
    /\ (List.length (badEntries badBlockSampleReport) <= 33)%nat
    /\ (forall k, (k < List.length (badEntries badBlockSampleReport))%nat ->
          nth k (badEntries badBlockSampleReport) (0, 0, 0)
          = (Z.of_nat k,
             getw (blockWords buf) (16 + 2 * Z.of_nat k),
             getw (blockWords buf) (17 + 2 * Z.of_nat k))
          /\ (getw (blockWords buf) (16 + 2 * Z.of_nat k) <> 0
              \/ getw (blockWords buf) (17 + 2 * Z.of_nat k) <> 0))
    /\ ((List.length (badEntries badBlockSampleReport) < 33)%nat ->
        getw (blockWords buf)
          (16 + 2 * Z.of_nat (List.length (badEntries badBlockSampleReport))) = 0
        /\ getw (blockWords buf)
             (17 + 2 * Z.of_nat (List.length (badEntries badBlockSampleReport)))
           = 0)
    /\ (noBadBlocks badBlockSampleReport = true
        <-> badEntries badBlockSampleReport = []).
Proof.
  apply (checkBadBlockTable_entries badBlockSample badBlockSampleReport).
  vm_compute. reflexivity.
Defined.

(* ------------------------------------------------------------------ *)
(** ** Windows wildcards *)

Lemma loopMeasure_nonneg (N P A B C : Z) :
  0 <= N -> 0 <= P -> 0 <= A -> 0 <= B -> 0 <= C -> 0 <= loopMeasure N P A B C.
Proof.
  intros. unfold loopMeasure.
  assert (0 <= A * (P + 2)) by (apply Z.mul_nonneg_nonneg; lia).
  assert (0 <= (A * (P + 2) + B) * (N + 1)) by (apply Z.mul_nonneg_nonneg; lia).
  lia.
Qed.

Lemma loopMeasure_decreases (N P A B C A' B' C' : Z) :
  0 <= N -> 0 <= P ->
  0 <= A' <= A -> 1 <= B <= P + 1 -> 1 <= B' <= P + 1 ->
  0 <= C <= N -> 0 <= C' <= N ->
  A' < A \/ (B' < B) \/ (B' = B /\ C' < C) ->
  loopMeasure N P A' B' C' < loopMeasure N P A B C.
Proof.
  intros HN HP HA HB HB' HC HC' Hdec. unfold loopMeasure.
  destruct (Z.eq_dec A' A) as [->|Ne].
  - destruct Hdec as [H|[H|[-> H]]]; [lia| |lia].
    assert ((A * (P + 2) + B') * (N + 1) + (N + 1)
            <= (A * (P + 2) + B) * (N + 1)) by nia.
    lia.
  - assert (LA : A' + 1 <= A) by lia.
    assert (0 <= A' * (P + 2)) by (apply Z.mul_nonneg_nonneg; lia).
    assert (E1 : (A' * (P + 2) + B') * (N + 1)
                 <= (A' * (P + 2) + (P + 1)) * (N + 1))
      by (apply Z.mul_le_mono_nonneg_r; lia).
    assert (E2 : (A' + 1) * (P + 2) <= A * (P + 2))
      by (apply Z.mul_le_mono_nonneg_r; lia).
    assert (E3 : ((A' + 1) * (P + 2) + B) * (N + 1)
                 <= (A * (P + 2) + B) * (N + 1))
      by (apply Z.mul_le_mono_nonneg_r; lia).
    assert (E4 : (A' * (P + 2) + (P + 1)) * (N + 1) + (N + 1)
                 <= ((A' + 1) * (P + 2) + B) * (N + 1)) by nia.
    lia.
Qed.

Lemma matchFsLoop_returns (name pattern : string) :
  forall fuel n p star mtch,
    0 <= mtch <= n -> n <= strlen name ->
    -1 <= starPos star < p -> p <= strlen pattern ->
    loopMeasure (strlen name) (strlen pattern) (strlen name - mtch)
      (strlen pattern - starPos star) (strlen name - n) < Z.of_nat fuel ->
    matchFsLoop fuel name pattern n p star mtch <> OutOfFuel.
Proof.
  pose proof (strlen_nonneg name) as HN. pose proof (strlen_nonneg pattern) as HP.
  set (N := strlen name) in *. set (P := strlen pattern) in *.
  induction fuel as [|fuel IH]; intros n p star mtch Hm Hn Hs Hp Hmu.
  - exfalso.
    pose proof (loopMeasure_nonneg N P (N - mtch) (P - starPos star) (N - n)
                  ltac:(lia) ltac:(lia) ltac:(lia) ltac:(lia) ltac:(lia)).
    lia.
  - cbn [matchFsLoop]. fold N P.
    destruct (Z.ltb_spec n N) as [Ln|Ln]; cbn [negb]; [|discriminate].
    destruct ((p <? P) && fsCharMatches (charAt pattern p) (charAt name n))
      eqn:C1.
    { apply andb_prop in C1. destruct C1 as [C1 _]. apply Z.ltb_lt in C1.
      apply IH; try lia.
      pose proof (loopMeasure_decreases N P (N - mtch) (P - starPos star) (N - n)
                    (N - mtch) (P - starPos star) (N - (n + 1))
                    ltac:(lia) ltac:(lia) ltac:(lia) ltac:(lia) ltac:(lia)
                    ltac:(lia) ltac:(lia) ltac:(lia)).
      lia. }
    destruct ((p <? P) && Ascii.eqb (charAt pattern p) "*") eqn:C2.
    { apply andb_prop in C2. destruct C2 as [C2 _]. apply Z.ltb_lt in C2.
      apply IH; cbn [starPos]; try lia.
      pose proof (loopMeasure_decreases N P (N - mtch) (P - starPos star) (N - n)
                    (N - n) (P - p) (N - n)
                    ltac:(lia) ltac:(lia) ltac:(lia) ltac:(lia) ltac:(lia)
                    ltac:(lia) ltac:(lia) ltac:(lia)).
      lia. }
    destruct star as [s|]; [|discriminate].
    cbn [starPos] in *. apply IH; cbn [starPos]; try lia.
    pose proof (loopMeasure_decreases N P (N - mtch) (P - s) (N - n)
                  (N - (mtch + 1)) (P - s) (N - (mtch + 1))
                  ltac:(lia) ltac:(lia) ltac:(lia) ltac:(lia) ltac:(lia)
                  ltac:(lia) ltac:(lia) ltac:(lia)).
    lia.
Qed.

Lemma matchFsName_returns_aux (name pattern : string) :
  exists b, matchFsName name pattern = Ok b.
Proof.
  unfold matchFsName, obind.
  pose proof (strlen_nonneg name) as HN. pose proof (strlen_nonneg pattern) as HP.
  destruct (matchFsLoop (matchFsFuel name pattern) name pattern 0 0 None 0)
    as [[p|]|e|u|] eqn:L; try (eexists; reflexivity).
  - exfalso. clear HN HP. revert e L.
    assert (G : forall fuel n p star mtch e,
              matchFsLoop fuel name pattern n p star mtch <> Throw e).
    { induction fuel as [|fuel IH]; intros n p star mtch e; [discriminate|].
      cbn [matchFsLoop].
      repeat match goal with
             | |- (if ?c then _ else _) <> _ => destruct c
             | |- match ?s with Some _ => _ | None => _ end <> _ => destruct s
             end; try discriminate; apply IH. }
    intros e. apply G.
  - exfalso. clear HN HP. revert u L.
    assert (G : forall fuel n p star mtch u,
              matchFsLoop fuel name pattern n p star mtch <> Undefined u).
    { induction fuel as [|fuel IH]; intros n p star mtch u; [discriminate|].
      cbn [matchFsLoop].
      repeat match goal with
             | |- (if ?c then _ else _) <> _ => destruct c
             | |- match ?s with Some _ => _ | None => _ end <> _ => destruct s
             end; try discriminate; apply IH. }
    intros u. apply G.
  - exfalso. revert L. apply matchFsLoop_returns; cbn [starPos]; try lia.
    unfold matchFsFuel, loopMeasure, strlen. lia.
Qed.

(** *** The loop against the meaning of the wildcards *)

Lemma chars_length (s : string) : List.length (chars s) = String.length s.
Proof.
  unfold chars. induction s as [|c s IH];
    cbn [list_ascii_of_string List.length String.length]; [reflexivity|].
  rewrite IH. reflexivity.
Qed.

Lemma charAt_chars (s : string) (i : nat) :
  charAt s (Z.of_nat i) = nth i (chars s) " "%char.
Proof.
  unfold charAt, chars. rewrite Nat2Z.id. revert i.
  induction s as [|c s IH]; intros [|i];
    cbn [list_ascii_of_string nth String.get]; try reflexivity. apply IH.
Qed.

Lemma skipn_nth {A : Type} (d : A) (l : list A) :
  forall i, (i < List.length l)%nat -> skipn i l = nth i l d :: skipn (S i) l.
Proof.
  induction l as [|x l IH]; intros [|i] H; cbn [List.length] in H; try lia.
  - reflexivity.
  - cbn [skipn nth]. rewrite (IH i) by lia. reflexivity.
Qed.

Lemma globMatches_star (ps nm : list ascii) :
  globMatches ("*"%char :: ps) nm
  = globMatches ps nm
    || match nm with
       | [] => false
       | _ :: rest => globMatches ("*"%char :: ps) rest
       end.
Proof. destruct nm; reflexivity. Qed.

Lemma globMatches_char (pc : ascii) (ps nm : list ascii) :
  Ascii.eqb pc "*" = false ->
  globMatches (pc :: ps) nm
  = match nm with
    | [] => false
    | nc :: ns => fsCharMatches pc nc && globMatches ps ns
    end.
Proof. intros H. cbn [globMatches]. rewrite H. reflexivity. Qed.

Lemma globMatches_star_skip (ps : list ascii) :
  forall k nm,
    globMatches ("*"%char :: ps) (skipn k nm) = true ->
    globMatches ("*"%char :: ps) nm = true.
Proof.
  induction k as [|k IH]; intros nm H; [exact H|].
  destruct nm as [|x nm]; [exact H|].
  cbn [skipn] in H. rewrite globMatches_star. apply orb_true_intro. right.
  apply IH. exact H.
Qed.

Lemma globMatches_star_exists (ps : list ascii) :
  forall nm,
    globMatches ("*"%char :: ps) nm = true ->
    exists k, (k <= List.length nm)%nat /\ globMatches ps (skipn k nm) = true.
Proof.
  induction nm as [|x nm IH]; rewrite globMatches_star; intros H.
  - rewrite orb_false_r in H. exists 0%nat. split; [lia|exact H].
  - apply orb_prop in H. destruct H as [H|H].
    + exists 0%nat. split; [lia|exact H].
    + destruct (IH H) as (k & Hk & G). exists (S k). split; [cbn; lia|exact G].
Qed.

Lemma globMatches_nil (ps : list ascii) :
  globMatches ps [] = forallb (fun c => Ascii.eqb c "*") ps.
Proof.
  induction ps as [|pc ps IH]; [reflexivity|].
  cbn [forallb]. destruct (Ascii.eqb pc "*") eqn:E.
  - apply Ascii.eqb_eq in E. subst pc. rewrite globMatches_star, IH.
    rewrite orb_false_r. reflexivity.
  - rewrite globMatches_char by exact E. reflexivity.
Qed.

(** A run of matching characters is consumed on both sides. *)
Lemma literalRun_forward (P N : list ascii) :
  forall L a b,
    literalRun P N a b L ->
    (a + L <= List.length P)%nat -> (b + L <= List.length N)%nat ->
    globMatches (skipn a P) (skipn b N)
    = globMatches (skipn (a + L) P) (skipn (b + L) N).
Proof.
  induction L as [|L IH]; intros a b Hrun Ha Hb.
  - rewrite !Nat.add_0_r. reflexivity.
  - destruct (Hrun 0%nat ltac:(lia)) as [S0 M0].
    rewrite Nat.add_0_r in S0. rewrite !Nat.add_0_r in M0.
    rewrite (skipn_nth " "%char P a) by lia.
    rewrite (skipn_nth " "%char N b) by lia.
    rewrite globMatches_char by exact S0. rewrite M0. cbn [andb].
    replace (a + S L)%nat with (S a + L)%nat by lia.
    replace (b + S L)%nat with (S b + L)%nat by lia.
    apply IH; try lia.
    intros k Hk. specialize (Hrun (S k) ltac:(lia)).
    replace (S a + k)%nat with (a + S k)%nat by lia.
    replace (S b + k)%nat with (b + S k)%nat by lia. exact Hrun.
Qed.

(** Pattern characters other than [*] consume as many characters of the
    name. *)
Lemma literalRun_shape (P N : list ascii) :
  forall L a m,
    (forall k, (k < L)%nat -> Ascii.eqb (nth (a + k) P " "%char) "*" = false) ->
    (a + L <= List.length P)%nat -> (m <= List.length N)%nat ->
    globMatches (skipn a P) (skipn m N) = true ->
    (m + L <= List.length N)%nat
    /\ globMatches (skipn (a + L) P) (skipn (m + L) N) = true.
Proof.
  induction L as [|L IH]; intros a m Hns Ha Hm H.
  - rewrite !Nat.add_0_r. split; [lia|exact H].
  - pose proof (Hns 0%nat ltac:(lia)) as S0. rewrite Nat.add_0_r in S0.
    rewrite (skipn_nth " "%char P a) in H by lia.
    rewrite globMatches_char in H by exact S0.
    destruct (Nat.lt_ge_cases m (List.length N)) as [Lt|Ge].
    + rewrite (skipn_nth " "%char N m) in H by lia.
      apply andb_prop in H. destruct H as [_ H].
      destruct (IH (S a) (S m)) as [B G]; try lia; try exact H.
      * intros k Hk. specialize (Hns (S k) ltac:(lia)).
        replace (S a + k)%nat with (a + S k)%nat by lia. exact Hns.
      * replace (a + S L)%nat with (S a + L)%nat by lia.
        replace (m + S L)%nat with (S m + L)%nat by lia.
        split; [lia|exact G].
    + rewrite skipn_all2 in H by lia. discriminate H.
Qed.

Lemma toupper_star (c : ascii) : toupper c = "*"%char -> c = "*"%char.
Proof.
  destruct c as [[] [] [] [] [] [] [] []]; vm_compute; intros H;
    try reflexivity; discriminate H.
Qed.

Lemma fsCharMatches_star (nc : ascii) :
  fsCharMatches "*" nc = true -> nc = "*"%char.
Proof.
  unfold fsCharMatches. change (Ascii.eqb "*" "?") with false. cbn [orb].
  change (toupper "*") with "*"%char. intros H. apply Ascii.eqb_eq in H.
  symmetry in H. apply toupper_star. exact H.
Qed.

(** The remaining pattern against the remaining name, when the pattern
    is exhausted or its next character is neither [*] nor a match. *)
Lemma globMatches_mismatch (P N : list ascii) (p n : nat) :
  (n < List.length N)%nat ->
  ((p <? List.length P)%nat
   && fsCharMatches (nth p P " "%char) (nth n N " "%char)) = false ->
  ((p <? List.length P)%nat && Ascii.eqb (nth p P " "%char) "*") = false ->
  globMatches (skipn p P) (skipn n N) = false.
Proof.
  intros Hn C1 C2.
  rewrite (skipn_nth " "%char N n) by exact Hn.
  destruct (Nat.ltb_spec p (List.length P)) as [Lp|Lp]; cbn [andb] in C1, C2.
  - rewrite (skipn_nth " "%char P p) by exact Lp.
    rewrite globMatches_char by exact C2. rewrite C1. reflexivity.
  - rewrite skipn_all2 by lia. reflexivity.
Qed.

Lemma literalRun_nil (P N : list ascii) (a b : nat) : literalRun P N a b 0.
Proof. intros k Hk. lia. Qed.

Lemma literalRun_snoc (P N : list ascii) (a b L : nat) :
  literalRun P N a b L ->
  Ascii.eqb (nth (a + L) P " "%char) "*" = false ->
  fsCharMatches (nth (a + L) P " "%char) (nth (b + L) N " "%char) = true ->
  literalRun P N a b (S L).
Proof.
  intros Hrun S0 M0 k Hk.
  destruct (Nat.eq_dec k L) as [->|Ne]; [split; assumption|].
  apply Hrun. lia.
Qed.

(** With the last [*] at [s] and the name taken up again at [mtch], the
    whole match is decided by the rest of the pattern at [p] against the
    rest of the name at [n]. *)
Lemma star_then_run (P N : list ascii) (s p mtch n : nat) :
  (s < p)%nat -> (p <= List.length P)%nat ->
  (mtch <= n)%nat -> (n <= List.length N)%nat ->
  nth s P " "%char = "*"%char ->
  (p - S s = n - mtch)%nat ->
  literalRun P N (S s) mtch (p - S s) ->
  (globMatches (skipn p P) (skipn n N) = true ->
   globMatches (skipn s P) (skipn mtch N) = true)
  /\ (globMatches (skipn s P) (skipn mtch N) = true ->
      exists k, (n + k <= List.length N)%nat
                /\ globMatches (skipn p P) (skipn (n + k) N) = true).
Proof.
  intros Hs Hp Hm Hn Hstar Hlen Hrun.
  assert (Es : skipn s P = "*"%char :: skipn (S s) P)
    by (rewrite (skipn_nth " "%char P s) by lia; rewrite Hstar; reflexivity).
  rewrite Es. split.
  - intros H. rewrite globMatches_star. apply orb_true_intro. left.
    rewrite (literalRun_forward P N (p - S s) (S s) mtch Hrun) by lia.
    replace (S s + (p - S s))%nat with p by lia.
    replace (mtch + (p - S s))%nat with n by lia. exact H.
  - intros H. apply globMatches_star_exists in H.
    destruct H as (k & Hk & G). rewrite length_skipn in Hk.
    rewrite skipn_skipn in G.
    destruct (literalRun_shape P N (p - S s) (S s) (k + mtch)) as [B G'];
      try lia; try exact G.
    + intros j Hj. apply Hrun. exact Hj.
    + exists k. split; [lia|].
      replace (S s + (p - S s))%nat with p in G' by lia.
      replace (k + mtch + (p - S s))%nat with (n + k)%nat in G' by lia.
      exact G'.
Qed.

Lemma bool_eq_iff (a b : bool) : (a = true -> b = true) -> (b = true -> a = true) -> a = b.
Proof. destruct a, b; intros H1 H2; try reflexivity; [symmetry|]; auto. Qed.

Lemma matchFsLoop_meaning (name pattern : string) :
  (forall i, (i < List.length (chars name))%nat ->
     nth i (chars name) " "%char <> "*"%char) ->
  forall fuel n p star mtch r,
    loopInvariant (chars pattern) (chars name)
      (globMatches (chars pattern) (chars name)) n p star mtch ->
    matchFsLoop fuel name pattern (Z.of_nat n) (Z.of_nat p)
      (option_map Z.of_nat star) (Z.of_nat mtch) = Ok r ->
    match r with
    | None => globMatches (chars pattern) (chars name) = false
    | Some pz =>
      exists q, pz = Z.of_nat q /\ (q <= List.length (chars pattern))%nat
                /\ globMatches (chars pattern) (chars name)
                   = globMatches (skipn q (chars pattern)) []
    end.
Proof.
  intros Hnostar.
  set (P := chars pattern) in *. set (N := chars name) in *.
  set (T := globMatches P N).
  assert (LN : strlen name = Z.of_nat (List.length N))
    by (unfold strlen, N; rewrite chars_length; reflexivity).
  assert (LP : strlen pattern = Z.of_nat (List.length P))
    by (unfold strlen, P; rewrite chars_length; reflexivity).
  induction fuel as [|fuel IH]; intros n p star mtch r Inv H; [discriminate H|].
  destruct Inv as (Hn & Hp & Hstar).
  revert H. cbn [matchFsLoop]. rewrite LN, LP, !charAt_chars. fold P N.
  destruct (Z.ltb_spec (Z.of_nat n) (Z.of_nat (List.length N))) as [Ln|Ln];
    cbn [negb].
  2:{ (* the end of the name *)
    intros H. injection H as <-. exists p. split; [reflexivity|].
    split; [exact Hp|].
    assert (En : n = List.length N) by lia.
    destruct star as [s|].
    - destruct Hstar as (Hs & Hst & Hm & HT & Hlen & Hrun).
      destruct (star_then_run P N s p mtch n Hs Hp Hm Hn Hst Hlen Hrun)
        as [Up Down].
      rewrite HT. rewrite <- (skipn_all2 N (n := n)) by lia.
      apply bool_eq_iff.
      + intros G. destruct (Down G) as (k & Hk & G').
        assert (k = 0%nat) by lia. subst k. rewrite Nat.add_0_r in G'. exact G'.
      + exact Up.
    - rewrite Hstar. rewrite (skipn_all2 N (n := n)) by lia. reflexivity. }
  replace (Z.of_nat p <? Z.of_nat (List.length P))
    with (p <? List.length P)%nat
    by (destruct (Nat.ltb_spec p (List.length P)), 
                 (Z.ltb_spec (Z.of_nat p) (Z.of_nat (List.length P)));
        try reflexivity; lia).
  destruct ((p <? List.length P)%nat
            && fsCharMatches (nth p P " "%char) (nth n N " "%char)) eqn:C1.
  { (* one character matched *)
    apply andb_prop in C1. destruct C1 as [Lp M].
    apply Nat.ltb_lt in Lp.
    assert (NS : Ascii.eqb (nth p P " "%char) "*" = false).
    { destruct (Ascii.eqb_spec (nth p P " "%char) "*"%char) as [E|E];
        [|reflexivity].
      rewrite E in M. apply fsCharMatches_star in M.
      exfalso. apply (Hnostar n); [lia|exact M]. }
    replace (Z.of_nat n + 1) with (Z.of_nat (S n)) by lia.
    replace (Z.of_nat p + 1) with (Z.of_nat (S p)) by lia.
    apply IH. split; [lia|]. split; [lia|].
    destruct star as [s|].
    - destruct Hstar as (Hs & Hst & Hm & HT & Hlen & Hrun).
      repeat apply conj; try lia; try assumption.
      replace (S p - S s)%nat with (S (p - S s)) by lia.
      apply literalRun_snoc; [exact Hrun| |].
      + replace (S s + (p - S s))%nat with p by lia. exact NS.
      + replace (S s + (p - S s))%nat with p by lia.
        replace (mtch + (p - S s))%nat with n by lia. exact M.
    - rewrite Hstar.
      rewrite (skipn_nth " "%char P p) by lia.
      rewrite (skipn_nth " "%char N n) by lia.
      rewrite globMatches_char by exact NS. rewrite M. reflexivity. }
  destruct ((p <? List.length P)%nat && Ascii.eqb (nth p P " "%char) "*") eqn:C2.
  { (* a new star *)
    apply andb_prop in C2. destruct C2 as [Lp St].
    apply Nat.ltb_lt in Lp. apply Ascii.eqb_eq in St.
    replace (Z.of_nat p + 1) with (Z.of_nat (S p)) by lia.
    change (Some (Z.of_nat p)) with (option_map Z.of_nat (Some p)).
    apply IH. split; [lia|]. split; [lia|].
    repeat apply conj; try lia; try assumption.
    - destruct star as [s|]; [|exact Hstar].
      destruct Hstar as (Hs & Hst & Hm & HT & Hlen & Hrun).
      destruct (star_then_run P N s p mtch n Hs Hp Hm Hn Hst Hlen Hrun)
        as [Up Down].
      rewrite HT. apply bool_eq_iff; [|exact Up].
      intros G. destruct (Down G) as (k & Hk & G').
      rewrite (skipn_nth " "%char P p) in G' |- * by lia.
      rewrite St in G' |- *.
      apply (globMatches_star_skip _ k). rewrite skipn_skipn.
      replace (k + n)%nat with (n + k)%nat by lia. exact G'.
    - replace (S p - S p)%nat with 0%nat by lia. apply literalRun_nil. }
  destruct star as [s|]; cbn [option_map].
  - (* back to the last star *)
    destruct Hstar as (Hs & Hst & Hm & HT & Hlen & Hrun).
    replace (Z.of_nat mtch + 1) with (Z.of_nat (S mtch)) by lia.
    replace (Z.of_nat s + 1) with (Z.of_nat (S s)) by lia.
    change (Some (Z.of_nat s)) with (option_map Z.of_nat (Some s)).
    apply IH. split; [lia|]. split; [lia|].
    repeat apply conj; try lia; try assumption.
    + assert (F : globMatches (skipn (S s) P) (skipn mtch N) = false).
      { rewrite (literalRun_forward P N (p - S s) (S s) mtch Hrun) by lia.
        replace (S s + (p - S s))%nat with p by lia.
        replace (mtch + (p - S s))%nat with n by lia.
        apply globMatches_mismatch; [lia|exact C1|exact C2]. }
      rewrite HT.
      rewrite (skipn_nth " "%char P s) by lia. rewrite Hst.
      rewrite globMatches_star, F.
      rewrite (skipn_nth " "%char N mtch) by lia. reflexivity.
    + replace (S s - S s)%nat with 0%nat by lia. apply literalRun_nil.
  - (* no star to go back to *)
    intros H. injection H as <-. rewrite Hstar.
    apply globMatches_mismatch; [lia|exact C1|exact C2].
Qed.

Lemma skipStars_meaning (pattern : string) :
  forall k q,
    (q <= List.length (chars pattern))%nat ->
    (List.length (chars pattern) <= q + k)%nat ->
    (skipStars k pattern (Z.of_nat q) =? strlen pattern)
    = globMatches (skipn q (chars pattern)) [].
Proof.
  set (P := chars pattern).
  assert (LP : strlen pattern = Z.of_nat (List.length P))
    by (unfold strlen, P; rewrite chars_length; reflexivity).
  induction k as [|k IH]; intros q Hq Hk.
  - cbn [skipStars]. rewrite LP.
    assert (q = List.length P) by lia. subst q.
    rewrite Z.eqb_refl, skipn_all. reflexivity.
  - cbn [skipStars]. rewrite LP, charAt_chars. fold P.
    destruct (Z.ltb_spec (Z.of_nat q) (Z.of_nat (List.length P))) as [L|L];
      cbn [andb].
    + rewrite (skipn_nth " "%char P q) by lia.
      destruct (Ascii.eqb (nth q P " "%char) "*") eqn:E.
      * apply Ascii.eqb_eq in E. rewrite E, globMatches_star, orb_false_r.
        replace (Z.of_nat q + 1) with (Z.of_nat (S q)) by lia.
        rewrite <- LP. apply IH; lia.
      * rewrite globMatches_char by exact E.
        apply Z.eqb_neq. lia.
    + assert (q = List.length P) by lia. subst q.
      rewrite Z.eqb_refl, skipn_all. reflexivity.
Qed.

(** X23.  [matchFsName] returns on every name and pattern: the backtracking
    loop ends within the iterations the model gives it. *)
Theorem matchFsName_returns (name pattern : string) :
  exists b, matchFsName name pattern = Ok b.
Proof. apply matchFsName_returns_aux. Qed.

(** X24.  On a name without [*], [matchFsName] decides the wildcard match:
    [*] for any run of characters, [?] for any one character, the other
    characters compared without regard to case. *)
Theorem matchFsName_globMatches (name pattern : string) :
  findChar "*" name 0 = None ->
  matchFsName name pattern = Ok (globMatches (chars pattern) (chars name)).
Proof.
  intros Hns. apply findChar_None in Hns.
  assert (Hnostar : forall i, (i < List.length (chars name))%nat ->
            nth i (chars name) " "%char <> "*"%char).
  { clear - Hns. unfold chars. induction name as [|c name IH];
      intros i Hi; cbn [list_ascii_of_string List.length] in *; [lia|].
    cbn [allChars] in Hns. apply andb_prop in Hns. destruct Hns as [Hc Hr].
    destruct i as [|i]; cbn [nth].
    - intros ->. discriminate Hc.
    - apply IH; [exact Hr|lia]. }
  destruct (matchFsName_returns_aux name pattern) as [b Hb].
  rewrite Hb. f_equal. revert Hb. unfold matchFsName, obind.
  destruct (matchFsLoop (matchFsFuel name pattern) name pattern 0 0 None 0)
    as [r| | |] eqn:L; try discriminate.
  apply (matchFsLoop_meaning name pattern Hnostar _ 0%nat 0%nat None 0%nat) in L.
  2:{ split; [lia|]. split; [lia|]. reflexivity. }
  destruct r as [pz|].
  - destruct L as (q & -> & Hq & ->). intros H. injection H as <-.
    apply skipStars_meaning; [exact Hq|]. rewrite chars_length. lia.
  - intros H. injection H as <-. symmetry. exact L.
Qed.

Lemma matchFsName_globMatches_witness :
  matchFsName "Report.TXT" "re*.t?t"
  = Ok (globMatches (chars "re*.t?t") (chars "Report.TXT")).
Proof.
  apply (matchFsName_globMatches "Report.TXT" "re*.t?t"). reflexivity.
Defined.

(** A [*] in the name itself is taken by a [*] of the pattern as an
    ordinary character, after which the pattern is at its end. *)
Lemma matchFsName_star_in_name :
  matchFsName "*a" "*" = Ok false
  /\ globMatches (chars "*") (chars "*a") = true.
Proof. split; reflexivity. Qed.

(* ------------------------------------------------------------------ *)
(** ** The loop of [copyFromRt11] *)

Lemma readFileBlocks_raises (host : HostOut) (img : image) (e : Rt11Entry)
  (outPath : string) :
  forall n i out t,
    readFileBlocks host n img e outPath i out = Raise t ->
    t = FailedWriting outPath \/ exists err, t = ImageError err.
Proof.
  induction n as [|n IH]; intros i out t H; cbn [readFileBlocks] in H;
    [discriminate H|].
  destruct (readBlock img (u32 (startBlock e + i))) as [block|err|u|];
    try discriminate H.
  - destruct (outAccepts host outPath i); cbn [negb] in H.
    + apply (IH _ _ _ H).
    + left. congruence.
  - right. exists err. congruence.
Qed.

Lemma copySingleFromRt11_outcome (host : HostOut) (img : image)
  (totalBlocks : Z) (e : Rt11Entry) (outPath : string) (noReplace : bool) :
  permanent e = true ->
  match copySingleFromRt11 host img totalBlocks e outPath noReplace with
  | Return r => reportPath r = outPath
  | Raise t => forall n, t <> NonPermanentFile n
  | _ => True
  end.
Proof.
  intros Hp. unfold copySingleFromRt11. rewrite Hp. cbn [negb].
  destruct ((startBlock e =? 0)
            || (u32 (startBlock e + lengthBlocks e - 1) >=? totalBlocks));
    [intros n; discriminate|].
  destruct (noReplace && outExists host outPath); [reflexivity|].
  destruct (outCreatable host outPath); cbn [negb]; [|intros n; discriminate].
  destruct (readFileBlocks host (Z.to_nat (lengthBlocks e)) img e outPath 0 [])
    as [data|t| |] eqn:R; try exact I; [reflexivity|].
  intros n ->. apply readFileBlocks_raises in R.
  destruct R as [R|[err R]]; discriminate R.
Qed.

Lemma copyMatches_reports (host : HostOut)
  (joinPath : option string -> string -> string) (img : image)
  (totalBlocks : Z) (destDir : option string) (noReplace : bool) :
  forall matches done0 done r,
    Forall (fun e => permanent e = true) matches ->
    copyMatches host joinPath img totalBlocks destDir noReplace matches done0
    = (done, r) ->
    (forall n, r <> Raise (NonPermanentFile n))
    /\ exists finished pending,
         matches = finished ++ pending
         /\ map reportPath done
            = map reportPath done0
              ++ map (fun e => joinPath destDir (name e)) finished
         /\ (r = Return tt <-> pending = []).
Proof.
  induction matches as [|e rest IH]; intros done0 done r Hperm H;
    cbn [copyMatches] in H.
  - injection H as <- <-. split; [intros n; discriminate|].
    exists [], []. cbn [map app]. rewrite app_nil_r.
    split; [reflexivity|]. split; [reflexivity|tauto].
  - apply Forall_cons_iff in Hperm. destruct Hperm as [Pe Prest].
    pose proof (copySingleFromRt11_outcome host img totalBlocks e
                  (joinPath destDir (name e)) noReplace Pe) as O.
    destruct (copySingleFromRt11 host img totalBlocks e
                (joinPath destDir (name e)) noReplace) as [rep|t|u|].
    + destruct (IH _ _ _ Prest H) as (Never & finished & pending & E & Pth & R).
      split; [exact Never|]. exists (e :: finished), pending.
      split; [rewrite E; reflexivity|]. split; [|exact R].
      rewrite Pth, map_app, <- app_assoc. cbn [map app]. rewrite O.
      reflexivity.
    + injection H as <- <-. split; [intros n E; injection E as E; apply (O n E)|].
      exists [], (e :: rest). cbn [map app]. rewrite app_nil_r.
      split; [reflexivity|]. split; [reflexivity|split; discriminate].
    + injection H as <- <-. split; [intros n; discriminate|].
      exists [], (e :: rest). cbn [map app]. rewrite app_nil_r.
      split; [reflexivity|]. split; [reflexivity|split; discriminate].
    + injection H as <- <-. split; [intros n; discriminate|].
      exists [], (e :: rest). cbn [map app]. rewrite app_nil_r.
      split; [reflexivity|]. split; [reflexivity|split; discriminate].
Qed.

(** X25.  [copyFromRt11] writes the selected files in the order of the
    directory, each under the destination directory by its RT-11 name,
    stops at the first file that fails leaving the earlier ones written,
    returns only when every selected file is done and there was one, and
    never reports a non-permanent file. *)
Theorem copyFromRt11_reports (host : HostOut)
  (joinPath : option string -> string -> string) (img : image)
  (patternRaw toPathRaw : string) (noReplace : bool)
  (done : list FromReport) (r : result unit) :
  copyFromRt11 host joinPath img patternRaw toPathRaw noReplace = (done, r) ->
  (forall n, r <> Raise (NonPermanentFile n))
  /\ forall listing,
       readDirectory img (u32 (Z.of_nat (List.length img) / BLOCK_SIZE))
       = Ok listing ->
       exists finished pending,
         selectMatches (fst listing) (effectivePattern patternRaw)
         = finished ++ pending
         /\ map reportPath done
            = map (fun e => joinPath (destinationDir toPathRaw) (name e))
                finished
         /\ (r = Return tt <-> pending = [] /\ finished <> []).
Proof.
  unfold copyFromRt11. cbv zeta.
  destruct (Z.of_nat (List.length img) <=? 0).
  { intros H. injection H as <- <-. split; [intros n; discriminate|].
    intros listing _.
    exists [], (selectMatches (fst listing) (effectivePattern patternRaw)).
    split; [reflexivity|]. split; [reflexivity|].
    split; [discriminate|tauto]. }
  destruct (readDirectory img (u32 (Z.of_nat (List.length img) / BLOCK_SIZE)))
    as [listing|err|u|].
  2-4: intros H; injection H as <- <-; (split; [intros n; discriminate|]);
       intros listing' D; discriminate D.
  destruct (selectMatches (fst listing) (effectivePattern patternRaw))
    as [|e rest] eqn:Sel.
  { intros H. injection H as <- <-. split; [intros n; discriminate|].
    intros listing' D. injection D as <-. rewrite Sel. exists [], [].
    split; [reflexivity|]. split; [reflexivity|].
    split; [discriminate|tauto]. }
  intros H. apply copyMatches_reports in H.
  2:{ rewrite <- Sel. unfold selectMatches. apply Forall_forall.
      intros x Hx. apply filter_In in Hx. destruct Hx as [_ Hx].
      apply andb_prop in Hx. tauto. }
  destruct H as (Never & finished & pending & E & Pth & R).
  split; [exact Never|]. intros listing' D. injection D as <-. rewrite Sel.
  exists finished, pending. split; [exact E|]. split; [exact Pth|].
  rewrite R. split; [|tauto]. intros ->. split; [reflexivity|].
  rewrite app_nil_r in E. rewrite <- E. discriminate.
Qed.

Lemma copyFromRt11_reports_witness :
  (forall n, Return tt <> Raise (NonPermanentFile n))
  /\ forall listing,
       readDirectory gapThenFile
         (u32 (Z.of_nat (List.length gapThenFile) / BLOCK_SIZE))
       = Ok listing ->
       exists finished pending,
         selectMatches (fst listing) (effectivePattern "a.*")
         = finished ++ pending
         /\ map reportPath
              [CopiedOut "out/A"
                 (firstn (512 * Z.to_nat (lengthBlocks fileEntryA))
                    (skipn (512 * Z.to_nat (startBlock fileEntryA))
                       gapThenFile))]
            = map (fun e => (fun d n => match d with
                                        | Some p => p +++ "/" +++ n
                                        | None => n
                                        end)
                              (destinationDir "out") (name e))
                finished
         /\ (Return tt = Return tt <-> pending = [] /\ finished <> []).
Proof.
  apply (copyFromRt11_reports willingHost
           (fun d n => match d with Some p => p +++ "/" +++ n | None => n end)
           gapThenFile "a.*" "out" false).
  vm_compute. reflexivity.
Defined.

(* ------------------------------------------------------------------ *)
(** ** Patterns that begin with [*.] on the command line *)

Lemma matchRt11Pattern_star_dot (rtName ext : string) :
  matchRt11Pattern rtName (String "." ext)
  = matchRt11Pattern rtName (String "*" (String "." ext)).
Proof.
  unfold matchRt11Pattern.
  destruct (match findChar "." rtName 0 with
            | Some vpos => _ | None => _ end) as [valueName valueExt].
  change (String "." ext) with ("" +++ String "." ext) at 1 2 3.
  change (String "*" (String "." ext)) with ("*" +++ String "." ext).
  rewrite !findChar_first by reflexivity. rewrite Z.add_0_l.
  rewrite !substr_prefix, !substrFrom_after. reflexivity.
Qed.

(** X26.  A pattern written [*.EXT] after [/copyfrom:] reaches the selection
    as [.EXT], and selects the same files as [*.EXT] would: an empty name
    part matches every name. *)
Theorem main_copyfrom_star_dot (imagePath ext : string)
  (entries : list Rt11Entry) :
  Main.isHelp imagePath = false ->
  Main.main [imagePath; "/copyfrom:" +++ "*." +++ ext]
  = Main.RunCopyFrom imagePath ("." +++ ext) "" false
  /\ selectMatches entries (effectivePattern ("." +++ ext))
     = selectMatches entries (effectivePattern ("*." +++ ext)).
Proof.
  intros H. split; [apply (main_copyfrom_rest imagePath "*"); exact H|].
  unfold effectivePattern, normalizePattern.
  change ("." +++ ext) with (String "." ext).
  change ("*." +++ ext) with (String "*" (String "." ext)).
  assert (L1 : (strlen (String "." ext) =? 0) = false).
  { apply Z.eqb_neq. pose proof (strlen_nonneg ext).
    unfold strlen in *. cbn [String.length]. lia. }
  assert (L2 : (strlen (String "*" (String "." ext)) =? 0) = false).
  { apply Z.eqb_neq. pose proof (strlen_nonneg ext).
    unfold strlen in *. cbn [String.length]. lia. }
  rewrite L1, L2. cbn [upcase].
  change (toupper ".") with "."%char. change (toupper "*") with "*"%char.
  unfold selectMatches. apply filter_ext. intros e.
  rewrite matchRt11Pattern_star_dot. reflexivity.
Qed.

Lemma main_copyfrom_star_dot_witness :
  Main.main ["disk.dsk"; "/copyfrom:" +++ "*." +++ "SAV"]
  = Main.RunCopyFrom "disk.dsk" ("." +++ "SAV") "" false
  /\ selectMatches [gapEntry; fileEntryA] (effectivePattern ("." +++ "SAV"))
     = selectMatches [gapEntry; fileEntryA] (effectivePattern ("*." +++ "SAV")).
Proof.
  apply (main_copyfrom_star_dot "disk.dsk" "SAV" [gapEntry; fileEntryA]).
  reflexivity.
Defined.

(* ------------------------------------------------------------------ *)
(** ** The entries of a segment, and those moved by a split *)

Lemma slotsFrom_S (idx ew : Z) (k : nat) :
  slotsFrom idx ew (S k) = idx :: slotsFrom (idx + ew) ew k.
Proof.
  unfold slotsFrom. cbn [seq map]. f_equal; [lia|].
  rewrite <- seq_shift, map_map. apply map_ext. intros i. lia.
Qed.

Lemma slotsFrom_length (idx ew : Z) (k : nat) :
  List.length (slotsFrom idx ew k) = k.
Proof. unfold slotsFrom. rewrite length_map, length_seq. reflexivity. Qed.

Lemma nth_slotsFrom (idx ew : Z) (k i : nat) :
  (i < k)%nat -> nth i (slotsFrom idx ew k) 0 = idx + Z.of_nat i * ew.
Proof.
  revert idx k. induction i as [|i IH]; intros idx k H;
    (destruct k as [|k]; [lia|]); rewrite slotsFrom_S; cbn [nth].
  - lia.
  - rewrite IH by lia. lia.
Qed.

Lemma skipn_slotsFrom (idx ew : Z) (k i : nat) :
  (i <= k)%nat ->
  skipn i (slotsFrom idx ew k) = slotsFrom (idx + Z.of_nat i * ew) ew (k - i).
Proof.
  revert idx k. induction i as [|i IH]; intros idx k H.
  - rewrite Nat.sub_0_r. cbn [skipn]. f_equal. lia.
  - destruct k as [|k]; [lia|]. rewrite slotsFrom_S. cbn [skipn].
    rewrite IH by lia. cbn [Nat.sub]. f_equal. lia.
Qed.

(** An entry the scans go over: no end-of-segment bit, and not 0. *)
Lemma collectEntryIdx_slots (words : list Z) (ew : Z) :
  0 < ew ->
  forall fuel idx acc l,
    0 <= idx ->
    collectEntryIdx fuel words ew idx acc = Ok l ->
    exists k,
      l = acc ++ slotsFrom idx ew k
      /\ forall i, (i < k)%nat ->
           idx + Z.of_nat i * ew + ew <= 512
           /\ Z.land (getw words (idx + Z.of_nat i * ew)) E_EOS = 0
           /\ getw words (idx + Z.of_nat i * ew) <> 0.
Proof.
  intros Hew. induction fuel as [|fuel IH]; intros idx acc l Hidx;
    [discriminate|].
  cbn [collectEntryIdx]. rewrite Z.add_0_r.
  destruct (Z.leb_spec (idx + ew) 512) as [Hfit|Hfit]; cbn [negb].
  2:{ intros H. injection H as <-. exists 0%nat.
      split; [symmetry; apply app_nil_r|]. intros i Hi. lia. }
  destruct (Z.eqb_spec (Z.land (getw words idx) E_EOS) 0) as [Heos|Heos];
    cbn [negb].
  2:{ intros H. injection H as <-. exists 0%nat.
      split; [symmetry; apply app_nil_r|]. intros i Hi. lia. }
  destruct (Z.eqb_spec (getw words idx) 0) as [Hz|Hz].
  { intros H. injection H as <-. exists 0%nat.
    split; [symmetry; apply app_nil_r|]. intros i Hi. lia. }
  rewrite u16_small by lia. intros H.
  apply IH in H; [|lia]. destruct H as (k & -> & Hk).
  exists (S k). split.
  - rewrite slotsFrom_S, <- app_assoc. reflexivity.
  - intros [|i] Hi.
    + cbn [Z.of_nat]. rewrite Z.mul_0_l, Z.add_0_r. repeat split; assumption.
    + specialize (Hk i ltac:(lia)).
      replace (idx + Z.of_nat (S i) * ew) with (idx + ew + Z.of_nat i * ew)
        by lia.
      exact Hk.
Qed.

Lemma collectEntryIdx_complete (words : list Z) (ew : Z) :
  0 < ew ->
  forall k fuel idx acc,
    (k < fuel)%nat -> 0 <= idx ->
    (forall i, (i < k)%nat ->
       idx + Z.of_nat i * ew + ew <= 512
       /\ Z.land (getw words (idx + Z.of_nat i * ew)) E_EOS = 0
       /\ getw words (idx + Z.of_nat i * ew) <> 0) ->
    (512 < idx + Z.of_nat k * ew + ew
     \/ Z.land (getw words (idx + Z.of_nat k * ew)) E_EOS <> 0
     \/ getw words (idx + Z.of_nat k * ew) = 0) ->
    collectEntryIdx fuel words ew idx acc = Ok (acc ++ slotsFrom idx ew k).
Proof.
  intros Hew. induction k as [|k IH]; intros fuel idx acc Hf Hidx Hlive Hstop;
    (destruct fuel as [|fuel]; [lia|]); cbn [collectEntryIdx];
    rewrite Z.add_0_r.
  - cbn [Z.of_nat] in Hstop. rewrite Z.mul_0_l, Z.add_0_r in Hstop.
    unfold slotsFrom. cbn [seq map]. rewrite app_nil_r.
    destruct (Z.leb_spec (idx + ew) 512) as [Hfit|Hfit]; cbn [negb];
      [|reflexivity].
    destruct (Z.eqb_spec (Z.land (getw words idx) E_EOS) 0) as [Heos|Heos];
      cbn [negb]; [|reflexivity].
    destruct (Z.eqb_spec (getw words idx) 0) as [Hz|Hz]; [reflexivity|].
    exfalso. destruct Hstop as [H|[H|H]]; [lia|contradiction|contradiction].
  - destruct (Hlive 0%nat ltac:(lia)) as (H1 & H2 & H3).
    cbn [Z.of_nat] in H1, H2, H3. rewrite Z.mul_0_l, Z.add_0_r in H1, H2, H3.
    replace (idx + ew <=? 512) with true by (symmetry; apply Z.leb_le; lia).
    cbn [negb]. rewrite H2. cbn [Z.eqb negb].
    replace (getw words idx =? 0) with false
      by (symmetry; apply Z.eqb_neq; exact H3).
    rewrite u16_small by lia.
    rewrite (IH fuel (idx + ew) (acc ++ [idx])); try lia.
    + rewrite slotsFrom_S, <- app_assoc. reflexivity.
    + intros i Hi. specialize (Hlive (S i) ltac:(lia)).
      replace (idx + ew + Z.of_nat i * ew) with (idx + Z.of_nat (S i) * ew)
        by lia.
      exact Hlive.
    + replace (idx + ew + Z.of_nat k * ew) with (idx + Z.of_nat (S k) * ew)
        by lia.
      exact Hstop.
Qed.

Lemma replaceNth_same (l : list Z) :
  forall n, replaceNth l n (nth n l 0) = l.
Proof.
  induction l as [|x l IH]; intros [|n]; cbn [replaceNth nth];
    try reflexivity.
  rewrite IH. reflexivity.
Qed.

Lemma setw_getw (words : list Z) (i : Z) : setw words i (getw words i) = words.
Proof. unfold setw, getw. apply replaceNth_same. Qed.

(** The copy of one entry. *)
Lemma copyEntryWords_words (words : list Z) (src dest : Z) :
  0 <= dest ->
  forall n w newWords,
    0 <= w ->
    (Z.to_nat (dest + w) + n <= List.length newWords)%nat ->
    List.length (copyEntryWords n words src dest w newWords)
    = List.length newWords
    /\ (forall j, 0 <= j -> j < dest + w \/ dest + w + Z.of_nat n <= j ->
          getw (copyEntryWords n words src dest w newWords) j
          = getw newWords j)
    /\ (forall i, 0 <= i < Z.of_nat n ->
          getw (copyEntryWords n words src dest w newWords) (dest + w + i)
          = getw words (src + w + i)).
Proof.
  intros Hd. induction n as [|n IH]; intros w newWords Hw Hlen;
    cbn [copyEntryWords].
  - split; [reflexivity|]. split; [reflexivity|]. intros i Hi. lia.
  - destruct (IH (w + 1) (setw newWords (dest + w) (getw words (src + w)))
                ltac:(lia)) as (L & F & C).
    { rewrite setw_length. lia. }
    split; [rewrite L; apply setw_length|]. split.
    + intros j Hj Hout. rewrite F by lia. apply getw_setw_other; lia.
    + intros i Hi. destruct (Z.eq_dec i 0) as [->|Hne].
      * rewrite !Z.add_0_r. rewrite F by lia.
        apply getw_setw_same. lia.
      * replace (dest + w + i) with (dest + (w + 1) + (i - 1)) by lia.
        replace (src + w + i) with (src + (w + 1) + (i - 1)) by lia.
        apply C. lia.
Qed.

Lemma copyEntryWords_In (words : list Z) (src dest : Z) (x : Z) :
  forall n w newWords,
    In x (copyEntryWords n words src dest w newWords) ->
    In x newWords \/ exists j, x = getw words j.
Proof.
  induction n as [|n IH]; intros w newWords H; cbn [copyEntryWords] in H.
  - left. exact H.
  - apply IH in H. destruct H as [H|H]; [|right; exact H].
    apply In_setw in H. destruct H as [->|H]; [right; eexists; reflexivity|].
    left. exact H.
Qed.

(** The loop over the entries moved: nothing stops it before the last
    entry, since every entry lands at or below the place it had. *)
Lemma moveEntries_words (words : list Z) (ew : Z) :
  0 < ew < 65536 ->
  forall srcs c newWords,
    0 <= c ->
    List.length newWords = 512%nat ->
    5 + (c + Z.of_nat (List.length srcs)) * ew <= 512 ->
    exists moved,
      moveEntries words ew srcs c newWords
      = (moved, c + Z.of_nat (List.length srcs))
      /\ List.length moved = 512%nat
      /\ (forall j, 0 <= j ->
            j < 5 + c * ew
            \/ 5 + (c + Z.of_nat (List.length srcs)) * ew <= j ->
            getw moved j = getw newWords j)
      /\ (forall i w, (i < List.length srcs)%nat -> 0 <= w < ew ->
            getw moved (5 + (c + Z.of_nat i) * ew + w)
            = getw words (nth i srcs 0 + w))
      /\ (forall x, In x moved ->
            In x newWords \/ exists j, x = getw words j).
Proof.
  intros Hew. induction srcs as [|s srcs IH]; intros c newWords Hc Hlen Hfit;
    cbn [moveEntries List.length] in *.
  - exists newWords. rewrite Z.add_0_r.
    split; [reflexivity|]. split; [exact Hlen|].
    split; [reflexivity|]. split; [intros i w Hi; lia|]. intros x Hx. left. exact Hx.
  - assert (Hc1 : 0 <= c * ew) by (apply Z.mul_nonneg_nonneg; lia).
    assert (Hs : 0 <= Z.of_nat (List.length srcs) * ew)
      by (apply Z.mul_nonneg_nonneg; lia).
    assert (Hdest : 5 + c * ew + ew <= 512) by lia.
    rewrite u16_small by lia.
    replace (5 + c * ew + ew >? 512) with false
      by (symmetry; rewrite Z.gtb_ltb; apply Z.ltb_ge; lia).
    destruct (copyEntryWords_words words s (5 + c * ew) ltac:(lia)
                (Z.to_nat ew) 0 newWords ltac:(lia)) as (L & F & C).
    { rewrite Hlen. lia. }
    destruct (IH (c + 1)
                (copyEntryWords (Z.to_nat ew) words s (5 + c * ew) 0 newWords)
                ltac:(lia)) as (moved & E & Lm & Fm & Cm & Im).
    { rewrite L. exact Hlen. }
    { lia. }
    exists moved. split.
    { rewrite E. f_equal. lia. }
    split; [exact Lm|]. split.
    + intros j Hj Hout. rewrite Fm by lia. apply F; lia.
    + split.
      * intros [|i] w Hi Hw.
        -- cbn [nth Z.of_nat]. rewrite Z.add_0_r.
           rewrite Fm by lia.
           replace (5 + c * ew + w) with (5 + c * ew + 0 + w) by lia.
           rewrite C by lia. f_equal. lia.
        -- cbn [nth].
           replace (5 + (c + Z.of_nat (S i)) * ew + w)
             with (5 + (c + 1 + Z.of_nat i) * ew + w) by lia.
           apply Cm; lia.
      * intros x Hx. apply Im in Hx. destruct Hx as [Hx|Hx]; [|right; exact Hx].
        apply copyEntryWords_In in Hx. exact Hx.
Qed.

Lemma headerWords (words : list Z) (i : Z) :
  0 <= i < 5 ->
  getw (setw (setw (setw (setw (setw (repeat 0 512) 0 (getw words 0))
                                1 (getw words 1))
                          2 (getw words 2))
                    3 (getw words 3))
              4 (getw words 4)) i
  = getw words i.
Proof.
  intros Hi.
  assert (L : forall l : list Z, List.length l = 512%nat ->
            forall j, 0 <= j < 5 -> (Z.to_nat j < List.length l)%nat)
    by (intros l -> j Hj; lia).
  assert (L0 : List.length (repeat 0 512) = 512%nat) by apply repeat_length.
  assert (Hcase : i = 0 \/ i = 1 \/ i = 2 \/ i = 3 \/ i = 4) by lia.
  destruct Hcase as [->|[->|[->|[->| ->]]]].
  - rewrite !getw_setw_other by lia. apply getw_setw_same. apply L; [exact L0|lia].
  - rewrite !getw_setw_other by lia. apply getw_setw_same.
    apply L; [rewrite !setw_length; exact L0|lia].
  - rewrite !getw_setw_other by lia. apply getw_setw_same.
    apply L; [rewrite !setw_length; exact L0|lia].
  - rewrite !getw_setw_other by lia. apply getw_setw_same.
    apply L; [rewrite !setw_length; exact L0|lia].
  - apply getw_setw_same. apply L; [rewrite !setw_length; exact L0|lia].
Qed.

(** The new segment: the header of the old one, then the entries from the
    split position on, then the end-of-segment marker; read as a segment,
    it has exactly these entries. *)
Lemma newSegmentWords_entries (words entryIdx : list Z) (midPos : Z) :
  List.length words = 512%nat ->
  (forall i, 0 <= getw words i < 65536) ->
  collectEntryIdx wordsPerSegment words
    (entryWordsOf (parseSegmentHeader words)) 5 [] = Ok entryIdx ->
  0 <= midPos < Z.of_nat (List.length entryIdx) ->
  List.length (newSegmentWords words entryIdx midPos) = 512%nat
  /\ (forall x, In x (newSegmentWords words entryIdx midPos) ->
        0 <= x < 65536)
  /\ (forall i, 0 <= i < 5 ->
        getw (newSegmentWords words entryIdx midPos) i = getw words i)
  /\ (forall k w,
        (k < List.length entryIdx - Z.to_nat midPos)%nat ->
        0 <= w < entryWordsOf (parseSegmentHeader words) ->
        getw (newSegmentWords words entryIdx midPos)
          (5 + Z.of_nat k * entryWordsOf (parseSegmentHeader words) + w)
        = getw words (nth (Z.to_nat midPos + k) entryIdx 0 + w))
  /\ collectEntryIdx wordsPerSegment (newSegmentWords words entryIdx midPos)
       (entryWordsOf
          (parseSegmentHeader (newSegmentWords words entryIdx midPos))) 5 []
     = Ok (slotsFrom 5 (entryWordsOf (parseSegmentHeader words))
             (List.length entryIdx - Z.to_nat midPos)).
Proof.
  intros Hlen Hr Hcol Hmid.
  pose proof (entryWordsOf_range words Hr) as Hew.
  set (ew := entryWordsOf (parseSegmentHeader words)) in *.
  destruct (collectEntryIdx_slots words ew ltac:(lia) wordsPerSegment 5 []
              entryIdx ltac:(lia) Hcol) as (n & E & Hlive).
  cbn [app] in E. subst entryIdx. rewrite slotsFrom_length in *.
  set (m := (n - Z.to_nat midPos)%nat).
  assert (Hn : 5 + Z.of_nat n * ew <= 512).
  { destruct n as [|n]; [lia|].
    destruct (Hlive n ltac:(lia)) as [H _]. lia. }
  assert (Hm : 5 + Z.of_nat m * ew <= 512).
  { assert (Z.of_nat m * ew <= Z.of_nat n * ew)
      by (apply Z.mul_le_mono_nonneg_r; lia). lia. }
  assert (Hcount : (m < wordsPerSegment)%nat).
  { assert (Z.of_nat m * 7 <= Z.of_nat m * ew)
      by (apply Z.mul_le_mono_nonneg_l; lia).
    unfold wordsPerSegment. lia. }
  unfold newSegmentWords. fold ew. cbv zeta.
  rewrite Z.add_0_r, setw_getw.
  rewrite skipn_slotsFrom by lia. fold m.
  set (hdr := setw (setw (setw (setw (setw (repeat 0 512) 0 (getw words 0))
                                       1 (getw words 1))
                                 2 (getw words 2))
                           3 (getw words 3))
                     4 (getw words 4)).
  assert (Lh : List.length hdr = 512%nat)
    by (subst hdr; rewrite !setw_length; apply repeat_length).
  destruct (moveEntries_words words ew ltac:(lia)
              (slotsFrom (5 + Z.of_nat (Z.to_nat midPos) * ew) ew m) 0 hdr
              ltac:(lia) Lh) as (moved & Em & Lm & Fm & Cm & Im).
  { rewrite slotsFrom_length. lia. }
  rewrite slotsFrom_length in Em, Fm, Cm. rewrite Em.
  rewrite Z.add_0_l in Fm. rewrite Z.mul_0_l, Z.add_0_r in Fm.
  assert (Cm' : forall i w, (i < m)%nat -> 0 <= w < ew ->
            getw moved (5 + Z.of_nat i * ew + w)
            = getw words
                (nth i (slotsFrom (5 + Z.of_nat (Z.to_nat midPos) * ew) ew m) 0
                 + w)).
  { intros i w Hi Hw. exact (Cm i w Hi Hw). }
  clear Cm. rewrite Z.add_0_l.
  rewrite u16_small by lia. rewrite Z.add_0_r.
  set (final := if 5 + Z.of_nat m * ew <? 512
                then setw moved (5 + Z.of_nat m * ew) E_EOS else moved).
  assert (Hbelow : forall j, 0 <= j < 5 + Z.of_nat m * ew ->
                     getw final j = getw moved j).
  { intros j Hj. subst final. destruct (_ <? 512); [|reflexivity].
    apply getw_setw_other; lia. }
  assert (Hentry : forall k w, (k < m)%nat -> 0 <= w < ew ->
            getw final (5 + Z.of_nat k * ew + w)
            = getw words (5 + (Z.of_nat (Z.to_nat midPos) + Z.of_nat k) * ew + w)).
  { intros k w Hk Hw.
    assert (Z.of_nat k * ew + ew <= Z.of_nat m * ew).
    { replace (Z.of_nat k * ew + ew) with ((Z.of_nat k + 1) * ew) by lia.
      apply Z.mul_le_mono_nonneg_r; lia. }
    assert (0 <= Z.of_nat k * ew) by (apply Z.mul_nonneg_nonneg; lia).
    rewrite Hbelow by lia. rewrite Cm' by lia.
    rewrite nth_slotsFrom by lia. f_equal. lia. }
  assert (Hhead : forall i, 0 <= i < 5 -> getw final i = getw words i).
  { intros i Hi.
    assert (0 <= Z.of_nat m * ew) by (apply Z.mul_nonneg_nonneg; lia).
    rewrite Hbelow by lia. rewrite Fm by lia. apply headerWords. exact Hi. }
  split.
  { subst final. destruct (_ <? 512); [rewrite setw_length|]; exact Lm. }
  split.
  { intros x Hx.
    assert (Hmoved : In x moved -> 0 <= x < 65536).
    { intros H. apply Im in H. destruct H as [H|[j ->]]; [|apply Hr].
      subst hdr.
      repeat (apply In_setw in H; destruct H as [->|H]; [apply Hr|]).
      apply repeat_spec in H. lia. }
    subst final. destruct (_ <? 512); [|apply Hmoved; exact Hx].
    apply In_setw in Hx. destruct Hx as [->|Hx]; [unfold E_EOS; lia|].
    apply Hmoved. exact Hx. }
  split; [exact Hhead|]. split.
  { intros k w Hk Hw. rewrite Hentry by assumption.
    rewrite nth_slotsFrom by lia. f_equal. lia. }
  replace (entryWordsOf (parseSegmentHeader final)) with ew.
  2:{ subst ew. unfold entryWordsOf, parseSegmentHeader. cbn [extraBytes].
      rewrite Hhead by lia. reflexivity. }
  apply (collectEntryIdx_complete final ew ltac:(lia) m wordsPerSegment 5 []
           Hcount ltac:(lia)).
  - intros i Hi.
    assert (Z.of_nat i * ew + ew <= Z.of_nat m * ew).
    { replace (Z.of_nat i * ew + ew) with ((Z.of_nat i + 1) * ew) by lia.
      apply Z.mul_le_mono_nonneg_r; lia. }
    split; [lia|].
    pose proof (Hentry i 0 Hi ltac:(lia)) as He.
    rewrite !Z.add_0_r in He. rewrite He.
    destruct (Hlive (Z.to_nat midPos + i)%nat ltac:(lia)) as (_ & H2 & H3).
    replace (Z.of_nat (Z.to_nat midPos + i))
      with (Z.of_nat (Z.to_nat midPos) + Z.of_nat i) in H2, H3 by lia.
    split; assumption.
  - destruct (Z.leb_spec (5 + Z.of_nat m * ew + ew) 512) as [Hfit|Hfit];
      [|left; lia].
    right. left. subst final.
    replace (5 + Z.of_nat m * ew <? 512) with true
      by (symmetry; apply Z.ltb_lt; lia).
    rewrite getw_setw_same by (rewrite Lm; lia).
    discriminate.
Qed.

(* ------------------------------------------------------------------ *)
(** ** The new segment on the volume *)

Lemma markSegment_keeps (v : list bool) (i : Z) (k : nat) :
  nth k v false = true -> nth k (markSegment v i) false = true.
Proof.
  intros H. unfold markSegment.
  assert (Hk : (k < List.length v)%nat).
  { destruct (Nat.lt_ge_cases k (List.length v)) as [L|L]; [exact L|].
    rewrite nth_overflow in H by exact L. discriminate H. }
  destruct (Nat.lt_ge_cases k (Z.to_nat i)) as [L|L].
  - rewrite app_nth1 by (rewrite length_firstn; lia).
    rewrite nth_firstn.
    replace (k <? Z.to_nat i)%nat with true
      by (symmetry; apply Nat.ltb_lt; exact L).
    exact H.
  - rewrite app_nth2 by (rewrite length_firstn; lia).
    rewrite length_firstn, Nat.min_l by lia.
    destruct (k - Z.to_nat i)%nat as [|j] eqn:E; [reflexivity|].
    cbn [nth]. rewrite nth_skipn.
    replace (S (Z.to_nat i) + j)%nat with k by lia. exact H.
Qed.

Lemma markSegment_marks (v : list bool) (i : Z) :
  (Z.to_nat i < List.length v)%nat ->
  nth (Z.to_nat i) (markSegment v i) false = true.
Proof.
  intros H. unfold markSegment.
  rewrite app_nth2 by (rewrite length_firstn; lia).
  rewrite length_firstn, Nat.min_l by lia.
  rewrite Nat.sub_diag. reflexivity.
Qed.

Lemma markChain_keeps (img : image) (firstDirBlock totalSegs : Z) (k : nat) :
  forall fuel currentSeg used used',
    nth k used false = true ->
    markChain fuel img firstDirBlock totalSegs currentSeg used = Ok used' ->
    nth k used' false = true.
Proof.
  induction fuel as [|fuel IH]; intros currentSeg used used' Hk;
    [discriminate|].
  cbn [markChain].
  destruct (negb _); [intros H; injection H as <-; exact Hk|].
  destruct (nth (Z.to_nat currentSeg) used false); [discriminate|].
  unfold obind.
  destruct (readSegmentWords img (segmentBlock firstDirBlock currentSeg))
    as [w| | |]; try discriminate.
  apply IH. apply markSegment_keeps. exact Hk.
Qed.

(** Segment 1 is always in the chain. *)
Lemma markChain_first (img : image) (firstDirBlock totalSegs : Z)
  (fuel : nat) (used : list bool) :
  1 <= totalSegs ->
  markChain (S fuel) img firstDirBlock totalSegs 1
    (repeat false (Z.to_nat (totalSegs + 1))) = Ok used ->
  nth 1 used false = true.
Proof.
  intros Hts. cbn [markChain].
  replace (1 <=? totalSegs) with true by (symmetry; apply Z.leb_le; exact Hts).
  cbn [Z.eqb Z.geb Z.compare negb andb].
  replace (nth (Z.to_nat 1) (repeat false (Z.to_nat (totalSegs + 1))) false)
    with false by (symmetry; apply nth_repeat).
  unfold obind.
  destruct (readSegmentWords img (segmentBlock firstDirBlock 1))
    as [w| | |]; try discriminate.
  apply markChain_keeps.
  apply (markSegment_marks _ 1). rewrite repeat_length. lia.
Qed.

Lemma firstUnused_unused (used : list bool) :
  forall n s, 0 < s ->
    firstUnused used s n <> 0 ->
    nth (Z.to_nat (firstUnused used s n)) used false = false.
Proof.
  induction n as [|n IH]; intros s Hs; cbn [firstUnused]; [congruence|].
  destruct (nth (Z.to_nat s) used false) eqn:E; cbn [negb].
  - apply IH. lia.
  - intros _. exact E.
Qed.

Lemma readSegmentWords_writeImage_other (img : image) (block blk : Z)
  (buf : list byte) (words : list Z) :
  0 <= block -> 0 <= blk < 4294967295 ->
  block <> blk -> block <> blk + 1 ->
  List.length buf = 512%nat ->
  readSegmentWords img blk = Ok words ->
  readSegmentWords (writeImage img block buf) blk = Ok words.
Proof.
  intros Hb Hblk Hne Hne1 Hlen. unfold readSegmentWords, obind.
  assert (Hu : u32 (blk + 1) = blk + 1)
    by (unfold u32; apply Z.mod_small; lia).
  rewrite Hu.
  destruct (readBlock img blk) as [b0| | |] eqn:E0; try discriminate.
  destruct (readBlock img (blk + 1)) as [b1| | |] eqn:E1; try discriminate.
  intros H.
  rewrite (readBlock_writeImage_other img block blk buf b0) by (lia || assumption).
  rewrite (readBlock_writeImage_other img block (blk + 1) buf b1)
    by (lia || assumption).
  exact H.
Qed.

Lemma blocks_of_segment (words : list Z) :
  List.length words = 512%nat ->
  List.length (lowBlock words) = 512%nat
  /\ List.length (highBlock words) = 512%nat.
Proof.
  intros H. unfold lowBlock, highBlock.
  rewrite !wordsBytes_length, length_firstn, length_skipn, H. split; lia.
Qed.

(** After a split that succeeded, the blocks of the new segment hold the
    words built at step 8, whether or not segment 1 was written again. *)
Lemma splitDirectorySegment_new_segment (seg : Z) (d d' : disk) :
  splitDirectorySegment seg d = (Ok tt, d') ->
  exists firstDirBlock seg1Words used words entryIdx,
    getFirstDirectoryBlock (bytes d) = Ok firstDirBlock
    /\ readSegmentWords (bytes d) firstDirBlock = Ok seg1Words
    /\ markChain (Z.to_nat (totalSegments (parseSegmentHeader seg1Words)) + 2)
         (bytes d) firstDirBlock
         (totalSegments (parseSegmentHeader seg1Words)) 1
         (repeat false
            (Z.to_nat (totalSegments (parseSegmentHeader seg1Words) + 1)))
       = Ok used
    /\ readSegmentWords (bytes d) (segmentBlock firstDirBlock seg) = Ok words
    /\ collectEntryIdx wordsPerSegment words
         (entryWordsOf (parseSegmentHeader words)) 5 [] = Ok entryIdx
    /\ entryIdx <> []
    /\ readSegmentWords (bytes d')
         (segmentBlock firstDirBlock
            (firstUnused used 1
               (Z.to_nat (totalSegments (parseSegmentHeader seg1Words)))))
       = Ok (newSegmentWords words entryIdx
               (chooseMidPos (movablePositionsFrom words 0 entryIdx)
                  (Z.of_nat (List.length entryIdx)))).
Proof.
  unfold splitDirectorySegment.
  cbv beta iota zeta delta [bindM readM throwM retM writeBlock].
  repeat (first [runStop | runStep]).
  all: intros H; injection H as <-; cbn [bytes].
  all: match goal with
       | Hf : getFirstDirectoryBlock _ = Ok ?f,
         Hs : readSegmentWords _ ?f = Ok ?s,
         Ht : (_ =? 0) || (_ >? 31) = false,
         Hm : markChain _ _ _ _ _ _ = Ok ?u,
         Hu : (firstUnused ?u 1 _ =? 0) = false,
         Hw : readSegmentWords _ (segmentBlock ?f _) = Ok ?ws,
         Hc : collectEntryIdx _ ?ws _ _ _ = Ok ?idx,
         Hp : moveEntries _ _ _ _ _ = _ |- _ =>
         exists f, s, u, ws, idx;
         split; [first [exact Hf|reflexivity]|];
         split; [first [exact Hs|reflexivity]|];
         split; [first [exact Hm|reflexivity]|];
         split; [first [exact Hw|reflexivity]|];
         split; [first [exact Hc|reflexivity]|];
         split; [discriminate|];
         pose proof (getFirstDirectoryBlock_range _ _ Hf) as Hfr;
         pose proof (readSegmentWords_range _ _ _ Hs 0) as Hts;
         pose proof (readSegmentWords_length _ _ _ Hs) as Ls;
         pose proof (readSegmentWords_length _ _ _ Hw) as Lw;
         pose proof (readSegmentWords_range _ _ _ Hw) as Rw;
         apply orb_false_iff in Ht; destruct Ht as [Ht0 Ht31];
         apply Z.eqb_neq in Ht0; rewrite Z.gtb_ltb in Ht31;
         apply Z.ltb_ge in Ht31; apply Z.eqb_neq in Hu;
         rename Hm into Hchain; rename Hu into Hunused; rename Hp into Hmove;
         rename Hc into Hcollect
       end.
  all: change (getw a0 0) with (totalSegments (parseSegmentHeader a0)) in Hts.
  all: set (ts := totalSegments (parseSegmentHeader a0)) in *.
  all: replace (Z.to_nat ts + 2)%nat with (S (Z.to_nat ts + 1)) in Hchain by lia.
  all: assert (Hts1 : 1 <= ts) by lia.
  all: pose proof (markChain_first _ _ _ _ _ Hts1 Hchain) as Hone.
  all: pose proof (firstUnused_range a1 (Z.to_nat ts) 1 ltac:(lia)) as Hnew.
  all: pose proof (firstUnused_unused a1 (Z.to_nat ts) 1 ltac:(lia) Hunused)
         as Hfree.
  all: set (newSegNum := firstUnused a1 1 (Z.to_nat ts)) in *.
  all: assert (Hnew2 : 2 <= newSegNum <= 31)
         by (destruct (Z.eq_dec newSegNum 1) as [E1|E1];
             [rewrite E1 in Hfree; change (Z.to_nat 1) with 1%nat in Hfree;
              congruence|lia]).
  all: assert (Hnb : segmentBlock a newSegNum = a + (newSegNum - 1) * 2)
         by (unfold segmentBlock, u32, DIR_SEGMENT_BLOCKS;
             apply Z.mod_small; lia).
  all: destruct (chooseMidPos_position a2 (z :: l) ltac:(discriminate))
         as (_ & _ & _ & _ & Hmid & _).
  all: destruct (newSegmentWords_entries a2 (z :: l) _ Lw Rw Hcollect Hmid)
         as (Lnw & Rnw & _).
  all: destruct (blocks_of_segment _ Lnw) as [Llo Lhi].
  all: revert Lnw Rnw Llo Lhi.
  all: unfold newSegmentWords; cbv zeta; rewrite Hmove.
  all: intros Lnw Rnw Llo Lhi.
  - (* segment 1 is written again *)
    assert (L1 : List.length (setw a0 2 (Z.max (highestInUse (parseSegmentHeader a0)) newSegNum)) = 512%nat)
      by (rewrite setw_length; exact Ls).
    destruct (blocks_of_segment _ L1) as [L1lo L1hi].
    assert (Hu1 : u32 (a + 1) = a + 1)
      by (unfold u32; apply Z.mod_small; lia).
    rewrite Hu1.
    apply readSegmentWords_writeImage_other; try lia; try assumption.
    apply readSegmentWords_writeImage_other; try lia; try assumption.
    apply readSegmentWords_written; try lia; assumption.
  - apply readSegmentWords_written; try lia; assumption.
Qed.

(** C8 (as amended).  A split that succeeds takes as candidate the
    Permanent or Tentative entry of index [m / 2] among the [m] such
    entries of the segment, or the entry of index [n / 2] among all [n]
    entries when there is none; a candidate that is the last entry is
    replaced by the entry of index [n / 2]; the split position is that of
    an entry, and the new segment as it stands on the volume afterwards
    holds exactly the entries from the split position on, of which there is
    at least one. *)
Theorem splitDirectorySegment_split_point (seg : Z) (d d' : disk) :
  splitDirectorySegment seg d = (Ok tt, d') ->
  newSegmentFromSplitPoint seg d d'.
Proof.
  intros Hrun.
  destruct (splitDirectorySegment_new_segment seg d d' Hrun)
    as (fdb & seg1Words & used & words & entryIdx
        & Hf & Hs & Hm & Hw & Hc & Hne & Hnew).
  pose proof (readSegmentWords_length _ _ _ Hw) as Lw.
  pose proof (readSegmentWords_range _ _ _ Hw) as Rw.
  destruct (chooseMidPos_position words entryIdx Hne)
    as (Hcand & Hnone & _ & Hadj & Hmid & Htail & _).
  destruct (newSegmentWords_entries words entryIdx _ Lw Rw Hc Hmid)
    as (_ & _ & _ & Hent & Hcol).
  exists fdb, seg1Words, used, words, entryIdx.
  exists (newSegmentWords words entryIdx
            (chooseMidPos (movablePositionsFrom words 0 entryIdx)
               (Z.of_nat (List.length entryIdx)))).
  split; [exact Hf|]. split; [exact Hs|]. split; [exact Hm|].
  split; [exact Hw|]. split; [exact Hc|]. cbv zeta.
  split; [exact Hcand|]. split; [exact Hnone|]. split; [exact Hadj|].
  split; [exact Hmid|]. split; [exact Htail|]. split; [exact Hnew|].
  split.
  - unfold segmentEntryIdx, obind. rewrite Hnew, Hcol. do 2 f_equal. lia.
  - intros k w Hk Hw'.
    rewrite <- (Z2Nat.id k) at 1 by lia.
    rewrite Hent by lia. rewrite <- Z2Nat.inj_add by lia. reflexivity.
Qed.

Lemma splitDirectorySegment_split_point_witness :
  newSegmentFromSplitPoint 1 (freshDisk (twoFilesGap 2))
    (snd (afterSplit (twoFilesGap 2) 1)).
Proof.
  apply (splitDirectorySegment_split_point 1 (freshDisk (twoFilesGap 2))
           (snd (afterSplit (twoFilesGap 2) 1))).
  vm_compute. reflexivity.
Defined.
